(** * sharp-frames: colour-space, GPS and EXIF collaborators, and the frame selector

    A shallow embedding of [sharp_frames/processing/colorspace.py],
    [gps_extractor.py] and [exif_writer.py] and of the diagnostic script
    [check_libzimg.py], together with the frame selector of the design
    document, and the properties checked about them.

    Conventions.
    - Python [str] values are modelled by [string], a sequence of 8-bit
      characters; the model is exact on ASCII text. The digits, blanks and
      letters the code looks for are ASCII; Unicode digits and blanks, which
      [\d] and [str.strip] accept as well, are outside the model.
    - Python [float] is IEEE binary64, modelled by the primitive [float];
      Python [int] is [Z].
    - A Python call that may raise returns a [result]; [try]/[except] is
      [try_except] with the list of handled exception classes.
    - Values decoded from JSON are dynamically typed: they are modelled by
      [json], and every attribute access, subscript and iteration on them
      spells out which exception Python raises on the wrong kind of value.
    - The external tools and libraries ([ffprobe], [ffmpeg], [json], [piexif],
      the file system) are parameters: the records [Host.Env] and
      [ExifWriter.Piexif]. *)

From Stdlib Require Import ZArith Floats Ascii String.
From stdpp Require Import base option list strings pretty gmap fin_maps.

Local Open Scope string_scope.
Local Open Scope Z_scope.

(** ** Python preliminaries *)

Module Py.

(** Exception classes that the modelled code raises or handles.
    [OtherError] stands for any further subclass of [Exception]. *)
Inductive exn : Type :=
  | TimeoutExpired
  | FileNotFoundError
  | OSError
  | JSONDecodeError
  | ValueError
  | TypeError
  | AttributeError
  | KeyError
  | IndexError
  | ZeroDivisionError
  | OverflowError
  | InvalidImageDataError
  | OtherError (name : string).

(** The classes that can appear in an [except] clause of the sources. *)
Inductive exn_class : Type :=
  | CTimeoutExpired
  | CFileNotFoundError
  | COSError
  | CJSONDecodeError
  | CValueError
  | CTypeError
  | CZeroDivisionError
  | CInvalidImageDataError
  | CException.

(** [isinstance e c]: [FileNotFoundError] is a subclass of [OSError],
    [JSONDecodeError] of [ValueError], and everything of [Exception]. *)
Definition isinstance (e : exn) (c : exn_class) : bool :=
  match c, e with
  | CException, _ => true
  | CTimeoutExpired, TimeoutExpired => true
  | CFileNotFoundError, FileNotFoundError => true
  | COSError, (OSError | FileNotFoundError) => true
  | CJSONDecodeError, JSONDecodeError => true
  | CValueError, (ValueError | JSONDecodeError) => true
  | CTypeError, TypeError => true
  | CZeroDivisionError, ZeroDivisionError => true
  | CInvalidImageDataError, InvalidImageDataError => true
  | _, _ => false
  end.

Inductive result (A : Type) : Type :=
  | Ok (a : A)
  | Raise (e : exn).
Arguments Ok {A} a.
Arguments Raise {A} e.

#[export] Instance result_ret : MRet result := fun A a => Ok a.
#[export] Instance result_bind : MBind result := fun A B k m =>
  match m with
  | Ok a => k a
  | Raise e => Raise e
  end.

#[export] Instance result_fmap : FMap result := fun A B f m =>
  match m with
  | Ok a => Ok (f a)
  | Raise e => Raise e
  end.

(** [try: body except handlers: handler]. *)
Definition try_except {A} (body : result A) (handlers : list exn_class)
    (handler : result A) : result A :=
  match body with
  | Ok a => Ok a
  | Raise e => if existsb (isinstance e) handlers then handler else Raise e
  end.

(** Code that reads and writes a state of type [S] on the way: module-level
    variables, or the files on disk. The state is threaded through, also
    when an exception is raised. *)
Definition io (S A : Type) : Type := S → result A * S.

#[export] Instance io_ret {S} : MRet (io S) := fun A a s => (Ok a, s).
#[export] Instance io_bind {S} : MBind (io S) := fun A B k m s =>
  match m s with
  | (Ok a, s') => k a s'
  | (Raise e, s') => (Raise e, s')
  end.

(** A computation that does not touch the state. *)
Definition pure {S A} (r : result A) : io S A := fun s => (r, s).

Definition try_except_io {S A} (body : io S A) (handlers : list exn_class)
    (handler : io S A) : io S A := fun s =>
  match body s with
  | (Ok a, s') => (Ok a, s')
  | (Raise e, s') =>
      if existsb (isinstance e) handlers then handler s' else (Raise e, s')
  end.

(** *** Strings *)

Definition is_upper (c : ascii) : bool :=
  (65 <=? Z.of_N (Ascii.N_of_ascii c)) && (Z.of_N (Ascii.N_of_ascii c) <=? 90).

Definition lower_ascii (c : ascii) : ascii :=
  if is_upper c then Ascii.ascii_of_N (Ascii.N_of_ascii c + 32) else c.

(** [str.lower()]. *)
Fixpoint lower (s : string) : string :=
  match s with
  | EmptyString => EmptyString
  | String c s' => String (lower_ascii c) (lower s')
  end.

(** [\d] of a [str] pattern. *)
Definition is_digit (c : ascii) : bool :=
  (48 <=? Z.of_N (Ascii.N_of_ascii c)) && (Z.of_N (Ascii.N_of_ascii c) <=? 57).

(** [str.isspace()] on one character: TAB, LF, VT, FF, CR, FS, GS, RS, US
    and the space. *)
Definition is_space (c : ascii) : bool :=
  let n := Z.of_N (Ascii.N_of_ascii c) in
  ((9 <=? n) && (n <=? 13)) || ((28 <=? n) && (n <=? 32)).

Fixpoint lstrip (s : string) : string :=
  match s with
  | EmptyString => EmptyString
  | String c s' => if is_space c then lstrip s' else s
  end.

(** Drops trailing white space. *)
Fixpoint rstrip (s : string) : string :=
  match s with
  | EmptyString => EmptyString
  | String c s' =>
      match rstrip s' with
      | EmptyString => if is_space c then EmptyString else String c EmptyString
      | r => String c r
      end
  end.

(** [str.strip()]. *)
Definition strip (s : string) : string := rstrip (lstrip s).

Fixpoint prefix (p s : string) : bool :=
  match p, s with
  | EmptyString, _ => true
  | String a p', String b s' => if Ascii.eqb a b then prefix p' s' else false
  | String _ _, EmptyString => false
  end.

(** [sub in s]. *)
Fixpoint contains (sub s : string) : bool :=
  prefix sub s ||
  match s with
  | EmptyString => false
  | String _ s' => contains sub s'
  end.

(** [s.split(sep)] for a one-character separator; the pieces are returned
    in order, and there is always at least one. *)
Fixpoint split (sep : ascii) (s : string) : list string :=
  match s with
  | EmptyString => [EmptyString]
  | String c s' =>
      if Ascii.eqb c sep then EmptyString :: split sep s'
      else match split sep s' with
           | [] => [String c EmptyString]
           | piece :: rest => String c piece :: rest
           end
  end.

(** *** Floats *)

(** [int(x)] for a float: truncation toward zero; [ValueError] on NaN and
    [OverflowError] on an infinity. *)
Definition int_of_float (x : float) : result Z :=
  match Prim2SF x with
  | S754_nan => Raise ValueError
  | S754_infinity _ => Raise OverflowError
  | S754_zero _ => Ok 0
  | S754_finite s m e =>
      let mag := if 0 <=? e then Z.shiftl (Z.pos m) e
                 else Z.shiftr (Z.pos m) (- e) in
      Ok (if s then - mag else mag)
  end.

(** The float nearest to an integer (ties to even), as the implicit
    conversion of an [int] operand in mixed arithmetic; [OverflowError] when
    the integer is too large for a float. *)
Definition float_of_int (n : Z) : result float :=
  match binary_normalize prec emax n 0 false with
  | S754_infinity _ => Raise OverflowError
  | sf => Ok (SF2Prim sf)
  end.

(** [x >= 0] for a float [x]. *)
Definition ge0 (x : float) : bool := PrimFloat.leb 0%float x.

(** [a / b] on floats. *)
Definition truediv (a b : float) : result float :=
  if PrimFloat.eqb b 0%float then Raise ZeroDivisionError
  else Ok (PrimFloat.div a b).

(** *** Values decoded by [json.loads] *)

#[warnings="-register-all"]
Inductive json : Type :=
  | JNull
  | JBool (b : bool)
  | JInt (n : Z)
  | JFloat (f : float)
  | JStr (s : string)
  | JList (l : list json)
  | JDict (m : gmap string json).

(** Truth value of an object, as tested by [if v:] and [not v]. *)
Definition truthy (v : json) : bool :=
  match v with
  | JNull => false
  | JBool b => b
  | JInt n => negb (n =? 0)
  | JFloat f => negb (PrimFloat.eqb f 0%float)
  | JStr s => negb (String.eqb s "")
  | JList l => match l with [] => false | _ => true end
  | JDict m => match map_to_list m with [] => false | _ => true end
  end.

(** [d.get(key, default)]: only a [dict] has the attribute [get]. *)
Definition get (d : json) (key : string) (dflt : json) : result json :=
  match d with
  | JDict m => Ok (default dflt (m !! key))
  | _ => Raise AttributeError
  end.

(** *** More of [str], and [try] with several [except] clauses *)

(** [sep.join(parts)]. *)
Fixpoint str_join (sep : string) (parts : list string) : string :=
  match parts with
  | [] => ""
  | p :: rest =>
      match rest with
      | [] => p
      | _ :: _ => p +:+ sep +:+ str_join sep rest
      end
  end.

(** [s.split()] without a separator: the maximal runs of characters that
    are not white space, in order. *)
Fixpoint split_whitespace (s : string) : list string :=
  match s with
  | EmptyString => []
  | String c s' =>
      if is_space c then split_whitespace s'
      else
        match s' with
        | EmptyString => [String c EmptyString]
        | String c' _ =>
            if is_space c' then String c EmptyString :: split_whitespace s'
            else match split_whitespace s' with
                 | word :: words => String c word :: words
                 | [] => [String c EmptyString]
                 end
        end
  end.

(** [s * n] for a one-character [s]. *)
Fixpoint str_repeat (c : ascii) (n : nat) : string :=
  match n with
  | O => EmptyString
  | S n' => String c (str_repeat c n')
  end.

(** [str(n)] for an [int]. *)
Definition str_of_int (n : Z) : string := pretty n.

(** [l[0]] on a list. *)
Definition list_item0 {A} (l : list A) : result A :=
  match l with
  | x :: _ => Ok x
  | [] => Raise IndexError
  end.

(** The [except] clauses of a [try], in order: the first clause whose class
    the exception belongs to handles it, and is given the exception
    ([except C as e]). *)
Fixpoint dispatch {S A} (e : exn) (clauses : list (exn_class * (exn → io S A)))
    : io S A :=
  match clauses with
  | [] => pure (Raise e)
  | (c, handler) :: clauses' =>
      if isinstance e c then handler e else dispatch e clauses'
  end.

Definition try_clauses {S A} (body : io S A)
    (clauses : list (exn_class * (exn → io S A))) : io S A := fun s =>
  match body s with
  | (Ok a, s') => (Ok a, s')
  | (Raise e, s') => dispatch e clauses s'
  end.

End Py.

(** ** The host: everything outside the repository

    The operating system, the external tools and the library functions whose
    code is not part of the sources are collected in one record, and every
    definition below takes it as a parameter. *)

Module Host.
Import Py.

(** The [CompletedProcess] of [subprocess.run(..., capture_output=True,
    text=True)]. *)
Record CompletedProcess : Type := {
  returncode : Z;
  stdout : string;
}.

Record Env : Type := {
  (** [os.name] *)
  os_name : string;
  (** [os.path.normpath] *)
  normpath : string → string;
  (** [subprocess.run(cmd, capture_output=True, text=True, timeout=t)] *)
  subprocess_run : list string → Z → result CompletedProcess;
  (** [json.loads]; [None] is [JSONDecodeError] *)
  json_loads : string → option json;
  (** [float(s)] for a [str]; [None] is [ValueError] *)
  float_of_str : string → option float;
  (** [str(v)] for a value that is not a [str] *)
  repr : json → string;
}.

Section Builtins.
Context (env : Env).

(** [str(v)]. *)
Definition str (v : json) : string :=
  match v with
  | JStr s => s
  | _ => repr env v
  end.

(** [float(s)] for a [str]. *)
Definition float_str (s : string) : result float :=
  match float_of_str env s with
  | Some f => Ok f
  | None => Raise ValueError
  end.

(** [json.loads(s)]. *)
Definition loads (s : string) : result json :=
  match json_loads env s with
  | Some v => Ok v
  | None => Raise JSONDecodeError
  end.

End Builtins.

End Host.

(** ** [colorspace.py] *)

Module Colorspace.
Import Py Host.

Module ColorPrimaries.
Inductive t : Type := BT709 | BT2020 | DISPLAY_P3 | UNKNOWN.
#[export] Instance eq_dec : EqDecision t.
Proof. solve_decision. Defined.
Definition value (x : t) : string :=
  match x with
  | BT709 => "bt709"
  | BT2020 => "bt2020"
  | DISPLAY_P3 => "smpte432"
  | UNKNOWN => "unknown"
  end.
End ColorPrimaries.

Module TransferFunction.
Inductive t : Type := BT709 | SRGB | PQ | HLG | UNKNOWN.
#[export] Instance eq_dec : EqDecision t.
Proof. solve_decision. Defined.
Definition value (x : t) : string :=
  match x with
  | BT709 => "bt709"
  | SRGB => "iec61966-2-1"
  | PQ => "smpte2084"
  | HLG => "arib-std-b67"
  | UNKNOWN => "unknown"
  end.
End TransferFunction.

Module ColorMatrix.
Inductive t : Type := BT709 | BT2020_NCL | BT2020_CL | UNKNOWN.
#[export] Instance eq_dec : EqDecision t.
Proof. solve_decision. Defined.
Definition value (x : t) : string :=
  match x with
  | BT709 => "bt709"
  | BT2020_NCL => "bt2020nc"
  | BT2020_CL => "bt2020c"
  | UNKNOWN => "unknown"
  end.
End ColorMatrix.
Export (hints) ColorPrimaries TransferFunction ColorMatrix.

Record VideoColorInfo : Type := {
  color_primaries : ColorPrimaries.t;
  transfer_function : TransferFunction.t;
  color_matrix : ColorMatrix.t;
  is_hdr : bool;
  max_luminance : option float;
}.

(** [x in xs] on a list of enum members. *)
Definition member {A} `{EqDecision A} (x : A) (xs : list A) : bool :=
  existsb (λ y, bool_decide (x = y)) xs.

Definition needs_conversion (self : VideoColorInfo) : bool :=
  if is_hdr self then true
  else if negb (member (color_primaries self)
                  [ColorPrimaries.BT709; ColorPrimaries.UNKNOWN]) then true
  else if negb (member (transfer_function self)
                  [TransferFunction.BT709; TransferFunction.SRGB;
                   TransferFunction.UNKNOWN]) then true
  else false.

Definition is_wide_gamut_sdr (self : VideoColorInfo) : bool :=
  member (color_primaries self)
    [ColorPrimaries.DISPLAY_P3; ColorPrimaries.BT2020]
  && negb (is_hdr self).

(** The module-level variables of [colorspace.py]: the cache of the zscale
    check. *)
Record Globals : Type := {
  _zscale_available : option bool;
}.

(** The state of a freshly imported module. *)
Definition initial_globals : Globals := {| _zscale_available := None |}.

(** [value.lower()]: only a [str] has the method. *)
Definition lower_method (value : json) : result string :=
  match value with
  | JStr s => Ok (lower s)
  | _ => Raise AttributeError
  end.

Definition _map_color_primaries (value : json) : result ColorPrimaries.t :=
  if negb (truthy value) then Ok ColorPrimaries.UNKNOWN
  else
    let mapping : gmap string ColorPrimaries.t :=
      {[ "bt709" := ColorPrimaries.BT709;
         "bt2020" := ColorPrimaries.BT2020;
         "smpte432" := ColorPrimaries.DISPLAY_P3 ]} in
    key ← lower_method value;
    Ok (default ColorPrimaries.UNKNOWN (mapping !! key)).

Definition _map_transfer_function (value : json) : result TransferFunction.t :=
  if negb (truthy value) then Ok TransferFunction.UNKNOWN
  else
    let mapping : gmap string TransferFunction.t :=
      {[ "bt709" := TransferFunction.BT709;
         "iec61966-2-1" := TransferFunction.SRGB;
         "smpte2084" := TransferFunction.PQ;
         "arib-std-b67" := TransferFunction.HLG ]} in
    key ← lower_method value;
    Ok (default TransferFunction.UNKNOWN (mapping !! key)).

Definition _map_color_matrix (value : json) : result ColorMatrix.t :=
  if negb (truthy value) then Ok ColorMatrix.UNKNOWN
  else
    let mapping : gmap string ColorMatrix.t :=
      {[ "bt709" := ColorMatrix.BT709;
         "bt2020nc" := ColorMatrix.BT2020_NCL;
         "bt2020c" := ColorMatrix.BT2020_CL ]} in
    key ← lower_method value;
    Ok (default ColorMatrix.UNKNOWN (mapping !! key)).

Definition _default_color_info : VideoColorInfo :=
  {| color_primaries := ColorPrimaries.UNKNOWN;
     transfer_function := TransferFunction.UNKNOWN;
     color_matrix := ColorMatrix.UNKNOWN;
     is_hdr := false;
     max_luminance := None |}.

(** [for data in v]: the elements a [for] loop visits. A [str] yields its
    characters and a [dict] its keys; the other kinds are not iterable. *)
Definition iterate (v : json) : result (list json) :=
  match v with
  | JList l => Ok l
  | JStr s => Ok ((λ c, JStr (String c EmptyString)) <$> list_ascii_of_string s)
  | JDict m => Ok ((λ kv, JStr kv.1) <$> map_to_list m)
  | _ => Raise TypeError
  end.

(** [v[0]]. The keys of a decoded object are strings, so [0] is never one. *)
Definition item0 (v : json) : result json :=
  match v with
  | JList (x :: _) => Ok x
  | JList [] => Raise IndexError
  | JStr (String c _) => Ok (JStr (String c EmptyString))
  | JStr EmptyString => Raise IndexError
  | JDict _ => Raise KeyError
  | _ => Raise TypeError
  end.

(** [v == s] for a string literal [s]. *)
Definition eq_str (v : json) (s : string) : bool :=
  match v with
  | JStr s' => String.eqb s' s
  | _ => false
  end.

Section WithEnv.
Context (env : Env).

Definition check_zscale_available : result bool :=
  let ffmpeg_executable :=
    if String.eqb (os_name env) "nt" then "ffmpeg.exe" else "ffmpeg" in
  try_except
    (result ← subprocess_run env [ffmpeg_executable; "-filters"] 10;
     Ok (contains "zscale" (stdout result)))
    [CTimeoutExpired; CFileNotFoundError; COSError]
    (Ok false).

(** The cached check: it reads and writes the module-level variable. *)
Definition is_zscale_available : io Globals bool := fun g =>
  match _zscale_available g with
  | None =>
      match check_zscale_available with
      | Ok b => (Ok b, {| _zscale_available := Some b |})
      | Raise e => (Raise e, g)
      end
  | Some b => (Ok b, g)
  end.

(** One turn of the loop over [side_data_list] in [_parse_color_info];
    [max_luminance] is the local variable the loop assigns. *)
Definition side_data_step (max_luminance : option float) (data : json)
    : result (option float) :=
  ty ← get data "side_data_type" JNull;
  if eq_str ty "Mastering display metadata" then
    max_lum_str ← get data "max_luminance" (JStr "");
    if contains "/" (str env max_lum_str) then
      try_except
        (match split "/" (str env max_lum_str) with
         | [num; denom] =>
             n ← float_str env num;
             d ← float_str env denom;
             q ← truediv n d;
             Ok (Some q)
         | _ => Raise ValueError
         end)
        [CValueError; CZeroDivisionError]
        (Ok max_luminance)
    else Ok max_luminance
  else Ok max_luminance.

Fixpoint side_data_loop (max_luminance : option float) (items : list json)
    : result (option float) :=
  match items with
  | [] => Ok max_luminance
  | data :: rest =>
      m ← side_data_step max_luminance data;
      side_data_loop m rest
  end.

Definition _parse_color_info (stream : json) : result VideoColorInfo :=
  color_primaries_str ← get stream "color_primaries" (JStr "unknown");
  transfer_str ← get stream "color_transfer" (JStr "unknown");
  color_matrix_str ← get stream "color_space" (JStr "unknown");
  primaries ← _map_color_primaries color_primaries_str;
  transfer ← _map_transfer_function transfer_str;
  matrix ← _map_color_matrix color_matrix_str;
  let is_hdr := member transfer [TransferFunction.PQ; TransferFunction.HLG] in
  side_data ← get stream "side_data_list" (JList []);
  items ← iterate side_data;
  max_luminance ← side_data_loop None items;
  Ok {| color_primaries := primaries;
        transfer_function := transfer;
        color_matrix := matrix;
        is_hdr := is_hdr;
        max_luminance := max_luminance |}.

(** The command line of [detect_color_space]. *)
Definition color_probe_cmd (video_path : string) : list string :=
  let ffprobe_executable :=
    if String.eqb (os_name env) "nt" then "ffprobe.exe" else "ffprobe" in
  [ffprobe_executable; "-v"; "quiet"; "-print_format"; "json";
   "-show_streams"; "-select_streams"; "v:0"; normpath env video_path].

Definition detect_color_space (video_path : string) : result VideoColorInfo :=
  let cmd := color_probe_cmd video_path in
  try_except
    (result ← subprocess_run env cmd 30;
     if negb (returncode result =? 0) then Ok _default_color_info
     else
       data ← loads env (stdout result);
       streams ← get data "streams" (JList []);
       if negb (truthy streams) then Ok _default_color_info
       else
         stream ← item0 streams;
         _parse_color_info stream)
    [CTimeoutExpired; CFileNotFoundError; CJSONDecodeError; COSError]
    (Ok _default_color_info).

(** The ways the probe of [detect_color_space] fails: a non-zero exit
    status, an output without video streams, a timeout, a missing
    executable, an output that is not JSON. *)
Inductive probe_failure (video_path : string) : Prop :=
  | nonzero_exit r :
      subprocess_run env (color_probe_cmd video_path) 30 = Ok r →
      returncode r ≠ 0 →
      probe_failure video_path
  | no_video_streams r m :
      subprocess_run env (color_probe_cmd video_path) 30 = Ok r →
      returncode r = 0 →
      json_loads env (stdout r) = Some (JDict m) →
      m !! "streams" = None ∨ m !! "streams" = Some (JList []) →
      probe_failure video_path
  | timeout :
      subprocess_run env (color_probe_cmd video_path) 30 = Raise TimeoutExpired →
      probe_failure video_path
  | missing_executable :
      subprocess_run env (color_probe_cmd video_path) 30
        = Raise FileNotFoundError →
      probe_failure video_path
  | unparseable_json r :
      subprocess_run env (color_probe_cmd video_path) 30 = Ok r →
      returncode r = 0 →
      json_loads env (stdout r) = None →
      probe_failure video_path.

Definition _build_hdr_to_sdr_filter (color_info : VideoColorInfo)
    : io Globals string :=
  available ← is_zscale_available;
  let filter_chain :=
    if available : bool then
      "zscale=t=linear:npl=100," +:+
      "format=gbrpf32le," +:+
      "zscale=p=bt709," +:+
      "tonemap=hable:desat=0," +:+
      "zscale=t=bt709:m=bt709:r=tv," +:+
      "format=yuv420p"
    else "colorspace=all=bt709:fast=0" in
  mret filter_chain.

Definition _build_wide_gamut_to_srgb_filter (color_info : VideoColorInfo)
    : string :=
  let input_primaries :=
    if bool_decide (color_primaries color_info = ColorPrimaries.DISPLAY_P3)
    then "smpte432"
    else if bool_decide (color_primaries color_info = ColorPrimaries.BT2020)
    then "bt2020"
    else "bt709" in
  "colorspace=all=bt709:iall=" +:+ input_primaries +:+ ":fast=0".

Definition build_colorspace_filter (color_info : VideoColorInfo)
    : io Globals (option string) :=
  if negb (needs_conversion color_info) then mret None
  else if is_hdr color_info then
    f ← _build_hdr_to_sdr_filter color_info;
    mret (Some f)
  else if is_wide_gamut_sdr color_info then
    mret (Some (_build_wide_gamut_to_srgb_filter color_info))
  else mret None.

End WithEnv.

(** The two filter chains of [_build_hdr_to_sdr_filter]: the tone-mapping
    pipeline when zscale is available, the plain conversion otherwise. *)
Definition hdr_filter_chain (zscale_available : bool) : string :=
  if zscale_available then
    "zscale=t=linear:npl=100," +:+
    "format=gbrpf32le," +:+
    "zscale=p=bt709," +:+
    "tonemap=hable:desat=0," +:+
    "zscale=t=bt709:m=bt709:r=tv," +:+
    "format=yuv420p"
  else "colorspace=all=bt709:fast=0".

(** Filter construction with the result of the capability probe passed in,
    as the design notes describe it: no module-level state is read. *)
Definition colorspace_filter_given (zscale_available : bool)
    (color_info : VideoColorInfo) : option string :=
  if negb (needs_conversion color_info) then None
  else if is_hdr color_info then Some (hdr_filter_chain zscale_available)
  else if is_wide_gamut_sdr color_info then
    Some (_build_wide_gamut_to_srgb_filter color_info)
  else None.

(** The shape of a stream record as [ffprobe] prints it: an object whose
    colour fields, when present, are strings, and whose [side_data_list],
    when present, is a list of objects. *)
Definition text_or_absent (m : gmap string json) (key : string) : Prop :=
  m !! key = None ∨ ∃ s, m !! key = Some (JStr s).

Definition is_dict (v : json) : Prop := ∃ m, v = JDict m.

Definition stream_record (v : json) : Prop :=
  ∃ m, v = JDict m ∧
       text_or_absent m "color_primaries" ∧
       text_or_absent m "color_transfer" ∧
       text_or_absent m "color_space" ∧
       (m !! "side_data_list" = None ∨
        ∃ l, m !! "side_data_list" = Some (JList l) ∧ Forall is_dict l).

(** The flag [is_hdr] agrees with the transfer function, as it does in every
    record [_parse_color_info] builds. *)
Definition hdr_consistent (color_info : VideoColorInfo) : Prop :=
  is_hdr color_info
  = member (transfer_function color_info)
      [TransferFunction.PQ; TransferFunction.HLG].

Definition get_color_info_description (color_info : VideoColorInfo) : string :=
  let parts : list string := [] in
  let parts :=
    if is_hdr color_info then
      if bool_decide (transfer_function color_info = TransferFunction.PQ)
      then (parts ++ ["HDR10/Dolby Vision (PQ)"])%list
      else if bool_decide (transfer_function color_info = TransferFunction.HLG)
      then (parts ++ ["HLG HDR"])%list
      else (parts ++ ["HDR"])%list
    else (parts ++ ["SDR"])%list in
  let parts :=
    if bool_decide (color_primaries color_info = ColorPrimaries.DISPLAY_P3)
    then (parts ++ ["Display P3"])%list
    else if bool_decide (color_primaries color_info = ColorPrimaries.BT2020)
    then (parts ++ ["BT.2020"])%list
    else if bool_decide (color_primaries color_info = ColorPrimaries.BT709)
    then (parts ++ ["BT.709"])%list
    else parts in
  match parts with
  | _ :: _ => str_join " / " parts
  | [] => "Unknown"
  end.

(** One entry of [side_data_list] from which [_parse_color_info] takes the
    peak luminance [q]: mastering display metadata whose [max_luminance]
    reads [num/denom], with a denominator that is not zero. *)
Definition mastering_luminance (env : Env) (data : json) (q : float) : Prop :=
  ∃ m num denom n d,
    data = JDict m ∧
    m !! "side_data_type" = Some (JStr "Mastering display metadata") ∧
    split "/" (str env (default (JStr "") (m !! "max_luminance")))
      = [num; denom] ∧
    float_of_str env num = Some n ∧
    float_of_str env denom = Some d ∧
    PrimFloat.eqb d 0%float = false ∧
    q = PrimFloat.div n d.

(** The colour tag [key] of a stream is absent, or is a text whose
    lower-case form is none of [names]. *)
Definition unrecognised (m : gmap string json) (key : string)
    (names : list string) : Prop :=
  m !! key = None ∨ ∃ s, m !! key = Some (JStr s) ∧ lower s ∉ names.

End Colorspace.

(** ** Regular expressions, as [re.match] runs them

    A backtracking matcher: repetitions and options are greedy, and the
    first complete match wins. [run r s caps k] matches [r] at the start
    of [s] and hands the rest of the input to the continuation [k]. *)

Module Re.

Inductive regex : Type :=
  | Class (p : ascii → bool)
  | Cat (r1 r2 : regex)
  | Plus (r : regex)
  | Star (r : regex)
  | Opt (r : regex)
  | Group (n : nat) (r : regex)
  | Eos.

(** The text of the groups that took part in the match. *)
Abbreviation captures := (gmap nat string).

Abbreviation cont := (string → captures → option captures).

(** What was consumed between the input [s] and its suffix [rest]. *)
Definition consumed (s rest : string) : string :=
  String.substring 0 (String.length s - String.length rest) s.

(** Greedy iteration of [step]: one more round first, then the continuation.
    A round that consumes nothing ends the iteration. *)
Fixpoint star (step : string → captures → cont → option captures)
    (fuel : nat) (s : string) (caps : captures) (k : cont) : option captures :=
  match fuel with
  | O => k s caps
  | S fuel' =>
      match step s caps (λ s' caps',
              if (String.length s' <? String.length s)%nat
              then star step fuel' s' caps' k else None) with
      | Some c => Some c
      | None => k s caps
      end
  end.

Fixpoint run (r : regex) (s : string) (caps : captures) (k : cont)
    {struct r} : option captures :=
  match r with
  | Class p =>
      match s with
      | String c s' => if p c then k s' caps else None
      | EmptyString => None
      end
  | Cat r1 r2 => run r1 s caps (λ s' caps', run r2 s' caps' k)
  | Plus r1 =>
      run r1 s caps (λ s' caps', star (run r1) (String.length s') s' caps' k)
  | Star r1 => star (run r1) (String.length s) s caps k
  | Opt r1 =>
      match run r1 s caps k with
      | Some c => Some c
      | None => k s caps
      end
  | Group n r1 =>
      run r1 s caps (λ s' caps', k s' (<[n := consumed s s']> caps'))
  | Eos =>
      (* [$]: the end of the string, or just before a final newline *)
      if String.eqb s "" || String.eqb s (String "010" "") then k s caps
      else None
  end.

(** The texts a pattern stands for, stated without the matcher:
    [matches r t rest] says that [r] can consume [t] when [rest] follows
    ([rest] matters to [$] only). *)
Inductive matches : regex → string → string → Prop :=
  | matches_class p c rest :
      p c = true → matches (Class p) (String c "") rest
  | matches_cat r1 r2 t1 t2 rest :
      matches r1 t1 (t2 +:+ rest) → matches r2 t2 rest →
      matches (Cat r1 r2) (t1 +:+ t2) rest
  | matches_plus_last r t rest :
      matches r t rest → matches (Plus r) t rest
  | matches_plus_more r t1 t2 rest :
      matches r t1 (t2 +:+ rest) → matches (Plus r) t2 rest →
      matches (Plus r) (t1 +:+ t2) rest
  | matches_star_done r rest : matches (Star r) "" rest
  | matches_star_more r t1 t2 rest :
      matches r t1 (t2 +:+ rest) → matches (Star r) t2 rest →
      matches (Star r) (t1 +:+ t2) rest
  | matches_opt_none r rest : matches (Opt r) "" rest
  | matches_opt_some r t rest : matches r t rest → matches (Opt r) t rest
  | matches_group n r t rest : matches r t rest → matches (Group n r) t rest
  | matches_eos rest :
      rest = "" ∨ rest = String "010" "" → matches Eos "" rest.

(** Whatever the matcher accepts is a text of the pattern, followed by an
    input on which the continuation succeeds. *)
Definition sound (r : regex) : Prop :=
  ∀ s caps k c,
    run r s caps k = Some c →
    ∃ t rest caps', s = t +:+ rest ∧ matches r t rest ∧ k rest caps' = Some c.

(** [re.match(r, s)]: anchored at the start. *)
Definition re_match (r : regex) (s : string) : option captures :=
  run r s ∅ (λ _ caps, Some caps).

End Re.

(** ** [gps_extractor.py] *)

Module GpsExtractor.
Import Py Host Re.

Record GPSData : Type := {
  latitude : float;
  longitude : float;
  altitude : float;
  accuracy : option float;
}.

Definition is_sign (c : ascii) : bool := Ascii.eqb c "+" || Ascii.eqb c "-".

Definition sign : regex := Class is_sign.
Definition digit : regex := Class is_digit.
Definition dot : regex := Class (λ c, Ascii.eqb c ".").
Definition slash : regex := Class (λ c, Ascii.eqb c "/").

(** The pattern [^(C)(C)(A)?/?$], where [C] stands for [[+-]\d+\.\d+] and
    [A] for [[+-]\d+\.?\d*]. *)
Definition pattern : regex :=
  Cat (Group 1 (Cat sign (Cat (Plus digit) (Cat dot (Plus digit)))))
 (Cat (Group 2 (Cat sign (Cat (Plus digit) (Cat dot (Plus digit)))))
 (Cat (Opt (Group 3 (Cat sign (Cat (Plus digit) (Cat (Opt dot) (Star digit))))))
 (Cat (Opt slash)
      Eos))).

(** The texts the pattern is made of, described directly. *)
Fixpoint all_digits (s : string) : bool :=
  match s with
  | EmptyString => true
  | String c s' => is_digit c && all_digits s'
  end.

(** A sign, digits, a point, digits: [[+-]\d+\.\d+]. *)
Definition coordinate (g : string) : Prop :=
  ∃ sg ip fp,
    g = String sg (ip +:+ String "." fp) ∧ is_sign sg = true ∧
    ip ≠ "" ∧ all_digits ip = true ∧ fp ≠ "" ∧ all_digits fp = true.

(** A sign, digits, and possibly a point and more digits: [[+-]\d+\.?\d*]. *)
Definition altitude_text (g : string) : Prop :=
  ∃ sg ip frac,
    g = String sg (ip +:+ frac) ∧ is_sign sg = true ∧
    ip ≠ "" ∧ all_digits ip = true ∧
    (frac = "" ∨ ∃ fp, frac = String "." fp ∧ all_digits fp = true).

(** What may follow the coordinates: nothing or the closing slash, and
    then the final newline that [$] lets through. *)
Definition ending (tail : string) : Prop :=
  tail = "" ∨ tail = "/" ∨
  tail = String "010" "" ∨ tail = String "/" (String "010" "").

(** The next character, if any, is not a digit. *)
Definition stops_digits (rest : string) : Prop :=
  match rest with
  | String c _ => is_digit c = false
  | EmptyString => True
  end.

(** The metadata tags [extract_gps_from_video] reads. *)
Definition location_key : string := "com.apple.quicktime.location.ISO6709".
Definition accuracy_key : string :=
  "com.apple.quicktime.location.accuracy.horizontal".

(** [v.strip()]: only a [str] has the method. *)
Definition strip_method (v : json) : result string :=
  match v with
  | JStr s => Ok (strip s)
  | _ => Raise AttributeError
  end.

(** [float(v)] for any decoded value. *)
Definition float_any (env : Env) (v : json) : result float :=
  match v with
  | JStr s => float_str env s
  | JInt n => float_of_int n
  | JFloat f => Ok f
  | JBool b => Ok (if b then 1%float else 0%float)
  | _ => Raise TypeError
  end.

(** [gps] with the accuracy the accuracy tag gave, if it gave one. *)
Definition with_accuracy (gps : GPSData) (a : option float) : GPSData :=
  match a with
  | Some f => {| latitude := latitude gps;
                 longitude := longitude gps;
                 altitude := altitude gps;
                 accuracy := Some f |}
  | None => gps
  end.

Section WithEnv.
Context (env : Env).

Definition parse_iso6709 (location_string : json) : result (option GPSData) :=
  if negb (truthy location_string) then Ok None
  else
    stripped ← strip_method location_string;
    match re_match pattern stripped with
    | None => Ok None
    | Some m =>
        try_except
          (latitude ← float_str env (default "" (m !! 1%nat));
           longitude ← float_str env (default "" (m !! 2%nat));
           altitude ←
             match m !! 3%nat with
             | Some g3 => if negb (String.eqb g3 "") then float_str env g3
                          else Ok 0%float
             | None => Ok 0%float
             end;
           Ok (Some {| latitude := latitude;
                       longitude := longitude;
                       altitude := altitude;
                       accuracy := None |}))
          [CValueError; CTypeError]
          (Ok None)
    end.

(** The command line of [extract_gps_from_video]. *)
Definition gps_probe_cmd (video_path : string) : list string :=
  let ffprobe_executable :=
    if String.eqb (os_name env) "nt" then "ffprobe.exe" else "ffprobe" in
  [ffprobe_executable; "-v"; "quiet"; "-print_format"; "json";
   "-show_format"; normpath env video_path].

Definition extract_gps_from_video (video_path : string)
    : result (option GPSData) :=
  let cmd := gps_probe_cmd video_path in
  try_except
    (result ← subprocess_run env cmd 30;
     if negb (returncode result =? 0) then Ok None
     else
       data ← loads env (stdout result);
       format ← get data "format" (JDict ∅);
       tags ← get format "tags" (JDict ∅);
       location_str ← get tags location_key JNull;
       if truthy location_str then
         gps ← parse_iso6709 location_str;
         match gps with
         | Some gps =>
             accuracy_str ← get tags accuracy_key JNull;
             if truthy accuracy_str then
               try_except
                 (a ← float_any env accuracy_str;
                  Ok (Some {| latitude := latitude gps;
                              longitude := longitude gps;
                              altitude := altitude gps;
                              accuracy := Some a |}))
                 [CValueError]
                 (Ok (Some gps))
             else Ok (Some gps)
         | None => Ok None
         end
       else Ok None)
    [CTimeoutExpired; CFileNotFoundError; CJSONDecodeError; COSError]
    (Ok None).

(** The probe of [extract_gps_from_video] fails: a non-zero exit status, a
    timeout, a missing executable or another operating-system error, an
    output that is not JSON. *)
Inductive gps_probe_failure (video_path : string) : Prop :=
  | gps_nonzero_exit r :
      subprocess_run env (gps_probe_cmd video_path) 30 = Ok r →
      returncode r ≠ 0 →
      gps_probe_failure video_path
  | gps_timeout :
      subprocess_run env (gps_probe_cmd video_path) 30 = Raise TimeoutExpired →
      gps_probe_failure video_path
  | gps_missing_executable :
      subprocess_run env (gps_probe_cmd video_path) 30
        = Raise FileNotFoundError →
      gps_probe_failure video_path
  | gps_os_error :
      subprocess_run env (gps_probe_cmd video_path) 30 = Raise OSError →
      gps_probe_failure video_path
  | gps_unparseable_json r :
      subprocess_run env (gps_probe_cmd video_path) 30 = Ok r →
      returncode r = 0 →
      json_loads env (stdout r) = None →
      gps_probe_failure video_path.

(** The probe succeeds and prints an object whose [format.tags] is the
    dictionary [tags]; a missing [format] or [tags] entry counts as an empty
    dictionary, as [get] has it. *)
Definition probe_tags (video_path : string) (tags : gmap string json) : Prop :=
  ∃ r d,
    subprocess_run env (gps_probe_cmd video_path) 30 = Ok r ∧
    returncode r = 0 ∧
    json_loads env (stdout r) = Some (JDict d) ∧
    get (default (JDict ∅) (d !! "format")) "tags" (JDict ∅) = Ok (JDict tags).

End WithEnv.

End GpsExtractor.

(** ** [exif_writer.py] *)

Module ExifWriter.
Import Py Host GpsExtractor.

(** The tag numbers [piexif.GPSIFD.*]. *)
Module GPSIFD.
Definition GPSLatitudeRef : Z := 1.
Definition GPSLatitude : Z := 2.
Definition GPSLongitudeRef : Z := 3.
Definition GPSLongitude : Z := 4.
Definition GPSAltitudeRef : Z := 5.
Definition GPSAltitude : Z := 6.
Definition GPSHPositioningError : Z := 31.
End GPSIFD.

(** A rational is a pair (numerator, denominator). *)
Abbreviation rational := (Z * Z)%type.

(** The values the code stores under a tag. *)
Inductive exif_value : Type :=
  | Bytes (b : string)
  | Int (n : Z)
  | Rational (r : rational)
  | Rational3 (dms : rational * rational * rational).

Abbreviation ifd := (gmap Z exif_value).

(** An entry of the dictionary [piexif.load] returns: an IFD under ["0th"],
    ["Exif"], ["GPS"], ["1st"], ..., and the thumbnail. *)
Inductive exif_entry : Type :=
  | Ifd (tags : ifd)
  | Thumbnail (data : option string).

Abbreviation exif_dict := (gmap string exif_entry).

(** The [piexif] library and the file system it works on. [FS] is the state
    of the files; [piexif.insert] rewrites a file. *)
Record Piexif : Type := {
  FS : Type;
  (** [os.path.exists] *)
  path_exists : string → FS → bool;
  (** [piexif.load(path)] *)
  piexif_load : string → FS → result exif_dict;
  (** [piexif.dump(exif_dict)] *)
  piexif_dump : exif_dict → result string;
  (** [piexif.insert(exif_bytes, path)] *)
  piexif_insert : string → string → io FS unit;
}.

Definition decimal_to_dms (decimal_degrees : float)
    : result (rational * rational * rational) :=
  let decimal_degrees := PrimFloat.abs decimal_degrees in
  degrees ← int_of_float decimal_degrees;
  degrees_f ← float_of_int degrees;
  let minutes_float := ((decimal_degrees - degrees_f) * 60)%float in
  minutes ← int_of_float minutes_float;
  minutes_f ← float_of_int minutes;
  let seconds := ((minutes_float - minutes_f) * 60)%float in
  seconds100 ← int_of_float (seconds * 100)%float;
  let seconds_rational := (seconds100, 100) in
  Ok ((degrees, 1), (minutes, 1), seconds_rational).

(** The part of [embed_gps_in_jpeg] that builds [gps_ifd] from [gps]. *)
Definition build_gps_ifd (gps : GPSData) : result ifd :=
  let gps_ifd : ifd := ∅ in
  let lat_ref := if ge0 (latitude gps) then "N" else "S" in
  let gps_ifd := <[GPSIFD.GPSLatitudeRef := Bytes lat_ref]> gps_ifd in
  lat ← decimal_to_dms (latitude gps);
  let gps_ifd := <[GPSIFD.GPSLatitude := Rational3 lat]> gps_ifd in
  let lon_ref := if ge0 (longitude gps) then "E" else "W" in
  let gps_ifd := <[GPSIFD.GPSLongitudeRef := Bytes lon_ref]> gps_ifd in
  lon ← decimal_to_dms (longitude gps);
  let gps_ifd := <[GPSIFD.GPSLongitude := Rational3 lon]> gps_ifd in
  let alt_ref := if ge0 (altitude gps) then 0 else 1 in
  let gps_ifd := <[GPSIFD.GPSAltitudeRef := Int alt_ref]> gps_ifd in
  alt100 ← int_of_float (PrimFloat.abs (altitude gps) * 100)%float;
  let alt_rational := (alt100, 100) in
  let gps_ifd := <[GPSIFD.GPSAltitude := Rational alt_rational]> gps_ifd in
  match accuracy gps with
  | Some acc =>
      acc100 ← int_of_float (acc * 100)%float;
      let accuracy_rational := (acc100, 100) in
      Ok (<[GPSIFD.GPSHPositioningError := Rational accuracy_rational]> gps_ifd)
  | None => Ok gps_ifd
  end.

(** The structure used when the file has no EXIF data. *)
Definition empty_exif : exif_dict :=
  {[ "0th" := Ifd ∅; "Exif" := Ifd ∅; "GPS" := Ifd ∅; "1st" := Ifd ∅;
     "thumbnail" := Thumbnail None ]}.

Section WithPiexif.
Context (px : Piexif).

(** The EXIF structure [embed_gps_in_jpeg] goes on with: what [piexif.load]
    returned, or the empty structure when it raised
    [InvalidImageDataError]. *)
Definition loaded (jpeg_path : string) (fs : FS px) (exif : exif_dict) : Prop :=
  piexif_load px jpeg_path fs = Ok exif ∨
  (piexif_load px jpeg_path fs = Raise InvalidImageDataError ∧
   exif = empty_exif).

Definition embed_gps_in_jpeg (jpeg_path : string) (gps : GPSData)
    : io (FS px) bool := fun fs =>
  if negb (path_exists px jpeg_path fs) then (Ok false, fs)
  else
    try_except_io
      (exif_dict ← pure (try_except (piexif_load px jpeg_path fs)
                           [CInvalidImageDataError] (Ok empty_exif));
       gps_ifd ← pure (build_gps_ifd gps);
       let exif_dict := <["GPS" := Ifd gps_ifd]> exif_dict in
       exif_bytes ← pure (piexif_dump px exif_dict);
       _ ← piexif_insert px exif_bytes jpeg_path;
       mret true)
      [CException]
      (mret false)
      fs.

End WithPiexif.

(** A property of the [piexif] library, whose code is not part of the
    sources: a file that [piexif.load] rejects with [InvalidImageDataError]
    (it holds no image data [piexif] knows) is rejected by [piexif.insert]
    as well, whatever is to be inserted. Both functions begin by looking at
    the signature of the file. *)
Definition insert_rejects_invalid_image (px : Piexif) : Prop :=
  ∀ path fs exif_bytes,
    piexif_load px path fs = Raise InvalidImageDataError →
    ∃ e fs', piexif_insert px exif_bytes path fs = (Raise e, fs').

End ExifWriter.

(** ** [check_libzimg.py]

    The diagnostic script. What it prints is the state: the list of the
    texts given to [print], one entry per call, oldest first. Writing to the
    standard output is taken to succeed. *)

Module CheckLibzimg.
Import Py Host.

(** What the script reads besides [Host.Env]. *)
Record Console : Type := {
  (** [sys.platform] *)
  sys_platform : string;
  (** the [stderr] attribute of the process that [subprocess.run] returned
      for this command and timeout *)
  captured_stderr : list string → Z → string;
  (** [str(e)] for an exception [e] *)
  str_exn : exn → string;
}.

Abbreviation printed := (list string).

Definition print (text : string) : io printed unit :=
  fun out => (Ok (), (out ++ [text])%list).

(** A line feed, [\n]. *)
Definition nl : string := String "010" EmptyString.

Definition yes_no (b : bool) : string := if b then "YES" else "NO".

(** [any(x in l.lower() for x in keywords)]. *)
Definition mentions_any (keywords : list string) (l : string) : bool :=
  existsb (λ x, contains x (lower l)) keywords.

Section WithHost.
Context (env : Env) (con : Console).

Definition ffmpeg_executable : string :=
  if String.eqb (os_name env) "nt" then "ffmpeg.exe" else "ffmpeg".

(** The first [try] of [check_ffmpeg_zscale]: [Some b] when it executed
    [return b], [None] when control goes on after it. *)
Definition check_version : io printed (option bool) :=
  try_clauses
    (result ← pure (subprocess_run env [ffmpeg_executable; "-version"] 10);
     if returncode result =? 0 then
       version_line ← pure (list_item0 (split "010" (stdout result)));
       _ ← print ("FFmpeg found: " +:+ version_line);
       mret None
     else
       _ ← print ("ERROR: FFmpeg returned error code " +:+
                  str_of_int (returncode result));
       _ ← print (captured_stderr con [ffmpeg_executable; "-version"] 10);
       mret (Some false))
    [(CFileNotFoundError, λ _,
        _ ← print ("ERROR: " +:+ ffmpeg_executable +:+ " not found in PATH");
        _ ← print (nl +:+ "To fix this on Windows:");
        _ ← print "  1. Download FFmpeg from https://www.gyan.dev/ffmpeg/builds/";
        _ ← print "     (Choose 'ffmpeg-release-full' for libzimg support)";
        _ ← print "  2. Extract and add the bin folder to your PATH";
        mret (Some false));
     (CException, λ e,
        _ ← print ("ERROR: " +:+ str_exn con e);
        mret (Some false))].

(** The second [try] of [check_ffmpeg_zscale]; every path through it
    returns. *)
Definition check_filters : io printed bool :=
  try_clauses
    (result ← pure (subprocess_run env [ffmpeg_executable; "-filters"] 10);
     let has_zscale := contains "zscale" (stdout result) in
     let has_tonemap := contains "tonemap" (stdout result) in
     let has_colorspace := contains "colorspace" (stdout result) in
     _ ← print (nl +:+ "HDR/Color Processing Filters:");
     _ ← print ("  zscale (libzimg):  " +:+ yes_no has_zscale);
     _ ← print ("  tonemap:           " +:+ yes_no has_tonemap);
     _ ← print ("  colorspace:        " +:+ yes_no has_colorspace);
     _ ← print (str_repeat "-" 50);
     if has_zscale then
       _ ← print (nl +:+ "[OK] libzimg IS available!");
       _ ← print "     HDR to SDR tone mapping will use high-quality zscale pipeline.";
       mret true
     else
       _ ← print (nl +:+ "[WARNING] libzimg is NOT available!");
       _ ← print "          HDR to SDR conversion will use fallback (may clip highlights).";
       _ ← print (nl +:+ "To get libzimg support on Windows:");
       _ ← print "  1. Download FFmpeg 'full' build from https://www.gyan.dev/ffmpeg/builds/";
       _ ← print "     The 'full' builds include libzimg";
       _ ← print "  2. Or use: winget install Gyan.FFmpeg.Full";
       _ ← print "  3. Or use: choco install ffmpeg-full";
       mret false)
    [(CException, λ e,
        _ ← print ("ERROR checking filters: " +:+ str_exn con e);
        mret false)].

Definition check_ffmpeg_zscale : io printed bool :=
  _ ← print ("Platform: " +:+ sys_platform con +:+
             " (os.name: " +:+ os_name env +:+ ")");
  _ ← print ("Looking for: " +:+ ffmpeg_executable);
  _ ← print (str_repeat "-" 50);
  returned ← check_version;
  match returned with
  | Some b => mret b
  | None =>
      _ ← print (str_repeat "-" 50);
      check_filters
  end.

(** [for opt in opts: print(f"    {opt}")]. *)
Fixpoint print_options (opts : list string) : io printed unit :=
  match opts with
  | [] => mret ()
  | opt :: opts' =>
      _ ← print ("    " +:+ opt);
      print_options opts'
  end.

Definition check_build_configuration : io printed unit :=
  try_clauses
    (result ← pure (subprocess_run env [ffmpeg_executable; "-buildconf"] 10);
     let has_zimg := contains "--enable-libzimg" (stdout result) in
     _ ← print (nl +:+ "Build Configuration:");
     _ ← print ("  --enable-libzimg:  " +:+ yes_no has_zimg);
     if negb has_zimg && contains "--enable-" (stdout result) then
       let lines := split_whitespace (stdout result) in
       let relevant :=
         List.filter (mentions_any ["color"; "scale"; "zimg"; "hdr"]) lines in
       match relevant with
       | _ :: _ =>
           _ ← print (nl +:+ "  Relevant build options found:");
           print_options (take 10 relevant)
       | [] => mret ()
       end
     else mret ())
    [(CException, λ e,
        print ("Could not check build config: " +:+ str_exn con e))].

(** The script run as a program; the value is the exit status given to
    [sys.exit]. *)
Definition main : io printed Z :=
  _ ← print (str_repeat "=" 50);
  _ ← print "Sharp Frames - libzimg/zscale Support Check";
  _ ← print (str_repeat "=" 50);
  _ ← print "";
  result ← check_ffmpeg_zscale;
  _ ← check_build_configuration;
  _ ← print "";
  _ ← print (str_repeat "=" 50);
  mret (if result : bool then 0 else 1).

(** [ffmpeg -version] ran and exited with status 0. *)
Definition version_ok : Prop :=
  ∃ r, subprocess_run env [ffmpeg_executable; "-version"] 10 = Ok r ∧
       returncode r = 0.

(** [ffmpeg -filters] ran and its output names the zscale filter. *)
Definition filters_name_zscale : Prop :=
  ∃ r, subprocess_run env [ffmpeg_executable; "-filters"] 10 = Ok r ∧
       contains "zscale" (stdout r) = true.

End WithHost.

End CheckLibzimg.

(** ** The frame selector

    The selector's module ([frame_selector], imported by the package's
    [__init__]) is not among the sources; it is modelled from section 4.3 of
    the design document. *)

Module FrameSelector.

Inductive Status : Type := Pending | Scored | Unusable.

(** Modelled from the spec: the candidate frame of the data model (the
    selector's input records; their module is not among the sources). *)
Record Candidate : Type := {
  sequence_index : nat;
  source_timestamp : float;
  file_path : string;
  sharpness_score : option float;
  status : Status;
}.

(** Modelled from the spec: a candidate is Usable when it was scored, that
    is, when it is neither [Pending] nor [Unusable]. *)
Definition usable (c : Candidate) : bool :=
  match status c with
  | Scored => true
  | _ => false
  end.

Definition usable_count (cands : list Candidate) : nat :=
  length (filter (λ c, usable c = true) cands).

(** Modelled from the spec: the reason codes of [reason_discarded]. The
    design document names the mapping and not its codes; one code per way
    of not being selected (steps 2 to 4 of the algorithm). *)
Inductive DiscardReason : Type :=
  | CandidateUnusable
  | NotWindowMaximum
  | NearDuplicate.

(** Modelled from the spec: the Selection Result of the data model. *)
Record SelectionResult : Type := {
  selected_indices : gset nat;
  reason_discarded : gmap nat DiscardReason;
}.

Inductive outcome : Type :=
  | Selected (r : SelectionResult)
  | InvalidTargetCount.

(** Modelled from the spec (step 1): the sizes of [k] windows over [n]
    candidates, as equal as possible: the first [n mod k] windows hold one
    element more than the others. *)
Definition window_sizes (n k : nat) : list nat :=
  (λ i, (n / k + (if (i <? n mod k)%nat then 1 else 0))%nat) <$> seq 0 k.

(** Cuts a sequence into contiguous pieces of the given sizes. *)
Fixpoint chunks {A} (sizes : list nat) (l : list A) : list (list A) :=
  match sizes with
  | [] => []
  | n :: sizes' => take n l :: chunks sizes' (drop n l)
  end.

(** Modelled from the spec (step 1): the [k] contiguous windows of the
    full candidate sequence, Unusable entries included. *)
Definition windows (cands : list Candidate) (k : nat) : list (list Candidate) :=
  chunks (window_sizes (length cands) k) cands.

(** [a] scores strictly lower than [b]; a missing score is lowest. *)
Definition score_lt (a b : Candidate) : bool :=
  match sharpness_score a, sharpness_score b with
  | Some x, Some y => PrimFloat.ltb x y
  | None, Some _ => true
  | _, _ => false
  end.

(** Modelled from the spec (step 2): [c] replaces the best candidate [b]
    seen so far when it scores higher, or scores the same and has the lower
    sequence index. *)
Definition better (c b : Candidate) : bool :=
  score_lt b c
  || (negb (score_lt c b) && (sequence_index c <? sequence_index b)%nat).

(** Modelled from the spec (steps 2 and 3): the Usable candidate of maximum
    score in a window, none when the window has no Usable candidate. *)
Fixpoint best_from (acc : option Candidate) (w : list Candidate)
    : option Candidate :=
  match w with
  | [] => acc
  | c :: w' =>
      best_from
        (if usable c then
           match acc with
           | Some b => if better c b then Some c else Some b
           | None => Some c
           end
         else acc)
        w'
  end.

Definition best_in_window (w : list Candidate) : option Candidate :=
  best_from None w.

Definition within_gap (min_gap : float) (a b : Candidate) : bool :=
  PrimFloat.ltb
    (PrimFloat.abs (source_timestamp a - source_timestamp b)%float) min_gap.

(** Modelled from the spec (step 4): one pass over the windows' selections
    in order. [prev] is the selection kept for the window just before, [kept]
    the earlier selections (latest first), [dropped] what the pass removed.
    When the selections of two adjacent windows are closer than [min_gap],
    the lower-scoring one goes. *)
Fixpoint avoid_duplicates (min_gap : float) (prev : option Candidate)
    (kept dropped : list Candidate) (picks : list (option Candidate))
    : list Candidate * list Candidate :=
  let flush := match prev with Some b => b :: kept | None => kept end in
  match picks with
  | [] => (rev flush, dropped)
  | None :: picks' => avoid_duplicates min_gap None flush dropped picks'
  | Some c :: picks' =>
      match prev with
      | Some b =>
          if within_gap min_gap b c then
            if score_lt c b then
              avoid_duplicates min_gap None (b :: kept) (c :: dropped) picks'
            else if score_lt b c then
              avoid_duplicates min_gap (Some c) kept (b :: dropped) picks'
            else avoid_duplicates min_gap (Some c) (b :: kept) dropped picks'
          else avoid_duplicates min_gap (Some c) (b :: kept) dropped picks'
      | None => avoid_duplicates min_gap (Some c) kept dropped picks'
      end
  end.

(** The selections that remain after the optional pass, and those it
    dropped. Without a minimum gap the pass does not run. *)
Definition final_picks (min_gap : option float)
    (picks : list (option Candidate)) : list Candidate * list Candidate :=
  match min_gap with
  | Some g => avoid_duplicates g None [] [] picks
  | None => (omap id picks, [])
  end.

(** The audit trail: why each candidate that was not selected was left out. *)
Definition reasons (cands selected dropped : list Candidate)
    : gmap nat DiscardReason :=
  let sel : gset nat := list_to_set (sequence_index <$> selected) in
  let dup : gset nat := list_to_set (sequence_index <$> dropped) in
  list_to_map
    (omap (λ c,
       let i := sequence_index c in
       if bool_decide (i ∈ sel) then None
       else if negb (usable c) then Some (i, CandidateUnusable)
       else if bool_decide (i ∈ dup) then Some (i, NearDuplicate)
       else Some (i, NotWindowMaximum))
     cands).

(** Modelled from the spec (step 3): the number of windows that contribute
    a selection, those that hold at least one Usable candidate. *)
Definition contributing_windows (cands : list Candidate) (k : nat) : nat :=
  length (filter (λ w, (0 < usable_count w)%nat) (windows cands k)).

(** Modelled from the spec: the Frame Selector (section 4.3). [K] is the
    target count and [min_gap] the optional minimum temporal separation. *)
Definition select (cands : list Candidate) (K : Z) (min_gap : option float)
    : outcome :=
  if K <=? 0 then InvalidTargetCount
  else
    let picks := best_in_window <$> windows cands (Z.to_nat K) in
    let '(selected, dropped) := final_picks min_gap picks in
    Selected
      {| selected_indices := list_to_set (sequence_index <$> selected);
         reason_discarded := reasons cands selected dropped |}.

End FrameSelector.

(** ** Concrete hosts for the examples *)

Module Fixtures.
Import Py Host Colorspace GpsExtractor ExifWriter FrameSelector.

(** Reads a run of decimal digits: its value (after the digits already read,
    [acc]), how many there were, and the rest of the input. *)
Fixpoint read_digits (acc : Z) (n : nat) (s : string) : Z * nat * string :=
  match s with
  | String c s' =>
      if is_digit c
      then read_digits (10 * acc + (Z.of_N (Ascii.N_of_ascii c) - 48)) (S n) s'
      else (acc, n, s)
  | EmptyString => (acc, n, s)
  end.

(** The float nearest to [num / den] (ties to even), for [0 < num] and
    [0 < den]: the quotient is computed with more than 60 significant bits
    and a sticky bit for the remainder, and rounded once. *)
Definition round_ratio (negative : bool) (num den : Z) : float :=
  let s := Z.max 0 (64 + Z.log2 den - Z.log2 num) in
  let q := (num * 2 ^ s) / den in
  let sticky := if (num * 2 ^ s) mod den =? 0 then 0 else 1 in
  let m := 2 * q + sticky in
  SF2Prim (binary_normalize prec emax (if negative then - m else m)
             (- (s + 1)) false).

(** [float(s)] on plain decimal literals: an optional sign, digits, and an
    optional point followed by digits, with a digit somewhere. Exponents,
    [inf], [nan], underscores and surrounding blanks are left out. *)
Definition decimal_float (s : string) : option float :=
  let '(negative, body) :=
    match s with
    | String "-" s' => (true, s')
    | String "+" s' => (false, s')
    | _ => (false, s)
    end in
  let '(int_part, n_int, rest) := read_digits 0 0 body in
  let '(num, n_frac, rest') :=
    match rest with
    | String "." rest1 => read_digits int_part 0 rest1
    | _ => (int_part, 0%nat, rest)
    end in
  if negb (String.eqb rest' "") || ((n_int + n_frac =? 0)%nat) then None
  else if num =? 0 then Some (if negative then (-0)%float else 0%float)
  else Some (round_ratio negative num (10 ^ Z.of_nat n_frac)).

(** [str(v)] on the constants. *)
Definition repr_const (v : json) : string :=
  match v with
  | JNull => "None"
  | JBool true => "True"
  | JBool false => "False"
  | _ => "<object>"
  end.

Fixpoint assoc {A} (table : list (string * A)) (key : string) : option A :=
  match table with
  | [] => None
  | (k, v) :: table' => if String.eqb k key then Some v else assoc table' key
  end.

(** A POSIX host on which every external command has the outcome [run],
    and [json.loads] is given by a table from texts to decoded values. *)
Definition host (run : result CompletedProcess) (decoded : list (string * json))
    : Env :=
  {| os_name := "posix";
     normpath := λ p, p;
     subprocess_run := λ _ _, run;
     json_loads := assoc decoded;
     float_of_str := decimal_float;
     repr := repr_const |}.

(** A host whose command printed a text that decodes to [v]. *)
Definition host_printing (v : json) : Env :=
  host (Ok {| returncode := 0; stdout := "<json>" |}) [("<json>", v)].

(** An HDR10 stream record, with mastering display metadata. *)
Definition hdr10_stream : json :=
  JDict {[ "color_primaries" := JStr "bt2020";
           "color_transfer" := JStr "smpte2084";
           "color_space" := JStr "bt2020nc";
           "side_data_list" :=
             JList [JDict {[ "side_data_type" :=
                               JStr "Mastering display metadata";
                             "max_luminance" := JStr "10000000/10000" ]}] ]}.

Definition hdr10_info : VideoColorInfo :=
  {| color_primaries := ColorPrimaries.BT2020;
     transfer_function := TransferFunction.PQ;
     color_matrix := ColorMatrix.BT2020_NCL;
     is_hdr := true;
     max_luminance := Some 1000%float |}.


(** A record whose HDR flag is off although its transfer function is PQ. *)
Definition pq_flag_off_info : VideoColorInfo :=
  {| color_primaries := ColorPrimaries.BT709;
     transfer_function := TransferFunction.PQ;
     color_matrix := ColorMatrix.BT709;
     is_hdr := false;
     max_luminance := None |}.

(** A Display P3 recording without HDR, as an iPhone makes it. *)
Definition display_p3_info : VideoColorInfo :=
  {| color_primaries := ColorPrimaries.DISPLAY_P3;
     transfer_function := TransferFunction.BT709;
     color_matrix := ColorMatrix.BT709;
     is_hdr := false;
     max_luminance := None |}.

(** The colour tags of a standard-definition NTSC stream. *)
Definition ntsc_tags : gmap string json :=
  {[ "color_primaries" := JStr "smpte170m";
     "color_transfer" := JStr "smpte170m";
     "color_space" := JStr "smpte170m" ]}.

(** A [piexif] that finds no EXIF data in any file and writes what it is
    given: the file system is the list of (path, EXIF bytes) written so far,
    and every path exists. *)
Definition piexif_writing (load : result exif_dict) : Piexif :=
  {| FS := list (string * string);
     path_exists := λ _ _, true;
     piexif_load := λ _ _, load;
     piexif_dump := λ _, Ok "Exif";
     piexif_insert := λ exif_bytes path fs, (Ok (), (path, exif_bytes) :: fs) |}.

(** A [piexif] on files that hold no image data: [load] and [insert] both
    reject them, and nothing is written. *)
Definition piexif_not_an_image : Piexif :=
  {| FS := list (string * string);
     path_exists := λ _ _, true;
     piexif_load := λ _ _, Raise InvalidImageDataError;
     piexif_dump := λ _, Ok "Exif";
     piexif_insert := λ _ _ fs, (Raise InvalidImageDataError, fs) |}.

(** 50.8019 N, 12.9069 E, 311.398 m above sea level, accuracy 4.76 m. *)
Definition north_east_above : GPSData :=
  {| latitude := 0x1.966a4a8c154cap+5;
     longitude := 0x1.9d05532617c1cp+3;
     altitude := 0x1.3765e353f7ceep+8;
     accuracy := Some 0x1.30a3d70a3d70ap+2%float |}.

(** 33.82401 S, 70.592 W, 12 m below sea level. *)
Definition south_west_below : GPSData :=
  {| latitude := (-0x1.0e97928e0c9dap+5);
     longitude := (-0x1.1a5e353f7ced9p+6);
     altitude := (-0x1.8p+3);
     accuracy := None |}.

(** A console on Linux; the commands print nothing on their standard
    error, and exceptions are shown by a fixed text. *)
Definition console : CheckLibzimg.Console :=
  {| CheckLibzimg.sys_platform := "linux";
     CheckLibzimg.captured_stderr := λ _ _, "";
     CheckLibzimg.str_exn := λ _, "error" |}.

(** A build of [ffmpeg] whose every command exits with status 0 and prints
    a text that names the zscale filter. *)
Definition ffmpeg_with_zscale : Env :=
  host (Ok {| returncode := 0;
              stdout := "ffmpeg version 6.1 --enable-libzimg ... zscale" |}) [].

(** A candidate at second [i] of the video, with an integral score. *)
Definition frame (i : nat) (score : Z) (st : Status) : Candidate :=
  {| sequence_index := i;
     source_timestamp := SF2Prim (binary_normalize prec emax (Z.of_nat i) 0 false);
     file_path := "frame.jpg";
     sharpness_score :=
       match st with
       | Scored => Some (SF2Prim (binary_normalize prec emax score 0 false))
       | _ => None
       end;
     status := st |}.

(** Four candidates, the first two of them defective. *)
Definition defective_start : list Candidate :=
  [frame 0 0 Unusable; frame 1 0 Unusable; frame 2 3 Scored; frame 3 4 Scored].

(** Scenario A of the design document: 100 Usable candidates with the
    scores 1 to 100. *)
Definition scenario_a : list Candidate :=
  (λ i, frame i (Z.of_nat i + 1) Scored) <$> seq 0 100.

(** Scenario B: 10 candidates, those at 3 and 7 Unusable. *)
Definition scenario_b : list Candidate :=
  (λ i, frame i 5 (if bool_decide (i = 3%nat ∨ i = 7%nat) then Unusable
                   else Scored)) <$> seq 0 10.

End Fixtures.

(** * Properties *)

(** ** Colour-space detection and filter construction *)

Module ColorspaceFacts.
Import Py Host Colorspace.

(** Case analysis on a call that may raise, inside a successful run. *)
Ltac bind_ok H :=
  match type of H with
  | context [mbind _ ?m] =>
      let E := fresh "E" in
      destruct m eqn:E; simpl in H; [| discriminate H]
  end.

Lemma truthy_str (s : string) : truthy (JStr s) = negb (String.eqb s "").
Proof. reflexivity. Qed.

Lemma map_color_primaries_str (s : string) :
  _map_color_primaries (JStr s) =
  Ok (if decide (lower s = "bt709") then ColorPrimaries.BT709
      else if decide (lower s = "bt2020") then ColorPrimaries.BT2020
      else if decide (lower s = "smpte432") then ColorPrimaries.DISPLAY_P3
      else ColorPrimaries.UNKNOWN).
Proof.
  unfold _map_color_primaries. rewrite truthy_str.
  destruct (String.eqb_spec s "") as [->|Hne]; simpl; [reflexivity|].
  f_equal. rewrite !lookup_insert, lookup_singleton.
  repeat case_decide; simpl; congruence.
Qed.

Lemma map_transfer_function_str (s : string) :
  _map_transfer_function (JStr s) =
  Ok (if decide (lower s = "bt709") then TransferFunction.BT709
      else if decide (lower s = "iec61966-2-1") then TransferFunction.SRGB
      else if decide (lower s = "smpte2084") then TransferFunction.PQ
      else if decide (lower s = "arib-std-b67") then TransferFunction.HLG
      else TransferFunction.UNKNOWN).
Proof.
  unfold _map_transfer_function. rewrite truthy_str.
  destruct (String.eqb_spec s "") as [->|Hne]; simpl; [reflexivity|].
  f_equal. rewrite !lookup_insert, lookup_singleton.
  repeat case_decide; simpl; congruence.
Qed.

Lemma map_color_matrix_str (s : string) :
  _map_color_matrix (JStr s) =
  Ok (if decide (lower s = "bt709") then ColorMatrix.BT709
      else if decide (lower s = "bt2020nc") then ColorMatrix.BT2020_NCL
      else if decide (lower s = "bt2020c") then ColorMatrix.BT2020_CL
      else ColorMatrix.UNKNOWN).
Proof.
  unfold _map_color_matrix. rewrite truthy_str.
  destruct (String.eqb_spec s "") as [->|Hne]; simpl; [reflexivity|].
  f_equal. rewrite !lookup_insert, lookup_singleton.
  repeat case_decide; simpl; congruence.
Qed.

(** C3. On every string each of the three mapping functions returns a member
    of its enumeration (it does not raise), and the member is [UNKNOWN]
    whenever the lower-cased string is not one of the names the function
    knows; the empty string is such a string. *)
Theorem categorical_mappings_total (s : string) :
  (∃ p, _map_color_primaries (JStr s) = Ok p ∧
        (lower s ∉ ["bt709"; "bt2020"; "smpte432"] →
         p = ColorPrimaries.UNKNOWN) ∧
        (s = "" → p = ColorPrimaries.UNKNOWN)) ∧
  (∃ t, _map_transfer_function (JStr s) = Ok t ∧
        (lower s ∉ ["bt709"; "iec61966-2-1"; "smpte2084"; "arib-std-b67"] →
         t = TransferFunction.UNKNOWN) ∧
        (s = "" → t = TransferFunction.UNKNOWN)) ∧
  (∃ m, _map_color_matrix (JStr s) = Ok m ∧
        (lower s ∉ ["bt709"; "bt2020nc"; "bt2020c"] →
         m = ColorMatrix.UNKNOWN) ∧
        (s = "" → m = ColorMatrix.UNKNOWN)).
Proof.
  split_and!; eexists; (split; [first [apply map_color_primaries_str
    | apply map_transfer_function_str | apply map_color_matrix_str] |]).
  all: split; [intros Hn | intros ->; reflexivity].
  all: repeat case_decide; try reflexivity; exfalso; apply Hn.
  all: match goal with H : lower _ = _ |- _ => rewrite H end; set_solver.
Qed.

(** What a successful [_parse_color_info] did with the transfer function. *)
Lemma parse_color_info_transfer (env : Env) (stream : json)
    (info : VideoColorInfo) :
  _parse_color_info env stream = Ok info →
  ∃ v, get stream "color_transfer" (JStr "unknown") = Ok v ∧
       _map_transfer_function v = Ok (transfer_function info) ∧
       hdr_consistent info.
Proof.
  unfold _parse_color_info. intros H.
  repeat bind_ok H.
  injection H as <-. eexists. split; [reflexivity|]. split; [assumption|].
  reflexivity.
Qed.

Lemma member_pq_hlg (t : TransferFunction.t) :
  member t [TransferFunction.PQ; TransferFunction.HLG] = true ↔
  t = TransferFunction.PQ ∨ t = TransferFunction.HLG.
Proof. destruct t; cbv; intuition congruence. Qed.

(** C8. In the record [_parse_color_info] builds from a stream, [is_hdr] is
    true exactly when the transfer function the stream's [color_transfer]
    maps to is PQ or HLG; two streams with the same [color_transfer] entry get
    the same flag, whatever their primaries, matrix and side data. *)
Theorem is_hdr_iff_pq_or_hlg (env : Env) (stream : json) (info : VideoColorInfo) :
  _parse_color_info env stream = Ok info →
  (∃ v, get stream "color_transfer" (JStr "unknown") = Ok v ∧
        _map_transfer_function v = Ok (transfer_function info)) ∧
  (is_hdr info = true ↔
     transfer_function info = TransferFunction.PQ ∨
     transfer_function info = TransferFunction.HLG) ∧
  (∀ stream' info',
     _parse_color_info env stream' = Ok info' →
     get stream' "color_transfer" (JStr "unknown")
       = get stream "color_transfer" (JStr "unknown") →
     is_hdr info' = is_hdr info).
Proof.
  intros H.
  destruct (parse_color_info_transfer _ _ _ H) as (v & Hv & Hmap & Hhdr).
  split_and!.
  - eauto.
  - rewrite Hhdr. apply member_pq_hlg.
  - intros stream' info' H' Hsame.
    destruct (parse_color_info_transfer _ _ _ H') as (v' & Hv' & Hmap' & Hhdr').
    rewrite Hsame, Hv in Hv'. injection Hv' as <-.
    rewrite Hmap in Hmap'. injection Hmap' as Ht.
    rewrite Hhdr, Hhdr', Ht. reflexivity.
Qed.

Lemma is_hdr_iff_pq_or_hlg_witness :
  let env := Fixtures.host_printing (JDict {[ "streams" := JList [Fixtures.hdr10_stream] ]}) in
  _parse_color_info env Fixtures.hdr10_stream = Ok Fixtures.hdr10_info ∧
  (is_hdr Fixtures.hdr10_info = true ↔
     transfer_function Fixtures.hdr10_info = TransferFunction.PQ ∨
     transfer_function Fixtures.hdr10_info = TransferFunction.HLG).
Proof.
  intros env.
  assert (H : _parse_color_info env Fixtures.hdr10_stream = Ok Fixtures.hdr10_info)
    by (vm_compute; reflexivity).
  split; [exact H|].
  exact (proj1 (proj2 (is_hdr_iff_pq_or_hlg env Fixtures.hdr10_stream Fixtures.hdr10_info H))).
Defined.

Lemma side_data_step_dict (env : Env) (acc : option float)
    (m : gmap string json) :
  ∃ r, side_data_step env acc (JDict m) = Ok r.
Proof.
  unfold side_data_step, get. simpl.
  destruct (eq_str _ _); [|eauto].
  destruct (contains _ _); [|eauto].
  destruct (split _ _) as [|num [|denom [|x l]]]; simpl; eauto.
  unfold float_str.
  destruct (float_of_str env num) as [n|]; simpl; [|eauto].
  destruct (float_of_str env denom) as [d|]; simpl; [|eauto].
  unfold truediv. destruct (PrimFloat.eqb d 0); simpl; eauto.
Qed.

Lemma side_data_loop_dicts (env : Env) (items : list json) (acc : option float) :
  Forall is_dict items → ∃ r, side_data_loop env acc items = Ok r.
Proof.
  intros H. revert acc. induction H as [|x l [m ->] _ IH]; intros acc.
  - simpl. eauto.
  - simpl. destruct (side_data_step_dict env acc m) as [r ->]. simpl. apply IH.
Qed.

Lemma get_text_or_absent (m : gmap string json) (key dflt : string) :
  text_or_absent m key → ∃ s, get (JDict m) key (JStr dflt) = Ok (JStr s).
Proof. intros [H | [s H]]; unfold get; rewrite H; simpl; eauto. Qed.

(** On a stream record of the expected shape [_parse_color_info] returns. *)
Lemma parse_color_info_returns (env : Env) (stream : json) :
  stream_record stream → ∃ info, _parse_color_info env stream = Ok info.
Proof.
  intros (m & -> & Hp & Ht & Hm & Hside).
  unfold _parse_color_info.
  destruct (get_text_or_absent m _ "unknown" Hp) as [sp ->].
  destruct (get_text_or_absent m _ "unknown" Ht) as [st ->].
  destruct (get_text_or_absent m _ "unknown" Hm) as [sm ->].
  cbn [mbind result_bind].
  rewrite map_color_primaries_str, map_transfer_function_str,
    map_color_matrix_str.
  cbn [mbind result_bind]. unfold get.
  destruct Hside as [-> | (l & -> & Hl)]; simpl.
  - eauto.
  - destruct (side_data_loop_dicts env l None Hl) as [r ->]. simpl. eauto.
Qed.

(** C4, as the code has it. When the probe fails in one of the five ways of
    [probe_failure], [detect_color_space] returns (it does not raise) the
    default record: the three categorical fields unknown, no HDR, no peak
    luminance. When the probe prints an object whose first stream is a
    stream record of the expected shape, it returns what
    [_parse_color_info] makes of that stream, again without raising. *)
Theorem detect_color_space_cases (env : Env) (video_path : string) :
  (probe_failure env video_path →
   detect_color_space env video_path =
   Ok {| color_primaries := ColorPrimaries.UNKNOWN;
         transfer_function := TransferFunction.UNKNOWN;
         color_matrix := ColorMatrix.UNKNOWN;
         is_hdr := false;
         max_luminance := None |}) ∧
  (∀ r m stream rest,
     subprocess_run env (color_probe_cmd env video_path) 30 = Ok r →
     returncode r = 0 →
     json_loads env (stdout r) = Some (JDict m) →
     m !! "streams" = Some (JList (stream :: rest)) →
     stream_record stream →
     ∃ info, detect_color_space env video_path = Ok info ∧
             _parse_color_info env stream = Ok info).
Proof.
  split.
  - intros [r Hrun Hrc | r m Hrun Hrc Hjson Hstreams | Hrun | Hrun
           | r Hrun Hrc Hjson];
      unfold detect_color_space; rewrite Hrun; simpl.
    + apply Z.eqb_neq in Hrc. rewrite Hrc. reflexivity.
    + rewrite Hrc. simpl. unfold loads. rewrite Hjson. simpl.
      destruct Hstreams as [-> | ->]; reflexivity.
    + reflexivity.
    + reflexivity.
    + rewrite Hrc. simpl. unfold loads. rewrite Hjson. reflexivity.
  - intros r m stream rest Hrun Hrc Hjson Hstreams Hshape.
    destruct (parse_color_info_returns env stream Hshape) as [info Hinfo].
    exists info. split; [|assumption].
    unfold detect_color_space. rewrite Hrun. simpl.
    rewrite Hrc. simpl. unfold loads. rewrite Hjson. simpl.
    rewrite Hstreams. simpl. rewrite Hinfo. reflexivity.
Qed.

(** C4, as stated, fails: the probe exits with status 0 and prints valid
    JSON that holds no video stream (an empty array), and
    [detect_color_space] raises [AttributeError], which its handler does
    not list. *)
Lemma detect_color_space_raises_on_array :
  let env := Fixtures.host_printing (JList []) in
  subprocess_run env (color_probe_cmd env "clip.mp4") 30
    = Ok {| returncode := 0; stdout := "<json>" |} ∧
  json_loads env "<json>" = Some (JList []) ∧
  detect_color_space env "clip.mp4" = Raise AttributeError.
Proof. split_and!; reflexivity. Qed.

(** The failing probe of a concrete host. *)
Example detect_color_space_nonzero_exit :
  let env := Fixtures.host (Ok {| returncode := 1; stdout := "" |}) [] in
  probe_failure env "clip.mp4" ∧
  detect_color_space env "clip.mp4" = Ok _default_color_info.
Proof.
  intros env. split; [|reflexivity].
  eapply nonzero_exit; [reflexivity | simpl; lia].
Qed.

(** The other four failures on concrete hosts. *)
Example detect_color_space_no_streams :
  detect_color_space (Fixtures.host_printing (JDict {[ "streams" := JList [] ]}))
    "clip.mp4" = Ok _default_color_info.
Proof. vm_compute. reflexivity. Qed.

Example detect_color_space_timeout :
  detect_color_space (Fixtures.host (Raise TimeoutExpired) []) "clip.mp4"
  = Ok _default_color_info.
Proof. reflexivity. Qed.

Example detect_color_space_not_json :
  detect_color_space
    (Fixtures.host (Ok {| returncode := 0; stdout := "not json" |}) [])
    "clip.mp4" = Ok _default_color_info.
Proof. reflexivity. Qed.

Example detect_color_space_hdr10 :
  detect_color_space
    (Fixtures.host_printing (JDict {[ "streams" := JList [Fixtures.hdr10_stream] ]}))
    "clip.mp4" = Ok Fixtures.hdr10_info.
Proof. vm_compute. reflexivity. Qed.

(** The code's filter construction against the construction with the probe
    result passed in: they agree at the cached value, and the cache is left
    as it is. *)
Lemma build_filter_cached (env : Env) (info : VideoColorInfo) (b : bool) :
  build_colorspace_filter env info {| _zscale_available := Some b |}
  = (Ok (colorspace_filter_given b info), {| _zscale_available := Some b |}).
Proof.
  unfold build_colorspace_filter, colorspace_filter_given.
  destruct (needs_conversion info); simpl; [|reflexivity].
  destruct (is_hdr info); simpl; [reflexivity|].
  destruct (is_wide_gamut_sdr info); reflexivity.
Qed.

(** With an empty cache and an HDR record the host is probed, and the
    answer is cached. *)
Lemma build_filter_probing (env : Env) (info : VideoColorInfo) (b : bool) :
  check_zscale_available env = Ok b →
  needs_conversion info = true → is_hdr info = true →
  build_colorspace_filter env info {| _zscale_available := None |}
  = (Ok (colorspace_filter_given b info), {| _zscale_available := Some b |}).
Proof.
  intros Hc Hn Hh.
  unfold build_colorspace_filter, colorspace_filter_given.
  rewrite Hn, Hh. simpl.
  unfold _build_hdr_to_sdr_filter, is_zscale_available, mbind, io_bind. simpl.
  rewrite Hc. reflexivity.
Qed.

(** Without HDR neither the cache nor the host is consulted. *)
Lemma build_filter_sdr (env : Env) (info : VideoColorInfo) (g : Globals) (b : bool) :
  is_hdr info = false →
  build_colorspace_filter env info g = (Ok (colorspace_filter_given b info), g).
Proof.
  intros Hh. unfold build_colorspace_filter, colorspace_filter_given.
  rewrite Hh. destruct (needs_conversion info); simpl; [|reflexivity].
  destruct (is_wide_gamut_sdr info); reflexivity.
Qed.

Lemma needs_conversion_hdr (info : VideoColorInfo) :
  is_hdr info = true → needs_conversion info = true.
Proof. intros H. unfold needs_conversion. rewrite H. reflexivity. Qed.

(** X3. The capability check is made once: a call that returns leaves its
    answer in the cache, and from then on every call gives that answer
    without consulting the host. *)
Theorem zscale_probed_once (env : Env) (g g' : Globals) (b : bool) :
  is_zscale_available env g = (Ok b, g') →
  _zscale_available g' = Some b ∧
  ∀ env', is_zscale_available env' g' = (Ok b, g').
Proof.
  unfold is_zscale_available. intros H.
  destruct g as [[c|]]; simpl in H.
  - injection H as <- <-. simpl. auto.
  - destruct (check_zscale_available env) as [c|e]; [|discriminate].
    injection H as <- <-. simpl. auto.
Qed.

Lemma zscale_probed_once_witness :
  let env := Fixtures.host
               (Ok {| returncode := 0; stdout := "... zscale ..." |}) [] in
  _zscale_available {| _zscale_available := Some true |} = Some true ∧
  ∀ env', is_zscale_available env' {| _zscale_available := Some true |}
          = (Ok true, {| _zscale_available := Some true |}).
Proof.
  intros env.
  apply (zscale_probed_once env initial_globals). vm_compute. reflexivity.
Defined.

(** C7, as the code has it. [build_colorspace_filter] takes the colour
    record only and reads the module-level cache of the zscale check. With
    a filled cache it returns what the construction with an explicit probe
    result returns at the cached value, on every host, and leaves the cache
    alone (there is no re-probe); with an empty cache and an HDR record it
    probes the host once and caches the answer; without HDR the state plays
    no part. *)
Theorem filter_follows_cached_probe (env : Env) (info : VideoColorInfo)
    (g : Globals) :
  match _zscale_available g with
  | Some b =>
      build_colorspace_filter env info g
      = (Ok (colorspace_filter_given b info), g)
  | None =>
      ∀ b, check_zscale_available env = Ok b →
           build_colorspace_filter env info g
           = (Ok (colorspace_filter_given b info),
              if is_hdr info then {| _zscale_available := Some b |} else g)
  end.
Proof.
  destruct g as [[b|]]; simpl.
  - apply build_filter_cached.
  - intros b Hc. destruct (is_hdr info) eqn:Hh.
    + apply build_filter_probing; auto using needs_conversion_hdr.
    + apply build_filter_sdr; assumption.
Qed.

(** C7, as stated, fails: one colour record, two process states that differ
    in the module-level cache only, two different filters. *)
Lemma filter_differs_between_process_states :
  let env := Fixtures.host (Raise FileNotFoundError) [] in
  build_colorspace_filter env Fixtures.hdr10_info
    {| _zscale_available := Some true |}
  = (Ok (Some ("zscale=t=linear:npl=100,format=gbrpf32le,zscale=p=bt709," +:+
               "tonemap=hable:desat=0,zscale=t=bt709:m=bt709:r=tv," +:+
               "format=yuv420p")),
     {| _zscale_available := Some true |}) ∧
  build_colorspace_filter env Fixtures.hdr10_info
    {| _zscale_available := Some false |}
  = (Ok (Some "colorspace=all=bt709:fast=0"),
     {| _zscale_available := Some false |}).
Proof. split; vm_compute; reflexivity. Qed.

(** X2. On the records [_parse_color_info] builds, whose HDR flag agrees with
    the transfer function, no filter is returned exactly when no conversion
    is needed. *)
Theorem hdr_consistent_filter_iff (env : Env) (info : VideoColorInfo)
    (g g' : Globals) (f : option string) :
  hdr_consistent info →
  build_colorspace_filter env info g = (Ok f, g') →
  f = None ↔ needs_conversion info = false.
Proof.
  intros Hc Hb.
  assert (Hshape : f = None ↔
            needs_conversion info = false ∨
            (is_hdr info = false ∧ is_wide_gamut_sdr info = false)).
  { unfold build_colorspace_filter in Hb.
    destruct (needs_conversion info); simpl in Hb.
    - destruct (is_hdr info).
      + unfold mbind, io_bind in Hb.
        destruct (_build_hdr_to_sdr_filter env info g) as [[x|e] g1];
          simpl in Hb; [|discriminate].
        injection Hb as <- <-. intuition congruence.
      + destruct (is_wide_gamut_sdr info);
          injection Hb as <- <-; intuition congruence.
    - injection Hb as <- <-. intuition congruence. }
  rewrite Hshape. split; [|tauto].
  intros [Hn | [Hh Hw]]; [assumption|].
  unfold hdr_consistent in Hc. rewrite Hh in Hc.
  destruct info as [p t m h l]; simpl in *. subst h.
  destruct p, t; cbv in Hc, Hw |- *; congruence.
Qed.

Lemma hdr_consistent_filter_iff_witness :
  let env := Fixtures.host (Raise FileNotFoundError) [] in
  Some (hdr_filter_chain false) = None ↔
  needs_conversion Fixtures.hdr10_info = false.
Proof.
  intros env.
  apply (hdr_consistent_filter_iff env Fixtures.hdr10_info initial_globals
           {| _zscale_available := Some false |}).
  - reflexivity.
  - vm_compute. reflexivity.
Defined.

(** C2 fails on the code. For a PQ transfer function with BT.709 primaries
    and the HDR flag off, [needs_conversion] holds and yet
    [build_colorspace_filter] returns [None], in every state and on every
    host. *)
Theorem filter_none_though_conversion_needed (env : Env) (g : Globals) :
  needs_conversion Fixtures.pq_flag_off_info = true ∧
  build_colorspace_filter env Fixtures.pq_flag_off_info g = (Ok None, g).
Proof. split; reflexivity. Qed.

(** *** The mappings against the names of the enumerations *)

(** X6. Each mapping function inverts the [value] of its enumeration, and
    does so whatever the case of the letters: a string whose lower-case
    form is the value of a member is mapped to that member. *)
Theorem mappings_invert_value :
  (∀ p s, lower s = ColorPrimaries.value p →
          _map_color_primaries (JStr s) = Ok p) ∧
  (∀ t s, lower s = TransferFunction.value t →
          _map_transfer_function (JStr s) = Ok t) ∧
  (∀ m s, lower s = ColorMatrix.value m →
          _map_color_matrix (JStr s) = Ok m).
Proof.
  split_and!; intros x s Hs.
  - rewrite map_color_primaries_str, Hs. by destruct x.
  - rewrite map_transfer_function_str, Hs. by destruct x.
  - rewrite map_color_matrix_str, Hs. by destruct x.
Qed.

Example mappings_ignore_case :
  _map_color_primaries (JStr "BT2020") = Ok ColorPrimaries.BT2020 ∧
  _map_transfer_function (JStr "ARIB-STD-B67") = Ok TransferFunction.HLG ∧
  _map_color_matrix (JStr "bt2020NC") = Ok ColorMatrix.BT2020_NCL.
Proof. split_and!; vm_compute; reflexivity. Qed.

(** *** The peak luminance *)

(** One turn of the loop either leaves the luminance as it was or takes it
    from the entry. *)
Lemma side_data_step_inv (env : Env) (acc r : option float) (data : json) :
  side_data_step env acc data = Ok r →
  r = acc ∨ ∃ q, r = Some q ∧ mastering_luminance env data q.
Proof.
  unfold side_data_step. intros H.
  destruct data as [| | | | | | m]; try discriminate H.
  unfold get in H. simpl in H.
  destruct (eq_str _ _) eqn:Ety; [|left; congruence].
  destruct (contains _ _); [|left; congruence].
  destruct (split _ _) as [|num [|denom [|x l]]] eqn:Esplit; simpl in H;
    try (left; congruence).
  unfold float_str in H.
  destruct (float_of_str env num) as [n|] eqn:En; simpl in H;
    [|left; congruence].
  destruct (float_of_str env denom) as [d|] eqn:Ed; simpl in H;
    [|left; congruence].
  unfold truediv in H.
  destruct (PrimFloat.eqb d 0) eqn:Ez; simpl in H; [left; congruence|].
  right. injection H as <-. eexists. split; [reflexivity|].
  exists m, num, denom, n, d. split_and!; try done.
  destruct (m !! "side_data_type") as [[| | | | s | |]|]; try discriminate Ety.
  simpl in Ety. apply String.eqb_eq in Ety. by subst.
Qed.

Lemma side_data_loop_inv (env : Env) (items : list json)
    (acc r : option float) :
  side_data_loop env acc items = Ok r →
  r = acc ∨
  ∃ q data, r = Some q ∧ data ∈ items ∧ mastering_luminance env data q.
Proof.
  revert acc. induction items as [|data items IH]; intros acc H; simpl in H.
  - left. congruence.
  - destruct (side_data_step env acc data) as [a|] eqn:Estep; simpl in H;
      [|discriminate].
    destruct (IH _ H) as [-> | (q & d & -> & Hin & Hd)].
    + destruct (side_data_step_inv _ _ _ _ Estep) as [-> | (q & -> & Hq)];
        [by left|].
      right. exists q, data. split_and!; [done| |done]. set_solver.
    + right. exists q, d. split_and!; [done| |done]. set_solver.
Qed.

(** X7. A peak luminance in the record [_parse_color_info] returns always
    comes from an entry of the stream's [side_data_list]: an entry of type
    mastering display metadata whose [max_luminance] text is a numerator
    and a denominator around one slash, both read by [float], the
    denominator not zero; and the luminance is their quotient. *)
Theorem max_luminance_from_mastering_display (env : Env) (stream : json)
    (info : VideoColorInfo) (q : float) :
  _parse_color_info env stream = Ok info →
  max_luminance info = Some q →
  ∃ side items data,
    get stream "side_data_list" (JList []) = Ok side ∧
    iterate side = Ok items ∧ data ∈ items ∧
    mastering_luminance env data q.
Proof.
  unfold _parse_color_info. intros H Hq.
  repeat bind_ok H.
  injection H as <-. simpl in Hq. subst.
  match goal with
  | Hl : side_data_loop _ _ _ = _ |- _ =>
      destruct (side_data_loop_inv _ _ _ _ Hl)
        as [? | (q' & d & [= <-] & Hin & Hd)]; [discriminate|]
  end.
  eauto 10.
Qed.

Lemma max_luminance_from_mastering_display_witness :
  ∃ side items data,
    get Fixtures.hdr10_stream "side_data_list" (JList []) = Ok side ∧
    iterate side = Ok items ∧ data ∈ items ∧
    mastering_luminance (Fixtures.host_printing JNull) data 1000%float.
Proof.
  apply (max_luminance_from_mastering_display (Fixtures.host_printing JNull)
           Fixtures.hdr10_stream Fixtures.hdr10_info 1000%float);
    vm_compute; reflexivity.
Defined.

(** A zero denominator, a text without slash and a text with two slashes
    leave the luminance out. *)
Example max_luminance_left_out :
  let entry text : json :=
    JDict {[ "side_data_type" := JStr "Mastering display metadata";
             "max_luminance" := JStr text ]} in
  side_data_loop (Fixtures.host_printing JNull) None
    [entry "1000/0"; entry "1000"; entry "1/2/3"; entry "a/b"] = Ok None.
Proof. vm_compute. reflexivity. Qed.

(** *** The filters that can come out *)

(** X8. Whatever filter [build_colorspace_filter] returns is one of four
    texts. For an HDR record it is the tone-mapping chain or the plain
    conversion. Otherwise the module state is left alone, the primaries are
    Display P3 or BT.2020, and the filter names them as its input by their
    own [value]: the branch of [_build_wide_gamut_to_srgb_filter] that
    assumes BT.709 is never taken from here. *)
Theorem colorspace_filter_range (env : Env) (info : VideoColorInfo)
    (g g' : Globals) (f : string) :
  build_colorspace_filter env info g = (Ok (Some f), g') →
  (is_hdr info = true ∧
   (f = "zscale=t=linear:npl=100,format=gbrpf32le,zscale=p=bt709,tonemap=hable:desat=0,zscale=t=bt709:m=bt709:r=tv,format=yuv420p"
    ∨ f = "colorspace=all=bt709:fast=0")) ∨
  (is_hdr info = false ∧ g' = g ∧
   (color_primaries info = ColorPrimaries.DISPLAY_P3 ∨
    color_primaries info = ColorPrimaries.BT2020) ∧
   f = "colorspace=all=bt709:iall=" +:+
       ColorPrimaries.value (color_primaries info) +:+ ":fast=0").
Proof.
  intros H. destruct (is_hdr info) eqn:Hh.
  - left. split; [reflexivity|].
    unfold build_colorspace_filter in H.
    rewrite needs_conversion_hdr, Hh in H by assumption. simpl in H.
    unfold _build_hdr_to_sdr_filter, mbind, io_bind in H.
    destruct (is_zscale_available env g) as [[[]|e] g1]; simpl in H;
      try discriminate; injection H as <- <-; auto.
  - right. split; [reflexivity|].
    rewrite (build_filter_sdr env info g true Hh) in H.
    injection H as H <-. split; [reflexivity|].
    unfold colorspace_filter_given in H. rewrite Hh in H.
    destruct (needs_conversion info); simpl in H; [|discriminate].
    unfold is_wide_gamut_sdr in H. rewrite Hh in H.
    destruct (color_primaries info) eqn:Hp; simpl in H; try discriminate;
      injection H as <-; unfold _build_wide_gamut_to_srgb_filter;
      rewrite Hp; auto.
Qed.

Lemma colorspace_filter_range_witness :
  let info := Fixtures.display_p3_info in
  let f := "colorspace=all=bt709:iall=smpte432:fast=0" in
  (is_hdr info = true ∧
   (f = "zscale=t=linear:npl=100,format=gbrpf32le,zscale=p=bt709,tonemap=hable:desat=0,zscale=t=bt709:m=bt709:r=tv,format=yuv420p"
    ∨ f = "colorspace=all=bt709:fast=0")) ∨
  (is_hdr info = false ∧ initial_globals = initial_globals ∧
   (color_primaries info = ColorPrimaries.DISPLAY_P3 ∨
    color_primaries info = ColorPrimaries.BT2020) ∧
   f = "colorspace=all=bt709:iall=" +:+
       ColorPrimaries.value (color_primaries info) +:+ ":fast=0").
Proof.
  intros info f.
  apply (colorspace_filter_range (Fixtures.host (Raise FileNotFoundError) [])
           info initial_globals initial_globals f).
  vm_compute. reflexivity.
Defined.

(** *** What detection hands to the filter construction *)

(** A record [detect_color_space] returns is the default record or was
    built by [_parse_color_info]. *)
Lemma detect_color_space_inv (env : Env) (video_path : string)
    (info : VideoColorInfo) :
  detect_color_space env video_path = Ok info →
  info = _default_color_info ∨
  ∃ stream, _parse_color_info env stream = Ok info.
Proof.
  unfold detect_color_space, try_except. intros H.
  destruct (subprocess_run env _ 30) as [r|e]; simpl in H.
  - destruct (negb (returncode r =? 0)); simpl in H.
    { left. congruence. }
    destruct (loads env (stdout r)) as [data|e]; simpl in H.
    + destruct (get data "streams" (JList [])) as [streams|e]; simpl in H.
      * destruct (negb (truthy streams)); simpl in H.
        { left. congruence. }
        destruct (item0 streams) as [stream|e]; simpl in H.
        -- destruct (_parse_color_info env stream) as [i|e] eqn:Hp; simpl in H.
           ++ right. exists stream. congruence.
           ++ destruct e; simpl in H; try discriminate H; left; congruence.
        -- destruct e; simpl in H; try discriminate H; left; congruence.
      * destruct e; simpl in H; try discriminate H; left; congruence.
    + destruct e; simpl in H; try discriminate H; left; congruence.
  - destruct e; simpl in H; try discriminate H; left; congruence.
Qed.

(** X9. In every record [detect_color_space] returns, the HDR flag agrees
    with the transfer function. So a detected record that needs conversion
    is HDR or wide-gamut SDR: [build_colorspace_filter] builds a filter for
    it, and its last branch, which returns no filter for a record that
    needs one, is not reached. *)
Theorem detected_info_consistent (env : Env) (video_path : string)
    (info : VideoColorInfo) :
  detect_color_space env video_path = Ok info →
  hdr_consistent info ∧
  (needs_conversion info = true →
   is_hdr info = true ∨ is_wide_gamut_sdr info = true).
Proof.
  intros H.
  assert (Hc : hdr_consistent info).
  { destruct (detect_color_space_inv _ _ _ H) as [-> | [stream Hp]].
    - reflexivity.
    - by destruct (parse_color_info_transfer _ _ _ Hp) as (_ & _ & _ & ?). }
  split; [assumption|].
  unfold hdr_consistent in Hc. destruct info as [p t m h l]. simpl in *.
  subst h. destruct p, t; cbv; intros; auto; discriminate.
Qed.

Lemma detected_info_consistent_witness :
  hdr_consistent Fixtures.hdr10_info ∧
  (needs_conversion Fixtures.hdr10_info = true →
   is_hdr Fixtures.hdr10_info = true ∨
   is_wide_gamut_sdr Fixtures.hdr10_info = true).
Proof.
  apply (detected_info_consistent
           (Fixtures.host_printing
              (JDict {[ "streams" := JList [Fixtures.hdr10_stream] ]}))
           "clip.mp4").
  vm_compute. reflexivity.
Defined.

(** *** The description *)

(** X10. [get_color_info_description] never answers [Unknown]: the list of
    parts always holds the dynamic-range label, so the alternative for an
    empty list is dead. The description is not empty, and it begins with
    [SDR] exactly when the record is not HDR. *)
Theorem description_never_unknown (info : VideoColorInfo) :
  get_color_info_description info ≠ "Unknown" ∧
  get_color_info_description info ≠ "" ∧
  prefix "SDR" (get_color_info_description info) = negb (is_hdr info).
Proof.
  destruct info as [p t m h l]. unfold get_color_info_description. simpl.
  destruct h, p, t; vm_compute; split_and!; congruence.
Qed.

(** X11. The description tells the records apart on what it shows: two
    records with the same description have the same HDR flag and the same
    primaries, and when they are HDR records whose flag agrees with the
    transfer function, the same transfer function. *)
Theorem description_unambiguous (a b : VideoColorInfo) :
  get_color_info_description a = get_color_info_description b →
  is_hdr a = is_hdr b ∧ color_primaries a = color_primaries b ∧
  (hdr_consistent a → hdr_consistent b → is_hdr a = true →
   transfer_function a = transfer_function b).
Proof.
  destruct a as [p t m h l], b as [p' t' m' h' l'].
  unfold get_color_info_description, hdr_consistent. simpl.
  destruct h, p, t, h', p', t'; vm_compute; intros H; try discriminate H;
    split_and!; congruence.
Qed.

Lemma description_unambiguous_witness :
  let a := Fixtures.hdr10_info in
  let b := {| color_primaries := ColorPrimaries.BT2020;
              transfer_function := TransferFunction.PQ;
              color_matrix := ColorMatrix.UNKNOWN;
              is_hdr := true;
              max_luminance := None |} in
  is_hdr a = is_hdr b ∧ color_primaries a = color_primaries b ∧
  (hdr_consistent a → hdr_consistent b → is_hdr a = true →
   transfer_function a = transfer_function b).
Proof.
  intros a b. apply (description_unambiguous a b). vm_compute. reflexivity.
Defined.

Example description_examples :
  get_color_info_description Fixtures.hdr10_info
    = "HDR10/Dolby Vision (PQ) / BT.2020" ∧
  get_color_info_description Fixtures.display_p3_info = "SDR / Display P3" ∧
  get_color_info_description _default_color_info = "SDR".
Proof. split_and!; vm_compute; reflexivity. Qed.

Lemma get_unrecognised (m : gmap string json) (key : string)
    (names : list string) :
  "unknown" ∉ names → unrecognised m key names →
  ∃ s, get (JDict m) key (JStr "unknown") = Ok (JStr s) ∧ lower s ∉ names.
Proof.
  intros Hu [H | (s & H & Hs)]; unfold get; rewrite H; simpl; eauto.
Qed.

(** *** Streams without colour tags the code knows

    X21. A stream whose colour tags are absent or carry names the mappings
    do not know (the tags of a BT.601 source, say) is read as unknown in
    all three fields and not HDR, without raising; with no side data the
    record is the default record of a failed probe. No filter is built for
    it, and the module state is not touched. *)
Theorem unrecognised_tags_no_filter (env : Env) (m : gmap string json) :
  unrecognised m "color_primaries" ["bt709"; "bt2020"; "smpte432"] →
  unrecognised m "color_transfer"
    ["bt709"; "iec61966-2-1"; "smpte2084"; "arib-std-b67"] →
  unrecognised m "color_space" ["bt709"; "bt2020nc"; "bt2020c"] →
  (m !! "side_data_list" = None ∨
   ∃ l, m !! "side_data_list" = Some (JList l) ∧ Forall is_dict l) →
  ∃ info,
    _parse_color_info env (JDict m) = Ok info ∧
    color_primaries info = ColorPrimaries.UNKNOWN ∧
    transfer_function info = TransferFunction.UNKNOWN ∧
    color_matrix info = ColorMatrix.UNKNOWN ∧
    is_hdr info = false ∧
    (m !! "side_data_list" = None → info = _default_color_info) ∧
    ∀ g, build_colorspace_filter env info g = (Ok None, g).
Proof.
  intros Hp Ht Hm Hside.
  apply get_unrecognised in Hp as (sp & Ep & Hp);
    [|rewrite !not_elem_of_cons; split_and!; (discriminate || apply not_elem_of_nil)].
  apply get_unrecognised in Ht as (st & Et & Ht);
    [|rewrite !not_elem_of_cons; split_and!; (discriminate || apply not_elem_of_nil)].
  apply get_unrecognised in Hm as (sm & Em & Hm);
    [|rewrite !not_elem_of_cons; split_and!; (discriminate || apply not_elem_of_nil)].
  repeat match goal with
         | H : _ ∉ _ :: _ |- _ => apply not_elem_of_cons in H as [? H]
         end.
  unfold _parse_color_info. rewrite Ep, Et, Em.
  cbn [mbind result_bind].
  rewrite map_color_primaries_str, map_transfer_function_str,
    map_color_matrix_str.
  repeat (case_decide; [done|]).
  cbn [mbind result_bind]. unfold get.
  destruct Hside as [Hs | (l & Hs & Hl)]; rewrite Hs; simpl.
  - eexists. split; [reflexivity|]. split_and!; try reflexivity.
  - destruct (side_data_loop_dicts env l None Hl) as [r ->]. simpl.
    eexists. split; [reflexivity|]. split_and!; try reflexivity.
    intros ?. congruence.
Qed.

Lemma unrecognised_tags_no_filter_witness :
  let env := Fixtures.host (Raise FileNotFoundError) [] in
  ∃ info,
    _parse_color_info env (JDict Fixtures.ntsc_tags) = Ok info ∧
    color_primaries info = ColorPrimaries.UNKNOWN ∧
    transfer_function info = TransferFunction.UNKNOWN ∧
    color_matrix info = ColorMatrix.UNKNOWN ∧
    is_hdr info = false ∧
    (Fixtures.ntsc_tags !! "side_data_list" = None →
     info = _default_color_info) ∧
    ∀ g, build_colorspace_filter env info g = (Ok None, g).
Proof.
  intros env.
  apply (unrecognised_tags_no_filter env Fixtures.ntsc_tags).
  - right. exists "smpte170m". split; [vm_compute; reflexivity|]. simpl.
    rewrite !not_elem_of_cons.
    split_and!; (discriminate || apply not_elem_of_nil).
  - right. exists "smpte170m". split; [vm_compute; reflexivity|]. simpl.
    rewrite !not_elem_of_cons.
    split_and!; (discriminate || apply not_elem_of_nil).
  - right. exists "smpte170m". split; [vm_compute; reflexivity|]. simpl.
    rewrite !not_elem_of_cons.
    split_and!; (discriminate || apply not_elem_of_nil).
  - left. vm_compute. reflexivity.
Defined.

(** *** A probe that fails

    X20. A probe of [ffmpeg] that fails is remembered like an answer. When
    [subprocess.run] raises one of the exceptions [check_zscale_available]
    handles (a timeout, a missing executable, another operating-system
    error), the first call of [is_zscale_available] returns [False] and
    caches it: from then on every HDR record gets the plain conversion
    without tone mapping, on every host, for as long as the module state
    lives. Any other exception is passed on and nothing is cached. *)
Theorem zscale_probe_failure_cached (env : Env) (e : exn) :
  subprocess_run env
    [if String.eqb (os_name env) "nt" then "ffmpeg.exe" else "ffmpeg";
     "-filters"] 10 = Raise e →
  if existsb (isinstance e) [CTimeoutExpired; CFileNotFoundError; COSError]
  then
    is_zscale_available env initial_globals
      = (Ok false, {| _zscale_available := Some false |}) ∧
    ∀ env' info, is_hdr info = true →
      build_colorspace_filter env' info {| _zscale_available := Some false |}
      = (Ok (Some "colorspace=all=bt709:fast=0"),
         {| _zscale_available := Some false |})
  else
    is_zscale_available env initial_globals = (Raise e, initial_globals).
Proof.
  intros Hrun.
  assert (Hc : check_zscale_available env
               = if existsb (isinstance e)
                      [CTimeoutExpired; CFileNotFoundError; COSError]
                 then Ok false else Raise e).
  { unfold check_zscale_available. rewrite Hrun. reflexivity. }
  unfold is_zscale_available. simpl _zscale_available. rewrite Hc.
  destruct (existsb _ _); [|reflexivity].
  split; [reflexivity|].
  intros env' info Hh. rewrite build_filter_cached.
  unfold colorspace_filter_given.
  rewrite needs_conversion_hdr, Hh by assumption. reflexivity.
Qed.

Lemma zscale_probe_failure_cached_witness :
  let env := Fixtures.host (Raise TimeoutExpired) [] in
  is_zscale_available env initial_globals
    = (Ok false, {| _zscale_available := Some false |}) ∧
  ∀ env' info, is_hdr info = true →
    build_colorspace_filter env' info {| _zscale_available := Some false |}
    = (Ok (Some "colorspace=all=bt709:fast=0"),
       {| _zscale_available := Some false |}).
Proof.
  intros env.
  apply (zscale_probe_failure_cached env TimeoutExpired). reflexivity.
Defined.

End ColorspaceFacts.

(** ** The regular-expression matcher on the texts of the pattern *)

Module ReFacts.
Import Py Re GpsExtractor.

Lemma app_nil (b : string) : "" +:+ b = b.
Proof. reflexivity. Qed.

Lemma app_cons (x : ascii) (a b : string) :
  String x a +:+ b = String x (a +:+ b).
Proof. reflexivity. Qed.

Lemma length_app (a b : string) :
  String.length (a +:+ b) = (String.length a + String.length b)%nat.
Proof.
  induction a as [|c a IH]; [reflexivity|].
  rewrite app_cons. simpl. by rewrite IH.
Qed.

Lemma substring_app (a b : string) :
  String.substring 0 (String.length a) (a +:+ b) = a.
Proof.
  induction a as [|c a IH]; [by destruct b|].
  rewrite app_cons. simpl. by rewrite IH.
Qed.

Lemma consumed_app (a b : string) : consumed (a +:+ b) b = a.
Proof.
  unfold consumed. rewrite length_app.
  replace (String.length a + String.length b - String.length b)%nat
    with (String.length a) by lia.
  apply substring_app.
Qed.

Lemma app_assoc (a b c : string) : (a +:+ b) +:+ c = a +:+ (b +:+ c).
Proof.
  induction a as [|x a IH]; [reflexivity|].
  rewrite !app_cons. by f_equal.
Qed.

Lemma run_class_cons (p : ascii → bool) (d : ascii) (s : string)
    (caps : captures) (k : cont) :
  run (Class p) (String d s) caps k = if p d then k s caps else None.
Proof. reflexivity. Qed.

Lemma run_digit_stops (rest : string) (caps : captures) (k : cont) :
  stops_digits rest → run digit rest caps k = None.
Proof. destruct rest as [|c r]; simpl; [done | by intros ->]. Qed.

(** Greedy repetition takes a whole run of digits when what follows lets
    the rest of the pattern succeed. *)
Lemma star_digits (ds rest : string) (caps c : captures) (k : cont) (fuel : nat) :
  all_digits ds = true → stops_digits rest →
  (String.length ds ≤ fuel)%nat →
  k rest caps = Some c →
  star (run digit) fuel (ds +:+ rest) caps k = Some c.
Proof.
  revert fuel. induction ds as [|d ds IH]; intros fuel Hd Hstop Hfuel Hk.
  - rewrite app_nil. destruct fuel as [|fuel]; cbn [star]; [assumption|].
    rewrite run_digit_stops by assumption. assumption.
  - simpl in Hd. apply andb_true_iff in Hd as [Hd Hds].
    destruct fuel as [|fuel]; simpl in Hfuel; [lia|].
    rewrite app_cons. cbn [star]. unfold digit at 1.
    rewrite run_class_cons, Hd.
    destruct (Nat.ltb_spec (String.length (ds +:+ rest))
                (String.length (String d (ds +:+ rest)))) as [_|Hlt];
      [|simpl in Hlt; lia].
    fold digit. rewrite IH by (auto; lia). reflexivity.
Qed.

Lemma plus_digits (ds rest : string) (caps c : captures) (k : cont) :
  ds ≠ "" → all_digits ds = true → stops_digits rest →
  k rest caps = Some c →
  run (Plus digit) (ds +:+ rest) caps k = Some c.
Proof.
  intros Hne Hd Hstop Hk. destruct ds as [|d ds]; [done|].
  simpl in Hd. apply andb_true_iff in Hd as [Hd Hds].
  rewrite app_cons. cbn [run]. unfold digit at 1.
  rewrite run_class_cons, Hd. fold digit.
  apply star_digits; auto. rewrite length_app. lia.
Qed.

Lemma sign_stops_digits (c : ascii) (s : string) :
  is_sign c = true → stops_digits (String c s).
Proof.
  unfold is_sign. intros H. simpl.
  apply orb_true_iff in H as [H|H]; apply Ascii.eqb_eq in H; subst; reflexivity.
Qed.

Lemma coordinate_stops_digits (g rest : string) :
  coordinate g → stops_digits (g +:+ rest).
Proof.
  intros (sg & ip & fp & -> & Hsg & _). rewrite app_cons.
  by apply sign_stops_digits.
Qed.

Lemma altitude_stops_digits (g rest : string) :
  altitude_text g → stops_digits (g +:+ rest).
Proof.
  intros (sg & ip & fp & -> & Hsg & _). rewrite app_cons.
  by apply sign_stops_digits.
Qed.

(** A coordinate is matched and captured whole. *)
Lemma run_coordinate (n : nat) (g rest : string) (caps c : captures) (k : cont) :
  coordinate g → stops_digits rest →
  k rest (<[n := g]> caps) = Some c →
  run (Group n (Cat sign (Cat (Plus digit) (Cat dot (Plus digit)))))
      (g +:+ rest) caps k = Some c.
Proof.
  intros Hg Hstop Hk.
  pose (kg := (λ s' caps', k s' (<[n := consumed (g +:+ rest) s']> caps')) : cont).
  assert (Hkg : kg rest caps = Some c)
    by (unfold kg; rewrite consumed_app; exact Hk).
  change (run (Cat sign (Cat (Plus digit) (Cat dot (Plus digit))))
            (g +:+ rest) caps kg = Some c).
  clearbody kg.
  destruct Hg as (sg & ip & fp & -> & Hsg & Hip & Hipd & Hfp & Hfpd).
  cbn [run]. rewrite app_cons.
  unfold sign at 1. rewrite run_class_cons, Hsg.
  rewrite app_assoc, app_cons.
  apply plus_digits; [assumption.. | reflexivity |].
  unfold dot at 1. rewrite run_class_cons. simpl Ascii.eqb. cbv iota.
  apply plus_digits; assumption.
Qed.

(** An altitude text is matched and captured whole. *)
Lemma run_altitude (n : nat) (g rest : string) (caps c : captures) (k : cont) :
  altitude_text g → ending rest →
  k rest (<[n := g]> caps) = Some c →
  run (Group n (Cat sign (Cat (Plus digit) (Cat (Opt dot) (Star digit)))))
      (g +:+ rest) caps k = Some c.
Proof.
  intros Hg Hrest Hk.
  assert (Hstop : stops_digits rest)
    by (destruct Hrest as [-> | [-> | [-> | ->]]]; done).
  pose (kg := (λ s' caps', k s' (<[n := consumed (g +:+ rest) s']> caps')) : cont).
  assert (Hkg : kg rest caps = Some c)
    by (unfold kg; rewrite consumed_app; exact Hk).
  change (run (Cat sign (Cat (Plus digit) (Cat (Opt dot) (Star digit))))
            (g +:+ rest) caps kg = Some c).
  clearbody kg.
  destruct Hg as (sg & ip & frac & -> & Hsg & Hip & Hipd & Hfrac).
  cbn [run]. rewrite app_cons.
  unfold sign at 1. rewrite run_class_cons, Hsg.
  rewrite app_assoc.
  apply plus_digits; [assumption.. | |].
  - destruct Hfrac as [-> | (fp & -> & _)];
      [rewrite app_nil; assumption | rewrite app_cons; reflexivity].
  - destruct Hfrac as [-> | (fp & -> & Hfpd)].
    + rewrite app_nil.
      destruct Hrest as [-> | [-> | [-> | ->]]]; simpl; assumption.
    + rewrite app_cons. unfold dot at 1. rewrite run_class_cons.
      simpl Ascii.eqb. cbv iota.
      rewrite (star_digits fp rest _ c); [reflexivity | assumption..| |assumption].
      rewrite length_app. lia.
Qed.

(** The pattern on a latitude and a longitude, with or without the closing
    slash: groups 1 and 2 are the two coordinates, group 3 takes no part. *)
Lemma match_without_altitude (g1 g2 tail : string) :
  coordinate g1 → coordinate g2 → ending tail →
  re_match pattern (g1 +:+ g2 +:+ tail)
  = Some (<[2%nat := g2]> (<[1%nat := g1]> ∅)).
Proof.
  intros H1 H2 Htail. unfold re_match, pattern.
  change (run (Cat ?a ?b) ?s ?cp ?k)
    with (run a s cp (λ s' caps', run b s' caps' k)).
  apply run_coordinate; [assumption | by apply coordinate_stops_digits |].
  change (run (Cat ?a ?b) ?s ?cp ?k)
    with (run a s cp (λ s' caps', run b s' caps' k)).
  apply run_coordinate;
    [assumption | by destruct Htail as [-> | [-> | [-> | ->]]] |].
  destruct Htail as [-> | [-> | [-> | ->]]]; reflexivity.
Qed.

(** The pattern on a latitude, a longitude and an altitude: group 3 is the
    altitude text. *)
Lemma match_with_altitude (g1 g2 g3 tail : string) :
  coordinate g1 → coordinate g2 → altitude_text g3 → ending tail →
  re_match pattern (g1 +:+ g2 +:+ g3 +:+ tail)
  = Some (<[3%nat := g3]> (<[2%nat := g2]> (<[1%nat := g1]> ∅))).
Proof.
  intros H1 H2 H3 Htail. unfold re_match, pattern.
  change (run (Cat ?a ?b) ?s ?cp ?k)
    with (run a s cp (λ s' caps', run b s' caps' k)).
  apply run_coordinate; [assumption | by apply coordinate_stops_digits |].
  change (run (Cat ?a ?b) ?s ?cp ?k)
    with (run a s cp (λ s' caps', run b s' caps' k)).
  apply run_coordinate; [assumption | by apply altitude_stops_digits |].
  change (run (Cat (Opt ?a) ?b) ?s ?cp ?k)
    with (match run a s cp (λ s' caps', run b s' caps' k) with
          | Some c => Some c
          | None => run b s cp k
          end).
  rewrite (run_altitude 3 g3 tail _ (<[3%nat := g3]> (<[2%nat := g2]> (<[1%nat := g1]> ∅))));
    [reflexivity | assumption.. |].
  destruct Htail as [-> | [-> | [-> | ->]]]; reflexivity.
Qed.

End ReFacts.

(** ** The pattern of [parse_iso6709], characterised *)

Module PatternFacts.
Import Py Re GpsExtractor ReFacts.

Lemma app_nil_r (a : string) : a +:+ "" = a.
Proof. induction a as [|c a IH]; [done|]. rewrite app_cons. by f_equal. Qed.

Lemma star_sound (r : regex) (fuel : nat) :
  sound r →
  ∀ s caps k c,
    star (run r) fuel s caps k = Some c →
    ∃ t rest caps',
      s = t +:+ rest ∧ matches (Star r) t rest ∧ k rest caps' = Some c.
Proof.
  intros Hr. induction fuel as [|fuel IH]; intros s caps k c H; cbn [star] in H.
  - exists "", s, caps. split_and!; [done | constructor | done].
  - destruct (run r s caps _) as [c'|] eqn:Hstep.
    + injection H as ->.
      apply Hr in Hstep as (t1 & s1 & caps1 & -> & Hm1 & Hk).
      destruct (_ <? _)%nat; [|discriminate].
      apply IH in Hk as (t2 & rest & caps' & -> & Hm2 & Hk).
      exists (t1 +:+ t2), rest, caps'.
      split_and!; [by rewrite app_assoc | by econstructor | done].
    + exists "", s, caps. split_and!; [done | constructor | done].
Qed.

Lemma run_sound (r : regex) : sound r.
Proof.
  induction r as [p | r1 IH1 r2 IH2 | r IH | r IH | r IH | n r IH |];
    intros s caps k c H; cbn [run] in H.
  - destruct s as [|ch s]; [discriminate|].
    destruct (p ch) eqn:Hp; [|discriminate].
    exists (String ch ""), s, caps. split_and!; [done | by constructor | done].
  - apply IH1 in H as (t1 & s1 & caps1 & -> & Hm1 & H).
    apply IH2 in H as (t2 & rest & caps' & -> & Hm2 & H).
    exists (t1 +:+ t2), rest, caps'.
    split_and!; [by rewrite app_assoc | by constructor | done].
  - apply IH in H as (t1 & s1 & caps1 & -> & Hm1 & H).
    apply (star_sound r _ IH) in H as (t2 & rest & caps' & -> & Hm2 & H).
    exists (t1 +:+ t2), rest, caps'. split_and!; [by rewrite app_assoc | | done].
    clear H. remember (Star r) as sr eqn:Hsr.
    revert t1 Hm1. induction Hm2; try discriminate; injection Hsr as ->;
      intros t0 Hm0.
    + rewrite app_nil_r. rewrite app_nil in Hm0. by constructor.
    + eapply matches_plus_more; [exact Hm0|].
      by apply IHHm2_2.
  - by apply (star_sound r _ IH) in H.
  - destruct (run r s caps k) as [c'|] eqn:Hr.
    + injection H as ->.
      apply IH in Hr as (t & rest & caps' & -> & Hm & Hk).
      exists t, rest, caps'. split_and!; [done | by constructor | done].
    + exists "", s, caps. split_and!; [done | constructor | done].
  - apply IH in H as (t & rest & caps' & -> & Hm & Hk).
    eexists t, rest, _. split_and!; [done | by constructor | exact Hk].
  - destruct (String.eqb_spec s "") as [->|Hne]; simpl in H.
    + exists "", "", caps. split_and!; [done | constructor; by left | done].
    + destruct (String.eqb_spec s (String "010" "")) as [->|?]; [|discriminate].
      eexists "", _, caps. split_and!; [done | constructor; by right | done].
Qed.

(** *** From the texts of the pattern back to their description *)

Lemma all_digits_app (a b : string) :
  all_digits (a +:+ b) = all_digits a && all_digits b.
Proof.
  induction a as [|c a IH]; [done|].
  rewrite app_cons. simpl. rewrite IH. by rewrite andb_assoc.
Qed.

Lemma app_empty (a b : string) : a +:+ b = "" → a = "" ∧ b = "".
Proof. destruct a; [done | discriminate]. Qed.

Lemma matches_plus_digit (t rest : string) :
  matches (Plus digit) t rest → t ≠ "" ∧ all_digits t = true.
Proof.
  intros H. remember (Plus digit) as r eqn:Hr.
  induction H; try discriminate; injection Hr as ->.
  - inversion H; subst. simpl. split; [done|]. by rewrite andb_true_r.
  - inversion H; subst. destruct (IHmatches2 eq_refl) as [_ Hd].
    rewrite app_cons, app_nil. simpl. split; [done|].
    by apply andb_true_iff.
Qed.

Lemma matches_star_digit (t rest : string) :
  matches (Star digit) t rest → all_digits t = true.
Proof.
  intros H. remember (Star digit) as r eqn:Hr.
  induction H; try discriminate; injection Hr as ->; [done|].
  inversion H; subst. rewrite app_cons, app_nil. simpl.
  apply andb_true_iff. split; [done | by apply IHmatches2].
Qed.

Lemma matches_coordinate (g rest : string) :
  matches (Cat sign (Cat (Plus digit) (Cat dot (Plus digit)))) g rest →
  coordinate g.
Proof.
  intros H.
  inversion H as [| ? ? sg t1 ? Hsg H1 | | | | | | | |]; subst; clear H.
  inversion Hsg as [? c ? Hc | | | | | | | | |]; subst; clear Hsg.
  inversion H1 as [| ? ? ip t2 ? Hip H2 | | | | | | | |]; subst; clear H1.
  inversion H2 as [| ? ? d fp ? Hdot Hfp | | | | | | | |]; subst; clear H2.
  inversion Hdot as [? c' ? Hc' | | | | | | | | |]; subst; clear Hdot.
  apply Ascii.eqb_eq in Hc' as ->.
  apply matches_plus_digit in Hip as [? ?], Hfp as [? ?].
  exists c, ip, fp. rewrite !app_cons, !app_nil. split_and!; done.
Qed.

Lemma matches_altitude (g rest : string) :
  matches (Cat sign (Cat (Plus digit) (Cat (Opt dot) (Star digit)))) g rest →
  altitude_text g.
Proof.
  intros H.
  inversion H as [| ? ? sg t1 ? Hsg H1 | | | | | | | |]; subst; clear H.
  inversion Hsg as [? c ? Hc | | | | | | | | |]; subst; clear Hsg.
  inversion H1 as [| ? ? ip t2 ? Hip H2 | | | | | | | |]; subst; clear H1.
  inversion H2 as [| ? ? d fp ? Hdot Hfp | | | | | | | |]; subst; clear H2.
  apply matches_plus_digit in Hip as [? ?].
  apply matches_star_digit in Hfp.
  inversion Hdot as [| | | | | | ? ? | ? ? ? Hd |  |]; subst; clear Hdot.
  - rewrite app_nil.
    destruct fp as [|x fp].
    + exists c, ip, "". rewrite !app_cons, !app_nil. split_and!; auto.
    + (* digits after digits: they belong to the integer part *)
      exists c, (ip +:+ String x fp), "".
      rewrite !app_cons, !app_nil, app_nil_r, all_digits_app.
      split_and!; auto.
      * intros [? ?]%app_empty. done.
      * by apply andb_true_iff.
  - inversion Hd as [? c' ? Hc' | | | | | | | | |]; subst; clear Hd.
    apply Ascii.eqb_eq in Hc' as ->.
    exists c, ip, (String "." fp). rewrite !app_cons, !app_nil.
    split_and!; eauto.
Qed.

(** X1. The pattern accepts exactly a latitude and a longitude, then
    possibly an altitude, then one of the endings; and the groups are these
    texts. *)
Theorem pattern_accepts_exactly (t : string) (m : captures) :
  re_match pattern t = Some m ↔
  ∃ g1 g2 tail,
    coordinate g1 ∧ coordinate g2 ∧ ending tail ∧
    ((t = g1 +:+ g2 +:+ tail ∧
      m = <[2%nat := g2]> (<[1%nat := g1]> ∅)) ∨
     (∃ g3, altitude_text g3 ∧ t = g1 +:+ g2 +:+ g3 +:+ tail ∧
            m = <[3%nat := g3]> (<[2%nat := g2]> (<[1%nat := g1]> ∅)))).
Proof.
  split.
  - intros Hrun.
    assert (Hshape : ∃ g1 g2 tail,
      coordinate g1 ∧ coordinate g2 ∧ ending tail ∧
      (t = g1 +:+ g2 +:+ tail ∨
       ∃ g3, altitude_text g3 ∧ t = g1 +:+ g2 +:+ g3 +:+ tail)).
    { unfold re_match in Hrun.
      apply run_sound in Hrun as (t' & rest & _ & -> & H & _).
      unfold pattern in H.
      inversion H as [| ? ? g1 u1 ? Hg1 H1 | | | | | | | |]; subst; clear H.
      inversion Hg1 as [| | | | | | | | ? ? ? ? Hc1 |]; subst; clear Hg1.
      inversion H1 as [| ? ? g2 u2 ? Hg2 H2 | | | | | | | |]; subst; clear H1.
      inversion Hg2 as [| | | | | | | | ? ? ? ? Hc2 |]; subst; clear Hg2.
      inversion H2 as [| ? ? a u3 ? Ha H3 | | | | | | | |]; subst; clear H2.
      inversion H3 as [| ? ? sl u4 ? Hsl H4 | | | | | | | |]; subst; clear H3.
      inversion H4 as [| | | | | | | | | ? Hrest]; subst; clear H4.
      apply matches_coordinate in Hc1, Hc2.
      assert (Htail : ending (sl +:+ rest)).
      { inversion Hsl as [| | | | | | ? ? | ? ? ? Hs | |]; subst; clear Hsl.
        - rewrite app_nil. unfold ending. destruct Hrest as [-> | ->]; auto.
        - inversion Hs as [? c' ? Hc' | | | | | | | | |]; subst; clear Hs.
          apply Ascii.eqb_eq in Hc' as ->. rewrite app_cons, app_nil.
          unfold ending. destruct Hrest as [-> | ->]; auto. }
      exists g1, g2, (sl +:+ rest). split_and!; [done..|].
      assert (Heq : (g1 +:+ g2 +:+ a +:+ sl +:+ "") +:+ rest
                    = g1 +:+ g2 +:+ a +:+ sl +:+ rest)
        by (by rewrite app_nil_r, !app_assoc).
      rewrite Heq. clear Heq.
      inversion Ha as [| | | | | | ? ? | ? ? ? Hg3 | |]; subst; clear Ha.
      - left. reflexivity.
      - right. inversion Hg3 as [| | | | | | | | ? ? ? ? Hc3 |]; subst.
        apply matches_altitude in Hc3. eauto. }
    destruct Hshape as (g1 & g2 & tail & H1 & H2 & Htail & [-> | (g3 & H3 & ->)]);
      exists g1, g2, tail; (split_and!; [done..|]).
    + left. split; [done|].
      rewrite match_without_altitude in Hrun by done. by injection Hrun.
    + right. exists g3. split_and!; [done..|].
      rewrite match_with_altitude in Hrun by done. by injection Hrun.
  - intros (g1 & g2 & tail & H1 & H2 & Htail &
            [[-> ->] | (g3 & H3 & -> & ->)]).
    + by apply match_without_altitude.
    + by apply match_with_altitude.
Qed.

Example pattern_on_full_location :
  re_match pattern "+50.8019+012.9069+311.398/"
  = Some (<[3%nat := "+311.398"]>
            (<[2%nat := "+012.9069"]> (<[1%nat := "+50.8019"]> ∅))).
Proof. vm_compute. reflexivity. Qed.

Example pattern_rejects_whole_degrees : re_match pattern "+40-075/" = None.
Proof. vm_compute. reflexivity. Qed.

End PatternFacts.

(** ** GPS metadata *)

Module GpsFacts.
Import Py Host Colorspace Re GpsExtractor ReFacts.

Lemma float_str_cases (env : Env) (s : string) :
  (∃ f, float_of_str env s = Some f ∧ float_str env s = Ok f) ∨
  (float_of_str env s = None ∧ float_str env s = Raise ValueError).
Proof. unfold float_str. destruct (float_of_str env s); eauto. Qed.

(** On a string [parse_iso6709] returns: nothing is raised. *)
Lemma parse_iso6709_str_returns (env : Env) (s : string) :
  ∃ r, parse_iso6709 env (JStr s) = Ok r.
Proof.
  unfold parse_iso6709.
  destruct (truthy (JStr s)); simpl; [|eauto].
  destruct (re_match pattern (strip s)) as [m|]; [|eauto].
  destruct (float_str_cases env (default "" (m !! 1%nat)))
    as [(f1 & _ & ->) | (_ & ->)]; simpl; [|eauto].
  destruct (float_str_cases env (default "" (m !! 2%nat)))
    as [(f2 & _ & ->) | (_ & ->)]; simpl; [|eauto].
  destruct (m !! 3%nat) as [g3|]; simpl; [|eauto].
  destruct (String.eqb g3 ""); simpl; [eauto|].
  destruct (float_str_cases env g3) as [(f3 & _ & ->) | (_ & ->)]; simpl; eauto.
Qed.

(** Whatever [parse_iso6709] accepts has no accuracy yet. *)
Lemma parse_iso6709_accuracy (env : Env) (v : json) (gps : GPSData) :
  parse_iso6709 env v = Ok (Some gps) → accuracy gps = None.
Proof.
  unfold parse_iso6709.
  destruct (truthy v); simpl; [|discriminate].
  destruct (strip_method v) as [stripped|]; simpl; [|discriminate].
  destruct (re_match pattern stripped) as [m|]; [|discriminate].
  destruct (float_str env (default "" (m !! 1%nat))) as [f1|e1]; simpl;
    [|destruct e1; discriminate].
  destruct (float_str env (default "" (m !! 2%nat))) as [f2|e2]; simpl;
    [|destruct e2; discriminate].
  destruct (match m !! 3%nat with
            | Some g3 => if negb (String.eqb g3 "") then float_str env g3
                         else Ok 0%float
            | None => Ok 0%float
            end) as [f3|e3]; simpl; [|destruct e3; discriminate].
  intros [= <-]. reflexivity.
Qed.

Lemma captures_lat_lon (g1 g2 : string) :
  let m : captures := <[2%nat := g2]> (<[1%nat := g1]> ∅) in
  m !! 1%nat = Some g1 ∧ m !! 2%nat = Some g2 ∧ m !! 3%nat = None.
Proof.
  intros m. unfold m. split_and!.
  - by rewrite lookup_insert_ne, lookup_insert_eq.
  - by rewrite lookup_insert_eq.
  - by rewrite !lookup_insert_ne, lookup_empty.
Qed.

(** C10. [parse_iso6709] returns [None] on the empty string and on every
    string the pattern does not match. On a string without altitude
    component, whatever it returns has altitude exactly [0.0] and no
    accuracy. "Without altitude component" is read both ways: group 3 of the
    match took no part; and the stripped string is a latitude and a
    longitude with or without the closing slash, in which case the latitude
    and longitude returned are the floats of the two coordinate texts. *)
Theorem parse_iso6709_without_altitude (env : Env) (s : string) :
  (s = "" ∨ re_match pattern (strip s) = None →
   parse_iso6709 env (JStr s) = Ok None) ∧
  (∀ m gps,
     re_match pattern (strip s) = Some m → m !! 3%nat = None →
     parse_iso6709 env (JStr s) = Ok (Some gps) →
     altitude gps = 0%float ∧ accuracy gps = None) ∧
  (∀ g1 g2 tail gps,
     strip s = g1 +:+ g2 +:+ tail →
     coordinate g1 → coordinate g2 → tail = "" ∨ tail = "/" →
     parse_iso6709 env (JStr s) = Ok (Some gps) →
     altitude gps = 0%float ∧ accuracy gps = None ∧
     float_of_str env g1 = Some (latitude gps) ∧
     float_of_str env g2 = Some (longitude gps)).
Proof.
  split_and!.
  - intros [-> | Hno]; [reflexivity|].
    unfold parse_iso6709. destruct (truthy (JStr s)); simpl; [|reflexivity].
    rewrite Hno. reflexivity.
  - intros m gps Hm H3 Hp.
    pose proof (parse_iso6709_accuracy _ _ _ Hp) as Hacc.
    split; [|assumption].
    revert Hp. unfold parse_iso6709.
    destruct (truthy (JStr s)); simpl; [|discriminate].
    rewrite Hm, H3.
    destruct (float_str env (default "" (m !! 1%nat))) as [f1|e1]; simpl;
      [|destruct e1; discriminate].
    destruct (float_str env (default "" (m !! 2%nat))) as [f2|e2]; simpl;
      [|destruct e2; discriminate].
    intros [= <-]. reflexivity.
  - intros g1 g2 tail gps Hs H1 H2 Htail Hp.
    pose proof (parse_iso6709_accuracy _ _ _ Hp) as Hacc.
    revert Hp. unfold parse_iso6709.
    destruct (truthy (JStr s)); simpl; [|discriminate].
    rewrite Hs, (match_without_altitude g1 g2 tail)
      by (unfold ending; tauto).
    destruct (captures_lat_lon g1 g2) as (-> & -> & ->). simpl.
    destruct (float_str_cases env g1) as [(f1 & E1 & ->) | (_ & ->)]; simpl;
      [|discriminate].
    destruct (float_str_cases env g2) as [(f2 & E2 & ->) | (_ & ->)]; simpl;
      [|discriminate].
    intros [= <-]. simpl. auto.
Qed.

Example parse_iso6709_lat_lon :
  parse_iso6709 (Fixtures.host (Raise TimeoutExpired) [])
    (JStr "+50.8019-012.9069/")
  = Ok (Some {| latitude := 0x1.966a4a8c154cap+5;
                longitude := (-0x1.9d05532617c1cp+3);
                altitude := 0;
                accuracy := None |}).
Proof. vm_compute. reflexivity. Qed.

Example parse_iso6709_lat_lon_alt :
  parse_iso6709 (Fixtures.host (Raise TimeoutExpired) [])
    (JStr "+50.8019+012.9069+311.398/")
  = Ok (Some {| latitude := 0x1.966a4a8c154cap+5;
                longitude := 0x1.9d05532617c1cp+3;
                altitude := 0x1.3765e353f7ceep+8;
                accuracy := None |}).
Proof. vm_compute. reflexivity. Qed.

Example parse_iso6709_rejects :
  parse_iso6709 (Fixtures.host (Raise TimeoutExpired) []) (JStr "+40-075/")
  = Ok None.
Proof. vm_compute. reflexivity. Qed.

Lemma parse_iso6709_some_nonempty (env : Env) (s : string) (gps : GPSData) :
  parse_iso6709 env (JStr s) = Ok (Some gps) → truthy (JStr s) = true.
Proof.
  unfold parse_iso6709. destruct (truthy (JStr s)); [reflexivity|discriminate].
Qed.

(** What [extract_gps_from_video] does once the probe has printed the tags. *)
Lemma extract_gps_on_tags (env : Env) (video_path : string)
    (tags : gmap string json) :
  probe_tags env video_path tags →
  extract_gps_from_video env video_path =
  try_except
    (location_str ← get (JDict tags) location_key JNull;
     if truthy location_str then
       gps ← parse_iso6709 env location_str;
       match gps with
       | Some gps =>
           accuracy_str ← get (JDict tags) accuracy_key JNull;
           if truthy accuracy_str then
             try_except
               (a ← float_any env accuracy_str;
                Ok (Some (with_accuracy gps (Some a))))
               [CValueError]
               (Ok (Some gps))
           else Ok (Some gps)
       | None => Ok None
       end
     else Ok None)
    [CTimeoutExpired; CFileNotFoundError; CJSONDecodeError; COSError]
    (Ok None).
Proof.
  intros (r & d & Hrun & Hrc & Hjson & Htags).
  unfold extract_gps_from_video. rewrite Hrun. simpl.
  rewrite Hrc. simpl. unfold loads. rewrite Hjson. simpl.
  rewrite Htags. reflexivity.
Qed.

(** C5, as the code has it. [extract_gps_from_video] returns [None] when the
    probe fails (non-zero exit, timeout, missing executable, output that is
    not JSON). When the probe prints its tags, it returns [None] if there is
    no location tag, if the tag is empty, or if [parse_iso6709] rejects it;
    and if [parse_iso6709] accepts the tag it returns that GPS data, with
    the accuracy set exactly when the accuracy tag is a non-empty string
    that [float] reads, and left [None] when the accuracy tag is absent,
    empty or unreadable. Nothing is raised in any of these cases. *)
Theorem extract_gps_cases (env : Env) (video_path : string) :
  (gps_probe_failure env video_path →
   extract_gps_from_video env video_path = Ok None) ∧
  (∀ tags, probe_tags env video_path tags →
     (tags !! location_key = None ∨ tags !! location_key = Some (JStr "") →
      extract_gps_from_video env video_path = Ok None) ∧
     (∀ s, tags !! location_key = Some (JStr s) →
        (parse_iso6709 env (JStr s) = Ok None →
         extract_gps_from_video env video_path = Ok None) ∧
        (∀ gps, parse_iso6709 env (JStr s) = Ok (Some gps) →
           (tags !! accuracy_key = None ∨
            tags !! accuracy_key = Some (JStr "") →
            extract_gps_from_video env video_path = Ok (Some gps)) ∧
           (∀ a, tags !! accuracy_key = Some (JStr a) →
              extract_gps_from_video env video_path
              = Ok (Some (with_accuracy gps
                            (if String.eqb a "" then None
                             else float_of_str env a))))))).
Proof.
  split.
  - intros [r Hrun Hrc | Hrun | Hrun | Hrun | r Hrun Hrc Hjson];
      unfold extract_gps_from_video; rewrite Hrun; simpl; try reflexivity.
    + apply Z.eqb_neq in Hrc. rewrite Hrc. reflexivity.
    + rewrite Hrc. simpl. unfold loads. rewrite Hjson. reflexivity.
  - intros tags Htags. rewrite (extract_gps_on_tags _ _ _ Htags).
    unfold get. split.
    + intros [-> | ->]; reflexivity.
    + intros s ->. simpl. split.
      * intros Hp. destruct (negb (String.eqb s "")); [|reflexivity].
        rewrite Hp. reflexivity.
      * intros gps Hp.
        pose proof (parse_iso6709_some_nonempty _ _ _ Hp) as Hne.
        simpl in Hne. rewrite Hne, Hp. simpl. split.
        -- intros [-> | ->]; reflexivity.
        -- intros a ->. simpl.
           destruct (String.eqb a ""); simpl; [reflexivity|].
           unfold float_str. destruct (float_of_str env a); reflexivity.
Qed.

(** C5, as stated, fails: the probe succeeds and the metadata carries a
    location tag whose text is ISO 6709 (whole degrees, no decimal point),
    and still the result is [None], because the pattern wants a decimal
    point in both coordinates. *)
Lemma location_tag_present_yet_none :
  let tags : gmap string json := {[ location_key := JStr "+40-075/" ]} in
  let env := Fixtures.host_printing
               (JDict {[ "format" := JDict {[ "tags" := JDict tags ]} ]}) in
  probe_tags env "clip.mov" tags ∧
  tags !! location_key = Some (JStr "+40-075/") ∧
  extract_gps_from_video env "clip.mov" = Ok None.
Proof.
  intros tags env. split_and!.
  - exists {| returncode := 0; stdout := "<json>" |}. eexists.
    split_and!; [reflexivity | reflexivity | reflexivity |].
    vm_compute. reflexivity.
  - vm_compute. reflexivity.
  - vm_compute. reflexivity.
Qed.

(** A clip with a location and an accuracy. *)
Example extract_gps_with_accuracy :
  extract_gps_from_video
    (Fixtures.host_printing
       (JDict {[ "format" := JDict {[ "tags" := JDict
          {[ location_key := JStr "+50.8019+012.9069+311.398/";
             accuracy_key := JStr "4.76" ]} ]} ]}))
    "clip.mov"
  = Ok (Some {| latitude := 0x1.966a4a8c154cap+5;
                longitude := 0x1.9d05532617c1cp+3;
                altitude := 0x1.3765e353f7ceep+8;
                accuracy := Some 0x1.30a3d70a3d70ap+2%float |}).
Proof. vm_compute. reflexivity. Qed.

(** An accuracy tag that is not a number leaves the accuracy out. *)
Example extract_gps_unreadable_accuracy :
  extract_gps_from_video
    (Fixtures.host_printing
       (JDict {[ "format" := JDict {[ "tags" := JDict
          {[ location_key := JStr "+50.8019+012.9069/";
             accuracy_key := JStr "about five" ]} ]} ]}))
    "clip.mov"
  = Ok (Some {| latitude := 0x1.966a4a8c154cap+5;
                longitude := 0x1.9d05532617c1cp+3;
                altitude := 0;
                accuracy := None |}).
Proof. vm_compute. reflexivity. Qed.

(** Outside these cases the function can raise: a probe that prints a JSON
    array has no [get]. *)
Example extract_gps_raises_on_array :
  extract_gps_from_video (Fixtures.host_printing (JList [])) "clip.mov"
  = Raise AttributeError.
Proof. vm_compute. reflexivity. Qed.

(** X5. With string-valued (or absent) location and accuracy tags, nothing
    is raised. *)
Theorem extract_gps_returns (env : Env) (video_path : string)
    (tags : gmap string json) :
  probe_tags env video_path tags →
  text_or_absent tags location_key →
  text_or_absent tags accuracy_key →
  ∃ r, extract_gps_from_video env video_path = Ok r.
Proof.
  intros Htags Hloc Hacc.
  rewrite (extract_gps_on_tags _ _ _ Htags). unfold get.
  destruct Hloc as [-> | [s ->]]; simpl; [eauto|].
  destruct (negb (String.eqb s "")); [|eauto].
  destruct (parse_iso6709_str_returns env s) as [[gps|] ->]; simpl; [|eauto].
  destruct Hacc as [-> | [a ->]]; simpl; [eauto|].
  destruct (negb (String.eqb a "")); [|eauto].
  unfold float_str. destruct (float_of_str env a); simpl; eauto.
Qed.

Lemma extract_gps_returns_witness :
  let tags : gmap string json :=
    {[ location_key := JStr "+50.8019+012.9069/";
       accuracy_key := JStr "about five" ]} in
  let env := Fixtures.host_printing
               (JDict {[ "format" := JDict {[ "tags" := JDict tags ]} ]}) in
  ∃ r, extract_gps_from_video env "clip.mov" = Ok r.
Proof.
  intros tags env.
  apply (extract_gps_returns env "clip.mov" tags).
  - exists {| returncode := 0; stdout := "<json>" |}. eexists.
    split_and!; [reflexivity | reflexivity | reflexivity |].
    vm_compute. reflexivity.
  - right. eexists. vm_compute. reflexivity.
  - right. eexists. vm_compute. reflexivity.
Defined.

(** *** White space around the location text *)

Lemma lstrip_head (s : string) :
  match lstrip s with
  | String c _ => is_space c = false
  | EmptyString => True
  end.
Proof.
  induction s as [|c s IH]; simpl; [done|].
  destruct (is_space c) eqn:E; [assumption|]. simpl. assumption.
Qed.

Lemma rstrip_head (c : ascii) (s : string) :
  is_space c = false → ∃ r, rstrip (String c s) = String c r.
Proof. intros Hc. simpl. destruct (rstrip s); rewrite ?Hc; eauto. Qed.

Lemma rstrip_idem (s : string) : rstrip (rstrip s) = rstrip s.
Proof.
  induction s as [|c s IH]; simpl; [done|].
  destruct (rstrip s) as [|c' r] eqn:E.
  - destruct (is_space c) eqn:Hc; simpl; [done|]. by rewrite Hc.
  - simpl in IH |- *.
    destruct (rstrip r) as [|c'' r'] eqn:E'.
    + destruct (is_space c') eqn:Hc'; [discriminate IH|].
      injection IH as <-. simpl. done.
    + by rewrite IH.
Qed.

Lemma strip_idem (s : string) : strip (strip s) = strip s.
Proof.
  unfold strip.
  assert (H : lstrip (rstrip (lstrip s)) = rstrip (lstrip s)).
  { pose proof (lstrip_head s) as Hh.
    destruct (lstrip s) as [|c r]; [reflexivity|].
    destruct (rstrip_head c r Hh) as [r' ->]. simpl. by rewrite Hh. }
  rewrite H. apply rstrip_idem.
Qed.

(** X12. White space before and after the location text plays no part:
    [parse_iso6709] gives the same result on a string and on the string
    stripped. A string of white space only is rejected like the empty
    string. *)
Theorem parse_iso6709_ignores_blanks (env : Env) (s : string) :
  parse_iso6709 env (JStr s) = parse_iso6709 env (JStr (strip s)).
Proof.
  unfold parse_iso6709, strip_method. rewrite !ColorspaceFacts.truthy_str.
  destruct (String.eqb_spec s "") as [->|Hs]; [reflexivity|].
  destruct (String.eqb_spec (strip s) "") as [->|Hs']; simpl.
  - reflexivity.
  - by rewrite strip_idem.
Qed.

Example parse_iso6709_blank : 
  parse_iso6709 (Fixtures.host (Raise TimeoutExpired) []) (JStr "   ")
  = Ok None.
Proof. vm_compute. reflexivity. Qed.

(** *** Well-formed location texts *)

Lemma captures_lat_lon_alt (g1 g2 g3 : string) :
  let m : captures := <[3%nat := g3]> (<[2%nat := g2]> (<[1%nat := g1]> ∅)) in
  m !! 1%nat = Some g1 ∧ m !! 2%nat = Some g2 ∧ m !! 3%nat = Some g3.
Proof.
  intros m. unfold m. split_and!.
  - do 2 (rewrite lookup_insert_ne by done). by rewrite lookup_insert_eq.
  - rewrite lookup_insert_ne by done. by rewrite lookup_insert_eq.
  - by rewrite lookup_insert_eq.
Qed.

(** X13. On a well-formed text the result of [parse_iso6709] is decided by
    [float] alone. The stripped text is a latitude [g1], a longitude [g2],
    possibly an altitude [g3], possibly the closing slash. If [float] reads
    every number, the result is the GPS data with exactly these floats,
    altitude [0.0] when there is no altitude text, and no accuracy; if
    [float] rejects one of them, the result is [None]. Nothing is
    raised. *)
Theorem parse_iso6709_on_well_formed (env : Env) (s g1 g2 g3 tail : string) :
  strip s = g1 +:+ g2 +:+ g3 +:+ tail →
  coordinate g1 → coordinate g2 → g3 = "" ∨ altitude_text g3 →
  tail = "" ∨ tail = "/" →
  parse_iso6709 env (JStr s) =
  Ok (lat ← float_of_str env g1;
      lon ← float_of_str env g2;
      alt ← (if String.eqb g3 "" then Some 0%float else float_of_str env g3);
      Some {| latitude := lat; longitude := lon; altitude := alt;
              accuracy := None |}).
Proof.
  intros Hs H1 H2 H3 Htail.
  assert (Hend : ending tail) by (unfold ending; tauto).
  assert (Hne : s ≠ "").
  { intros ->. destruct H1 as (sg & ip & fp & -> & _).
    rewrite app_cons in Hs. discriminate. }
  unfold parse_iso6709, strip_method. rewrite ColorspaceFacts.truthy_str.
  destruct (String.eqb_spec s "") as [?|_]; [done|]. simpl.
  rewrite Hs. destruct H3 as [-> | H3].
  - rewrite app_nil, (match_without_altitude g1 g2 tail) by done.
    destruct (captures_lat_lon g1 g2) as (-> & -> & ->). simpl.
    unfold float_str.
    destruct (float_of_str env g1); simpl; [|reflexivity].
    destruct (float_of_str env g2); simpl; reflexivity.
  - rewrite (match_with_altitude g1 g2 g3 tail) by done.
    destruct (captures_lat_lon_alt g1 g2 g3) as (-> & -> & ->). simpl.
    assert (Hg3 : String.eqb g3 "" = false).
    { destruct H3 as (sg & ip & frac & -> & _). reflexivity. }
    rewrite Hg3. simpl. unfold float_str.
    destruct (float_of_str env g1); simpl; [|reflexivity].
    destruct (float_of_str env g2); simpl; [|reflexivity].
    destruct (float_of_str env g3); simpl; reflexivity.
Qed.

Lemma parse_iso6709_on_well_formed_witness :
  let env := Fixtures.host (Raise TimeoutExpired) [] in
  parse_iso6709 env (JStr " +50.8019-012.9069+311/ ") =
  Ok (lat ← float_of_str env "+50.8019";
      lon ← float_of_str env "-012.9069";
      alt ← (if String.eqb "+311" "" then Some 0%float
             else float_of_str env "+311");
      Some {| latitude := lat; longitude := lon; altitude := alt;
              accuracy := None |}).
Proof.
  intros env.
  apply (parse_iso6709_on_well_formed env " +50.8019-012.9069+311/ "
           "+50.8019" "-012.9069" "+311" "/").
  - vm_compute. reflexivity.
  - exists "+"%char, "50", "8019". split_and!; (reflexivity || discriminate).
  - exists "-"%char, "012", "9069". split_and!; (reflexivity || discriminate).
  - right. exists "+"%char, "311", "".
    split_and!; try (reflexivity || discriminate). by left.
  - right. reflexivity.
Defined.

End GpsFacts.

(** ** EXIF embedding *)

Module ExifFacts.
Import Py Host GpsExtractor ExifWriter.

Lemma abs_idem (x : float) : PrimFloat.abs (PrimFloat.abs x) = PrimFloat.abs x.
Proof.
  apply Prim2SF_inj. rewrite !abs_spec. by destruct (Prim2SF x).
Qed.

(** [decimal_to_dms] sees the magnitude of its argument only. *)
Lemma decimal_to_dms_abs (x : float) :
  decimal_to_dms (PrimFloat.abs x) = decimal_to_dms x.
Proof. unfold decimal_to_dms. rewrite abs_idem. reflexivity. Qed.

Lemma abs_opp (x : float) : PrimFloat.abs (- x) = PrimFloat.abs x.
Proof.
  apply Prim2SF_inj. rewrite !abs_spec, opp_spec. by destruct (Prim2SF x).
Qed.

(** X4. The hemisphere does not enter the degrees, minutes and seconds: a
    coordinate and its opposite convert alike. *)
Theorem decimal_to_dms_opp (x : float) :
  decimal_to_dms (- x) = decimal_to_dms x.
Proof. unfold decimal_to_dms. rewrite abs_opp. reflexivity. Qed.

(** What is in the GPS IFD that [build_gps_ifd] builds. *)
Lemma build_gps_ifd_inv (gps : GPSData) (gps_ifd : ifd) :
  build_gps_ifd gps = Ok gps_ifd →
  gps_ifd !! GPSIFD.GPSLatitudeRef
    = Some (Bytes (if ge0 (latitude gps) then "N" else "S")) ∧
  gps_ifd !! GPSIFD.GPSLongitudeRef
    = Some (Bytes (if ge0 (longitude gps) then "E" else "W")) ∧
  gps_ifd !! GPSIFD.GPSAltitudeRef
    = Some (Int (if ge0 (altitude gps) then 0 else 1)) ∧
  (∃ dms, gps_ifd !! GPSIFD.GPSLatitude = Some (Rational3 dms) ∧
          decimal_to_dms (PrimFloat.abs (latitude gps)) = Ok dms) ∧
  (∃ dms, gps_ifd !! GPSIFD.GPSLongitude = Some (Rational3 dms) ∧
          decimal_to_dms (PrimFloat.abs (longitude gps)) = Ok dms) ∧
  (∃ cm, gps_ifd !! GPSIFD.GPSAltitude = Some (Rational (cm, 100)) ∧
         int_of_float (PrimFloat.abs (altitude gps) * 100)%float = Ok cm).
Proof.
  unfold build_gps_ifd. intros H.
  rewrite !decimal_to_dms_abs.
  destruct (decimal_to_dms (latitude gps)) as [lat|] eqn:Elat; simpl in H;
    [|discriminate].
  destruct (decimal_to_dms (longitude gps)) as [lon|] eqn:Elon; simpl in H;
    [|discriminate].
  destruct (int_of_float _) as [cm|] eqn:Ealt; simpl in H; [|discriminate].
  assert (Hin : ∃ extra : ifd,
    gps_ifd = extra ∪
      <[GPSIFD.GPSAltitude := Rational (cm, 100)]>
      (<[GPSIFD.GPSAltitudeRef := Int (if ge0 (altitude gps) then 0 else 1)]>
      (<[GPSIFD.GPSLongitude := Rational3 lon]>
      (<[GPSIFD.GPSLongitudeRef := Bytes (if ge0 (longitude gps) then "E" else "W")]>
      (<[GPSIFD.GPSLatitude := Rational3 lat]>
      (<[GPSIFD.GPSLatitudeRef := Bytes (if ge0 (latitude gps) then "N" else "S")]>
       ∅))))) ∧
    (extra = ∅ ∨ ∃ v, extra = {[ GPSIFD.GPSHPositioningError := v ]})).
  { destruct (accuracy gps) as [acc|].
    - destruct (int_of_float (acc * 100)) as [a|]; simpl in H; [|discriminate].
      injection H as <-. eexists. split; [|right; eauto].
      rewrite <- insert_union_singleton_l. reflexivity.
    - injection H as <-. exists ∅. split; [|by left].
      by rewrite (left_id_L ∅ (∪)). }
  destruct Hin as (extra & -> & Hextra).
  assert (Hlook : ∀ (k : Z) (m : ifd), k ≠ GPSIFD.GPSHPositioningError →
            (extra ∪ m) !! k = m !! k).
  { intros k m Hk. destruct Hextra as [-> | [v ->]].
    - by rewrite (left_id_L ∅ (∪)).
    - rewrite lookup_union_r; [done|]. by apply lookup_singleton_ne. }
  unfold GPSIFD.GPSLatitudeRef, GPSIFD.GPSLatitude, GPSIFD.GPSLongitudeRef,
    GPSIFD.GPSLongitude, GPSIFD.GPSAltitudeRef, GPSIFD.GPSAltitude,
    GPSIFD.GPSHPositioningError in *.
  split_and!.
  - rewrite Hlook by done. by simplify_map_eq.
  - rewrite Hlook by done. by simplify_map_eq.
  - rewrite Hlook by done. by simplify_map_eq.
  - exists lat. split; [|reflexivity]. rewrite Hlook by done. by simplify_map_eq.
  - exists lon. split; [|reflexivity]. rewrite Hlook by done. by simplify_map_eq.
  - exists cm. split; [|reflexivity]. rewrite Hlook by done. by simplify_map_eq.
Qed.

(** The run of [embed_gps_in_jpeg] on an existing file, step by step. *)
Lemma embed_gps_unfold (px : Piexif) (jpeg_path : string) (gps : GPSData)
    (fs : FS px) :
  path_exists px jpeg_path fs = true →
  embed_gps_in_jpeg px jpeg_path gps fs =
  match try_except (piexif_load px jpeg_path fs) [CInvalidImageDataError]
          (Ok empty_exif) with
  | Raise _ => (Ok false, fs)
  | Ok exif =>
      match build_gps_ifd gps with
      | Raise _ => (Ok false, fs)
      | Ok gps_ifd =>
          match piexif_dump px (<["GPS" := Ifd gps_ifd]> exif) with
          | Raise _ => (Ok false, fs)
          | Ok exif_bytes =>
              match piexif_insert px exif_bytes jpeg_path fs with
              | (Ok _, fs') => (Ok true, fs')
              | (Raise _, fs') => (Ok false, fs')
              end
          end
      end
  end.
Proof.
  intros Hex. unfold embed_gps_in_jpeg. rewrite Hex. simpl.
  unfold try_except_io, mbind, io_bind, pure.
  destruct (try_except _ _ _) as [exif|e]; simpl; [|reflexivity].
  destruct (build_gps_ifd gps) as [gps_ifd|e]; simpl; [|reflexivity].
  destruct (piexif_dump px _) as [exif_bytes|e]; simpl; [|reflexivity].
  destruct (piexif_insert px exif_bytes jpeg_path fs) as [[[]|e] fs'];
    reflexivity.
Qed.

Lemma loaded_iff (px : Piexif) (jpeg_path : string) (fs : FS px)
    (exif : exif_dict) :
  try_except (piexif_load px jpeg_path fs) [CInvalidImageDataError]
    (Ok empty_exif) = Ok exif ↔ loaded px jpeg_path fs exif.
Proof.
  unfold loaded. destruct (piexif_load px jpeg_path fs) as [x|e]; simpl.
  - split; [intros [= <-]; by left | intros [[= <-] | [? _]]; done].
  - destruct e; simpl; split;
      try (intros [= <-]; right; done);
      try (intros [? | [_ ->]]; done);
      intros [? | [? _]]; done.
Qed.

(** A successful embedding went through every step. *)
Lemma embed_gps_true_inv (px : Piexif) (jpeg_path : string) (gps : GPSData)
    (fs fs' : FS px) :
  embed_gps_in_jpeg px jpeg_path gps fs = (Ok true, fs') →
  path_exists px jpeg_path fs = true ∧
  ∃ exif gps_ifd exif_bytes,
    loaded px jpeg_path fs exif ∧
    build_gps_ifd gps = Ok gps_ifd ∧
    piexif_dump px (<["GPS" := Ifd gps_ifd]> exif) = Ok exif_bytes ∧
    piexif_insert px exif_bytes jpeg_path fs = (Ok (), fs').
Proof.
  intros H.
  destruct (path_exists px jpeg_path fs) eqn:Hex.
  2:{ unfold embed_gps_in_jpeg in H. rewrite Hex in H. discriminate. }
  split; [reflexivity|].
  rewrite embed_gps_unfold in H by assumption.
  destruct (try_except _ _ _) as [exif|e] eqn:Hload; [|discriminate].
  apply loaded_iff in Hload.
  destruct (build_gps_ifd gps) as [gps_ifd|e]; [|discriminate].
  destruct (piexif_dump px _) as [exif_bytes|e] eqn:Hdump; [|discriminate].
  destruct (piexif_insert px exif_bytes jpeg_path fs) as [[[]|e] fs1] eqn:Hins;
    [|discriminate].
  injection H as <-. eauto 10.
Qed.

(** Whatever [piexif] does, [embed_gps_in_jpeg] returns a boolean and never
    raises. The boolean is [True] exactly when the file exists,
    [piexif.load] returned (or raised [InvalidImageDataError], in which case
    the empty EXIF structure stands in), the GPS IFD could be built, and
    [piexif.dump] and [piexif.insert] both succeeded. *)
Theorem embed_gps_returns_success_flag (px : Piexif) (jpeg_path : string)
    (gps : GPSData) (fs : FS px) :
  ∃ b fs',
    embed_gps_in_jpeg px jpeg_path gps fs = (Ok b, fs') ∧
    (path_exists px jpeg_path fs = false → b = false ∧ fs' = fs) ∧
    (b = true ↔
       path_exists px jpeg_path fs = true ∧
       ∃ exif gps_ifd exif_bytes,
         loaded px jpeg_path fs exif ∧
         build_gps_ifd gps = Ok gps_ifd ∧
         piexif_dump px (<["GPS" := Ifd gps_ifd]> exif) = Ok exif_bytes ∧
         piexif_insert px exif_bytes jpeg_path fs = (Ok (), fs')).
Proof.
  destruct (embed_gps_in_jpeg px jpeg_path gps fs) as [[b|e] fs'] eqn:H.
  2:{ exfalso. destruct (path_exists px jpeg_path fs) eqn:Hex.
      - rewrite embed_gps_unfold in H by assumption.
        repeat (match type of H with
                | match ?x with _ => _ end = _ => destruct x
                end; try discriminate).
      - unfold embed_gps_in_jpeg in H. rewrite Hex in H. discriminate. }
  exists b, fs'. split; [reflexivity|]. split.
  - intros Hex. unfold embed_gps_in_jpeg in H. rewrite Hex in H.
    by injection H as <- <-.
  - split.
    + intros ->. by apply embed_gps_true_inv.
    + intros (Hex & exif & gps_ifd & exif_bytes & Hl & Hb & Hd & Hi).
      rewrite embed_gps_unfold in H by assumption.
      apply loaded_iff in Hl. rewrite Hl, Hb, Hd, Hi in H.
      by injection H as <-.
Qed.

(** C6. For a [piexif] whose [insert] rejects what its [load] rejected as
    invalid image data, [embed_gps_in_jpeg] always returns a boolean and
    never raises. It returns [False] when the file does not exist, when
    [piexif.load] fails in any way, when the GPS IFD cannot be built, when
    [piexif.dump] fails and when [piexif.insert] fails; and it returns
    [True] exactly when the file exists and loading, building, dumping and
    inserting all succeeded. *)
Theorem embed_gps_false_on_any_failure (px : Piexif) (jpeg_path : string)
    (gps : GPSData) (fs : FS px) :
  insert_rejects_invalid_image px →
  ∃ b fs',
    embed_gps_in_jpeg px jpeg_path gps fs = (Ok b, fs') ∧
    (path_exists px jpeg_path fs = false → b = false ∧ fs' = fs) ∧
    ((∃ e, piexif_load px jpeg_path fs = Raise e) → b = false) ∧
    ((∃ e, build_gps_ifd gps = Raise e) → b = false) ∧
    (∀ exif gps_ifd,
       piexif_load px jpeg_path fs = Ok exif → build_gps_ifd gps = Ok gps_ifd →
       (∃ e, piexif_dump px (<["GPS" := Ifd gps_ifd]> exif) = Raise e) →
       b = false) ∧
    (∀ exif gps_ifd exif_bytes,
       piexif_load px jpeg_path fs = Ok exif → build_gps_ifd gps = Ok gps_ifd →
       piexif_dump px (<["GPS" := Ifd gps_ifd]> exif) = Ok exif_bytes →
       (∃ e fs1, piexif_insert px exif_bytes jpeg_path fs = (Raise e, fs1)) →
       b = false) ∧
    (b = true ↔
       path_exists px jpeg_path fs = true ∧
       ∃ exif gps_ifd exif_bytes,
         piexif_load px jpeg_path fs = Ok exif ∧
         build_gps_ifd gps = Ok gps_ifd ∧
         piexif_dump px (<["GPS" := Ifd gps_ifd]> exif) = Ok exif_bytes ∧
         piexif_insert px exif_bytes jpeg_path fs = (Ok (), fs')).
Proof.
  intros Hpx.
  destruct (embed_gps_in_jpeg px jpeg_path gps fs) as [[b|e] fs'] eqn:H.
  2:{ exfalso. destruct (path_exists px jpeg_path fs) eqn:Hex.
      - rewrite embed_gps_unfold in H by assumption.
        repeat (match type of H with
                | match ?x with _ => _ end = _ => destruct x
                end; try discriminate).
      - unfold embed_gps_in_jpeg in H. rewrite Hex in H. discriminate. }
  exists b, fs'. split; [reflexivity|].
  assert (Htrue : b = true ↔
       path_exists px jpeg_path fs = true ∧
       ∃ exif gps_ifd exif_bytes,
         piexif_load px jpeg_path fs = Ok exif ∧
         build_gps_ifd gps = Ok gps_ifd ∧
         piexif_dump px (<["GPS" := Ifd gps_ifd]> exif) = Ok exif_bytes ∧
         piexif_insert px exif_bytes jpeg_path fs = (Ok (), fs')).
  { split.
    - intros ->. apply embed_gps_true_inv in H
        as (Hex & exif & gps_ifd & exif_bytes & Hl & Hb & Hd & Hi).
      split; [assumption|]. exists exif, gps_ifd, exif_bytes.
      split_and!; try assumption.
      destruct Hl as [Hl | [Hl _]]; [assumption|].
      destruct (Hpx _ _ exif_bytes Hl) as (e & fs1 & Hins). congruence.
    - intros (Hex & exif & gps_ifd & exif_bytes & Hl & Hb & Hd & Hi).
      rewrite embed_gps_unfold in H by assumption.
      rewrite Hl in H. simpl in H. rewrite Hb, Hd, Hi in H.
      by injection H as <-. }
  split_and!; [ | | | | |exact Htrue].
  - intros Hex. unfold embed_gps_in_jpeg in H. rewrite Hex in H.
    by injection H as <- <-.
  - intros [e He]. destruct b; [|reflexivity].
    destruct Htrue as [Ht _].
    destruct (Ht eq_refl) as (_ & exif & _ & _ & Hl & _). congruence.
  - intros [e He]. destruct b; [|reflexivity].
    destruct Htrue as [Ht _].
    destruct (Ht eq_refl) as (_ & _ & gps_ifd & _ & _ & Hb & _). congruence.
  - intros exif gps_ifd Hl Hb [e He]. destruct b; [|reflexivity].
    destruct Htrue as [Ht _].
    destruct (Ht eq_refl) as (_ & exif' & gps_ifd' & bytes & Hl' & Hb' & Hd & _).
    congruence.
  - intros exif gps_ifd exif_bytes Hl Hb Hd (e & fs1 & Hi).
    destruct b; [|reflexivity].
    destruct Htrue as [Ht _].
    destruct (Ht eq_refl)
      as (_ & exif' & gps_ifd' & bytes & Hl' & Hb' & Hd' & Hi').
    assert (exif' = exif) by congruence. subst exif'.
    assert (gps_ifd' = gps_ifd) by congruence. subst gps_ifd'.
    assert (bytes = exif_bytes) by congruence. subst bytes.
    rewrite Hi in Hi'. discriminate.
Qed.

Lemma embed_gps_false_on_any_failure_witness :
  let px := Fixtures.piexif_not_an_image in
  ∃ b fs',
    embed_gps_in_jpeg px "notes.txt" Fixtures.north_east_above [] = (Ok b, fs') ∧
    (path_exists px "notes.txt" [] = false → b = false ∧ fs' = []) ∧
    ((∃ e, piexif_load px "notes.txt" [] = Raise e) → b = false) ∧
    ((∃ e, build_gps_ifd Fixtures.north_east_above = Raise e) → b = false) ∧
    (∀ exif gps_ifd,
       piexif_load px "notes.txt" [] = Ok exif →
       build_gps_ifd Fixtures.north_east_above = Ok gps_ifd →
       (∃ e, piexif_dump px (<["GPS" := Ifd gps_ifd]> exif) = Raise e) →
       b = false) ∧
    (∀ exif gps_ifd exif_bytes,
       piexif_load px "notes.txt" [] = Ok exif →
       build_gps_ifd Fixtures.north_east_above = Ok gps_ifd →
       piexif_dump px (<["GPS" := Ifd gps_ifd]> exif) = Ok exif_bytes →
       (∃ e fs1, piexif_insert px exif_bytes "notes.txt" [] = (Raise e, fs1)) →
       b = false) ∧
    (b = true ↔
       path_exists px "notes.txt" [] = true ∧
       ∃ exif gps_ifd exif_bytes,
         piexif_load px "notes.txt" [] = Ok exif ∧
         build_gps_ifd Fixtures.north_east_above = Ok gps_ifd ∧
         piexif_dump px (<["GPS" := Ifd gps_ifd]> exif) = Ok exif_bytes ∧
         piexif_insert px exif_bytes "notes.txt" [] = (Ok (), fs')).
Proof.
  intros px.
  apply (embed_gps_false_on_any_failure px "notes.txt"
           Fixtures.north_east_above []).
  intros path fs exif_bytes _. exists InvalidImageDataError, fs. reflexivity.
Defined.

(** A file without image data: the load fails, the inner handler lets the
    embedding go on with the empty structure, the insertion fails, and the
    result is [False]. *)
Example embed_gps_not_an_image :
  embed_gps_in_jpeg Fixtures.piexif_not_an_image "notes.txt"
    Fixtures.north_east_above []
  = (Ok false, []).
Proof. vm_compute. reflexivity. Qed.

(** The property of [piexif] is used: the inner handler of
    [embed_gps_in_jpeg] by itself lets the embedding go on after
    [InvalidImageDataError], so with an [insert] that accepted such a file
    the result would be [True]. *)
Example embed_gps_inner_handler :
  let px := Fixtures.piexif_writing (Raise InvalidImageDataError) in
  ¬ insert_rejects_invalid_image px ∧
  embed_gps_in_jpeg px "frame_00042.jpg" Fixtures.north_east_above []
  = (Ok true, [("frame_00042.jpg", "Exif")]).
Proof.
  intros px. split; [|vm_compute; reflexivity].
  intros H. destruct (H "frame_00042.jpg" [] "Exif" eq_refl) as (e & fs' & He).
  discriminate He.
Qed.

(** The steps of [decimal_to_dms], one by one. *)
Lemma decimal_to_dms_inv (x : float) (dms : rational * rational * rational) :
  decimal_to_dms x = Ok dms →
  ∃ d df m mf s,
    int_of_float (PrimFloat.abs x) = Ok d ∧
    float_of_int d = Ok df ∧
    int_of_float ((PrimFloat.abs x - df) * 60)%float = Ok m ∧
    float_of_int m = Ok mf ∧
    int_of_float ((((PrimFloat.abs x - df) * 60 - mf) * 60) * 100)%float = Ok s ∧
    dms = ((d, 1), (m, 1), (s, 100)).
Proof.
  unfold decimal_to_dms. intros H.
  destruct (int_of_float (PrimFloat.abs x)) as [d|] eqn:Ed; simpl in H;
    [|discriminate].
  destruct (float_of_int d) as [df|] eqn:Edf; simpl in H; [|discriminate].
  destruct (int_of_float ((PrimFloat.abs x - df) * 60)) as [m|] eqn:Em;
    simpl in H; [|discriminate].
  destruct (float_of_int m) as [mf|] eqn:Emf; simpl in H; [|discriminate].
  destruct (int_of_float ((((PrimFloat.abs x - df) * 60 - mf) * 60) * 100))
    as [s|] eqn:Es; simpl in H; [|discriminate].
  injection H as <-. exists d, df, m, mf, s. done.
Qed.

Lemma int_of_float_sign (x : float) (n : Z) :
  int_of_float x = Ok n →
  match Prim2SF x with
  | S754_finite true _ _ => n ≤ 0
  | S754_finite false _ _ => 0 ≤ n
  | _ => n = 0
  end.
Proof.
  unfold int_of_float.
  destruct (Prim2SF x) as [s| s | | s m e]; try discriminate.
  - by intros [= <-].
  - intros [= <-].
    assert (0 ≤ (if 0 <=? e then Z.shiftl (Z.pos m) e
                 else Z.shiftr (Z.pos m) (- e))).
    { destruct (0 <=? e);
        [apply Z.shiftl_nonneg | apply Z.shiftr_nonneg]; lia. }
    destruct s; lia.
Qed.

Lemma mul100_abs_sign (x : float) :
  match Prim2SF (PrimFloat.abs x * 100)%float with
  | S754_finite true _ _ => False
  | _ => True
  end.
Proof.
  rewrite mul_spec, abs_spec.
  change (Prim2SF 100) with (S754_finite false 7036874417766400 (-46)).
  destruct (Prim2SF x) as [s| s | | s m e]; simpl; try done.
  unfold SF64mul, SFmul. simpl xorb. unfold binary_round_aux.
  destruct (shr_fexp _ _ _ _ _) as [mrs e1].
  destruct (shr_fexp _ _ _ _ _) as [mrs' e2].
  destruct (shr_m mrs'); try done.
  by destruct (_ <=? _).
Qed.

Lemma altitude_cm_nonneg (x : float) (cm : Z) :
  int_of_float (PrimFloat.abs x * 100)%float = Ok cm → 0 ≤ cm.
Proof.
  intros H. apply int_of_float_sign in H.
  pose proof (mul100_abs_sign x) as Hs.
  destruct (Prim2SF _) as [s| s | | [] m e]; try done; lia.
Qed.

(** C9. When [embed_gps_in_jpeg] succeeds, the GPS IFD it hands to
    [piexif.dump] and [piexif.insert] holds: latitude reference [N] if
    [latitude >= 0] and [S] otherwise; longitude reference [E] if
    [longitude >= 0] and [W] otherwise; altitude reference [0] if
    [altitude >= 0] and [1] otherwise. As latitude and as longitude it holds
    [((d, 1), (m, 1), (s, 100))], computed from the absolute value [a] of
    the coordinate in binary64 arithmetic: [d = int(a)], which is not
    negative; [m = int((a - d) * 60)]; and
    [s = int((((a - d) * 60 - m) * 60) * 100)]. As altitude it holds
    [(int(abs(altitude) * 100), 100)], whose numerator is not negative. *)
Theorem gps_ifd_encoding (px : Piexif) (jpeg_path : string) (gps : GPSData)
    (fs fs' : FS px) :
  embed_gps_in_jpeg px jpeg_path gps fs = (Ok true, fs') →
  ∃ exif gps_ifd exif_bytes,
    piexif_dump px (<["GPS" := Ifd gps_ifd]> exif) = Ok exif_bytes ∧
    piexif_insert px exif_bytes jpeg_path fs = (Ok (), fs') ∧
    gps_ifd !! GPSIFD.GPSLatitudeRef
      = Some (Bytes (if ge0 (latitude gps) then "N" else "S")) ∧
    gps_ifd !! GPSIFD.GPSLongitudeRef
      = Some (Bytes (if ge0 (longitude gps) then "E" else "W")) ∧
    gps_ifd !! GPSIFD.GPSAltitudeRef
      = Some (Int (if ge0 (altitude gps) then 0 else 1)) ∧
    (let a := PrimFloat.abs (latitude gps) in
     ∃ d df m mf s,
       gps_ifd !! GPSIFD.GPSLatitude
         = Some (Rational3 ((d, 1), (m, 1), (s, 100))) ∧
       0 ≤ d ∧
       int_of_float a = Ok d ∧ float_of_int d = Ok df ∧
       int_of_float ((a - df) * 60)%float = Ok m ∧ float_of_int m = Ok mf ∧
       int_of_float ((((a - df) * 60 - mf) * 60) * 100)%float = Ok s) ∧
    (let a := PrimFloat.abs (longitude gps) in
     ∃ d df m mf s,
       gps_ifd !! GPSIFD.GPSLongitude
         = Some (Rational3 ((d, 1), (m, 1), (s, 100))) ∧
       0 ≤ d ∧
       int_of_float a = Ok d ∧ float_of_int d = Ok df ∧
       int_of_float ((a - df) * 60)%float = Ok m ∧ float_of_int m = Ok mf ∧
       int_of_float ((((a - df) * 60 - mf) * 60) * 100)%float = Ok s) ∧
    (∃ cm, gps_ifd !! GPSIFD.GPSAltitude = Some (Rational (cm, 100)) ∧
           0 ≤ cm ∧
           int_of_float (PrimFloat.abs (altitude gps) * 100)%float = Ok cm).
Proof.
  intros H.
  destruct (embed_gps_true_inv _ _ _ _ _ H)
    as (_ & exif & gps_ifd & exif_bytes & _ & Hb & Hd & Hi).
  exists exif, gps_ifd, exif_bytes.
  split; [assumption|]. split; [assumption|].
  destruct (build_gps_ifd_inv _ _ Hb)
    as (Hlr & Hor & Har & (lat & Hlat & Elat) & (lon & Hlon & Elon)
        & (cm & Hcm & Ecm)).
  split_and!; try assumption.
  - apply decimal_to_dms_inv in Elat
      as (d & df & m & mf & s & H1 & H2 & H3 & H4 & H5 & ->).
    rewrite abs_idem in *. exists d, df, m, mf, s.
    split_and!; try assumption.
    pose proof (int_of_float_sign _ _ H1) as Hs. rewrite abs_spec in Hs.
    by destruct (Prim2SF (latitude gps)) as [| | |[]]; simpl in Hs; lia.
  - apply decimal_to_dms_inv in Elon
      as (d & df & m & mf & s & H1 & H2 & H3 & H4 & H5 & ->).
    rewrite abs_idem in *. exists d, df, m, mf, s.
    split_and!; try assumption.
    pose proof (int_of_float_sign _ _ H1) as Hs. rewrite abs_spec in Hs.
    by destruct (Prim2SF (longitude gps)) as [| | |[]]; simpl in Hs; lia.
  - exists cm. split_and!; try assumption. by eapply altitude_cm_nonneg.
Qed.

Lemma gps_ifd_encoding_witness :
  let px := Fixtures.piexif_writing (Ok empty_exif) in
  ∃ exif gps_ifd exif_bytes,
    piexif_dump px (<["GPS" := Ifd gps_ifd]> exif) = Ok exif_bytes ∧
    piexif_insert px exif_bytes "frame_00042.jpg" []
      = (Ok (), [("frame_00042.jpg", "Exif")]) ∧
    gps_ifd !! GPSIFD.GPSLatitudeRef
      = Some (Bytes (if ge0 (latitude Fixtures.south_west_below) then "N" else "S")) ∧
    gps_ifd !! GPSIFD.GPSLongitudeRef
      = Some (Bytes (if ge0 (longitude Fixtures.south_west_below) then "E" else "W")) ∧
    gps_ifd !! GPSIFD.GPSAltitudeRef
      = Some (Int (if ge0 (altitude Fixtures.south_west_below) then 0 else 1)) ∧
    (let a := PrimFloat.abs (latitude Fixtures.south_west_below) in
     ∃ d df m mf s,
       gps_ifd !! GPSIFD.GPSLatitude
         = Some (Rational3 ((d, 1), (m, 1), (s, 100))) ∧
       0 ≤ d ∧
       int_of_float a = Ok d ∧ float_of_int d = Ok df ∧
       int_of_float ((a - df) * 60)%float = Ok m ∧ float_of_int m = Ok mf ∧
       int_of_float ((((a - df) * 60 - mf) * 60) * 100)%float = Ok s) ∧
    (let a := PrimFloat.abs (longitude Fixtures.south_west_below) in
     ∃ d df m mf s,
       gps_ifd !! GPSIFD.GPSLongitude
         = Some (Rational3 ((d, 1), (m, 1), (s, 100))) ∧
       0 ≤ d ∧
       int_of_float a = Ok d ∧ float_of_int d = Ok df ∧
       int_of_float ((a - df) * 60)%float = Ok m ∧ float_of_int m = Ok mf ∧
       int_of_float ((((a - df) * 60 - mf) * 60) * 100)%float = Ok s) ∧
    (∃ cm, gps_ifd !! GPSIFD.GPSAltitude = Some (Rational (cm, 100)) ∧
           0 ≤ cm ∧
           int_of_float (PrimFloat.abs (altitude Fixtures.south_west_below) * 100)%float = Ok cm).
Proof.
  intros px.
  apply (gps_ifd_encoding px "frame_00042.jpg" Fixtures.south_west_below []).
  vm_compute. reflexivity.
Defined.

(** The IFD of a position in the southern and western hemispheres, below
    sea level: 33 deg 49 min 26.43 s S, 70 deg 35 min 31.19 s W, 12 m below. *)
Example gps_ifd_south_west_below :
  map_to_list <$> build_gps_ifd Fixtures.south_west_below
  = Ok [(GPSIFD.GPSAltitudeRef, Int 1);
        (GPSIFD.GPSLongitudeRef, Bytes "W");
        (GPSIFD.GPSAltitude, Rational (1200, 100));
        (GPSIFD.GPSLongitude, Rational3 ((70, 1), (35, 1), (3119, 100)));
        (GPSIFD.GPSLatitude, Rational3 ((33, 1), (49, 1), (2643, 100)));
        (GPSIFD.GPSLatitudeRef, Bytes "S")].
Proof. vm_compute. reflexivity. Qed.

(** Not-a-number coordinates cannot be converted; the embedding reports
    failure. *)
Example embed_gps_nan_is_false :
  embed_gps_in_jpeg (Fixtures.piexif_writing (Ok empty_exif)) "frame_00042.jpg"
    {| latitude := nan; longitude := 0; altitude := 0; accuracy := None |} []
  = (Ok false, []).
Proof. vm_compute. reflexivity. Qed.

(** *** What is written, and when nothing is *)

(** X14. [embed_gps_in_jpeg] touches the file through [piexif.insert]
    only, and what it hands over is the dump of the EXIF structure it went
    on with (the file's own, or the empty one) with the entry [GPS]
    replaced by the new GPS IFD and every other entry as it was. In all
    other runs the files are left as they were. *)
Theorem embed_gps_writes_only_gps_entry (px : Piexif) (jpeg_path : string)
    (gps : GPSData) (fs fs' : FS px) (r : result bool) :
  embed_gps_in_jpeg px jpeg_path gps fs = (r, fs') →
  fs' = fs ∨
  ∃ exif exif' gps_ifd exif_bytes res,
    loaded px jpeg_path fs exif ∧
    build_gps_ifd gps = Ok gps_ifd ∧
    exif' !! "GPS" = Some (Ifd gps_ifd) ∧
    (∀ k, k ≠ "GPS" → exif' !! k = exif !! k) ∧
    piexif_dump px exif' = Ok exif_bytes ∧
    piexif_insert px exif_bytes jpeg_path fs = (res, fs').
Proof.
  intros H.
  destruct (path_exists px jpeg_path fs) eqn:Hex.
  2:{ unfold embed_gps_in_jpeg in H. rewrite Hex in H. left. by inversion H. }
  rewrite embed_gps_unfold in H by assumption.
  destruct (try_except _ _ _) as [exif|e] eqn:Hload; [|left; by inversion H].
  apply loaded_iff in Hload.
  destruct (build_gps_ifd gps) as [gps_ifd|e] eqn:Hb; [|left; by inversion H].
  destruct (piexif_dump px _) as [exif_bytes|e] eqn:Hdump;
    [|left; by inversion H].
  destruct (piexif_insert px exif_bytes jpeg_path fs) as [res fs1] eqn:Hins.
  right. exists exif, (<["GPS" := Ifd gps_ifd]> exif), gps_ifd, exif_bytes, res.
  split_and!; try done.
  - by rewrite lookup_insert_eq.
  - intros k Hk. by rewrite lookup_insert_ne.
  - rewrite Hins. f_equal. destruct res as [[]|]; simpl in H; by inversion H.
Qed.

Lemma embed_gps_writes_only_gps_entry_witness :
  let px := Fixtures.piexif_writing (Ok empty_exif) in
  ([("frame_00042.jpg", "Exif")] : FS px) = [] ∨
  ∃ exif exif' gps_ifd exif_bytes res,
    loaded px "frame_00042.jpg" [] exif ∧
    build_gps_ifd Fixtures.south_west_below = Ok gps_ifd ∧
    exif' !! "GPS" = Some (Ifd gps_ifd) ∧
    (∀ k, k ≠ "GPS" → exif' !! k = exif !! k) ∧
    piexif_dump px exif' = Ok exif_bytes ∧
    piexif_insert px exif_bytes "frame_00042.jpg" []
      = (res, [("frame_00042.jpg", "Exif")]).
Proof.
  intros px.
  apply (embed_gps_writes_only_gps_entry px "frame_00042.jpg"
           Fixtures.south_west_below [] _ (Ok true)).
  vm_compute. reflexivity.
Defined.

(** The tags of the GPS IFD that [build_gps_ifd] builds. *)
Lemma build_gps_ifd_tags (gps : GPSData) (gps_ifd : ifd) :
  build_gps_ifd gps = Ok gps_ifd →
  dom gps_ifd =
    ({[ GPSIFD.GPSLatitudeRef; GPSIFD.GPSLatitude; GPSIFD.GPSLongitudeRef;
        GPSIFD.GPSLongitude; GPSIFD.GPSAltitudeRef; GPSIFD.GPSAltitude ]}
     ∪ (match accuracy gps with
        | Some _ => {[ GPSIFD.GPSHPositioningError ]}
        | None => ∅
        end)
     : gset Z) ∧
  match accuracy gps with
  | Some acc =>
      ∃ cm, gps_ifd !! GPSIFD.GPSHPositioningError = Some (Rational (cm, 100)) ∧
            int_of_float (acc * 100)%float = Ok cm
  | None => gps_ifd !! GPSIFD.GPSHPositioningError = None
  end.
Proof.
  unfold build_gps_ifd. intros H.
  destruct (decimal_to_dms (latitude gps)) as [lat|]; simpl in H;
    [|discriminate].
  destruct (decimal_to_dms (longitude gps)) as [lon|]; simpl in H;
    [|discriminate].
  destruct (int_of_float _) as [cm|]; simpl in H; [|discriminate].
  destruct (accuracy gps) as [acc|].
  - destruct (int_of_float (acc * 100)) as [a|]; simpl in H; [|discriminate].
    injection H as <-. split.
    + rewrite !dom_insert_L, dom_empty_L. set_solver.
    + exists a. split; [|reflexivity]. by rewrite lookup_insert_eq.
  - injection H as <-. split.
    + rewrite !dom_insert_L, dom_empty_L. set_solver.
    + unfold GPSIFD.GPSLatitudeRef, GPSIFD.GPSLatitude, GPSIFD.GPSLongitudeRef,
        GPSIFD.GPSLongitude, GPSIFD.GPSAltitudeRef, GPSIFD.GPSAltitude,
        GPSIFD.GPSHPositioningError. by simplify_map_eq.
Qed.

(** X15. When [embed_gps_in_jpeg] succeeds, the GPS IFD it writes holds the
    six tags of latitude, longitude and altitude with their references,
    and the horizontal positioning error exactly when the GPS data has an
    accuracy; that tag is then the accuracy in hundredths, cut off toward
    zero, over 100. It holds no other tag: the GPS tags the file had
    before are not carried over. *)
Theorem gps_ifd_tags (px : Piexif) (jpeg_path : string) (gps : GPSData)
    (fs fs' : FS px) :
  embed_gps_in_jpeg px jpeg_path gps fs = (Ok true, fs') →
  ∃ exif gps_ifd exif_bytes,
    piexif_dump px (<["GPS" := Ifd gps_ifd]> exif) = Ok exif_bytes ∧
    piexif_insert px exif_bytes jpeg_path fs = (Ok (), fs') ∧
    dom gps_ifd =
      ({[ GPSIFD.GPSLatitudeRef; GPSIFD.GPSLatitude; GPSIFD.GPSLongitudeRef;
          GPSIFD.GPSLongitude; GPSIFD.GPSAltitudeRef; GPSIFD.GPSAltitude ]}
       ∪ (match accuracy gps with
          | Some _ => {[ GPSIFD.GPSHPositioningError ]}
          | None => ∅
          end)
       : gset Z) ∧
    match accuracy gps with
    | Some acc =>
        ∃ cm, gps_ifd !! GPSIFD.GPSHPositioningError
                = Some (Rational (cm, 100)) ∧
              int_of_float (acc * 100)%float = Ok cm
    | None => gps_ifd !! GPSIFD.GPSHPositioningError = None
    end.
Proof.
  intros H.
  destruct (embed_gps_true_inv _ _ _ _ _ H)
    as (_ & exif & gps_ifd & exif_bytes & _ & Hb & Hd & Hi).
  exists exif, gps_ifd, exif_bytes.
  split; [assumption|]. split; [assumption|].
  by apply build_gps_ifd_tags.
Qed.

Lemma gps_ifd_tags_witness :
  let px := Fixtures.piexif_writing (Ok empty_exif) in
  ∃ exif gps_ifd exif_bytes,
    piexif_dump px (<["GPS" := Ifd gps_ifd]> exif) = Ok exif_bytes ∧
    piexif_insert px exif_bytes "frame_00042.jpg" []
      = (Ok (), [("frame_00042.jpg", "Exif")]) ∧
    dom gps_ifd =
      ({[ GPSIFD.GPSLatitudeRef; GPSIFD.GPSLatitude; GPSIFD.GPSLongitudeRef;
          GPSIFD.GPSLongitude; GPSIFD.GPSAltitudeRef; GPSIFD.GPSAltitude ]}
       ∪ (match accuracy Fixtures.north_east_above with
          | Some _ => {[ GPSIFD.GPSHPositioningError ]}
          | None => ∅
          end)
       : gset Z) ∧
    match accuracy Fixtures.north_east_above with
    | Some acc =>
        ∃ cm, gps_ifd !! GPSIFD.GPSHPositioningError
                = Some (Rational (cm, 100)) ∧
              int_of_float (acc * 100)%float = Ok cm
    | None => gps_ifd !! GPSIFD.GPSHPositioningError = None
    end.
Proof.
  intros px.
  apply (gps_ifd_tags px "frame_00042.jpg" Fixtures.north_east_above []).
  vm_compute. reflexivity.
Defined.

(** The IFD of a position with an accuracy of 4.76 m. *)
Example gps_ifd_north_east_above :
  (λ m : ifd, m !! GPSIFD.GPSHPositioningError)
    <$> build_gps_ifd Fixtures.north_east_above
  = Ok (Some (Rational (476, 100))).
Proof. vm_compute. reflexivity. Qed.

(** *** Numbers that are not finite *)

Lemma not_finite_cases (x : float) :
  PrimFloat.is_finite x = false →
  Prim2SF x = S754_nan ∨ ∃ s, Prim2SF x = S754_infinity s.
Proof.
  unfold PrimFloat.is_finite, PrimFloat.is_nan, PrimFloat.is_infinity.
  rewrite !FloatAxioms.eqb_spec, abs_spec.
  destruct (Prim2SF x) as [s| s | | s m e] eqn:E; eauto.
  - simpl. intros H. exfalso. revert H.
    change (Prim2SF infinity) with (S754_infinity false).
    destruct s; discriminate.
  - simpl. change (Prim2SF infinity) with (S754_infinity false).
    unfold SFeqb, SFcompare. rewrite Z.compare_refl, Pos.compare_cont_refl.
    destruct s; discriminate.
Qed.

Lemma int_of_float_not_finite (x : float) :
  (Prim2SF x = S754_nan ∨ ∃ s, Prim2SF x = S754_infinity s) →
  ∃ e, int_of_float x = Raise e.
Proof. unfold int_of_float. intros [-> | [s ->]]; eauto. Qed.

Lemma abs_not_finite (x : float) :
  (Prim2SF x = S754_nan ∨ ∃ s, Prim2SF x = S754_infinity s) →
  Prim2SF (PrimFloat.abs x) = S754_nan ∨
  ∃ s, Prim2SF (PrimFloat.abs x) = S754_infinity s.
Proof. rewrite abs_spec. intros [-> | [s ->]]; simpl; eauto. Qed.

Lemma mul100_not_finite (x : float) :
  (Prim2SF x = S754_nan ∨ ∃ s, Prim2SF x = S754_infinity s) →
  Prim2SF (x * 100)%float = S754_nan ∨
  ∃ s, Prim2SF (x * 100)%float = S754_infinity s.
Proof.
  rewrite mul_spec.
  change (Prim2SF 100) with (S754_finite false 7036874417766400 (-46)).
  intros [-> | [s ->]]; simpl; eauto.
Qed.

Lemma decimal_to_dms_not_finite (x : float) :
  PrimFloat.is_finite x = false → ∃ e, decimal_to_dms x = Raise e.
Proof.
  intros H. apply not_finite_cases, abs_not_finite, int_of_float_not_finite in H.
  destruct H as [e He]. unfold decimal_to_dms. rewrite He. simpl. eauto.
Qed.

(** X16. GPS data with a number that is not finite is never written: when
    the latitude, the longitude, the altitude or the accuracy is a NaN or an
    infinity, [embed_gps_in_jpeg] returns [False] and leaves the files as
    they were, whatever the file holds. *)
Theorem embed_gps_rejects_non_finite (px : Piexif) (jpeg_path : string)
    (gps : GPSData) (fs : FS px) :
  PrimFloat.is_finite (latitude gps) = false ∨
  PrimFloat.is_finite (longitude gps) = false ∨
  PrimFloat.is_finite (altitude gps) = false ∨
  (∃ acc, accuracy gps = Some acc ∧ PrimFloat.is_finite acc = false) →
  embed_gps_in_jpeg px jpeg_path gps fs = (Ok false, fs).
Proof.
  intros H.
  assert (Hb : ∃ e, build_gps_ifd gps = Raise e).
  { unfold build_gps_ifd.
    destruct (decimal_to_dms (latitude gps)) as [lat|e] eqn:Elat; simpl;
      [|eauto].
    destruct (decimal_to_dms (longitude gps)) as [lon|e] eqn:Elon; simpl;
      [|eauto].
    destruct (int_of_float (PrimFloat.abs (altitude gps) * 100)) as [cm|e]
      eqn:Ealt; simpl; [|eauto].
    destruct H as [H | [H | [H | (acc & Hacc & H)]]].
    - apply decimal_to_dms_not_finite in H as [e He]. congruence.
    - apply decimal_to_dms_not_finite in H as [e He]. congruence.
    - apply not_finite_cases, abs_not_finite, mul100_not_finite,
        int_of_float_not_finite in H as [e He]. congruence.
    - rewrite Hacc.
      apply not_finite_cases, mul100_not_finite, int_of_float_not_finite
        in H as [e ->]. simpl. eauto. }
  destruct Hb as [e Hb].
  destruct (path_exists px jpeg_path fs) eqn:Hex.
  - rewrite embed_gps_unfold by assumption.
    destruct (try_except _ _ _); [|reflexivity]. by rewrite Hb.
  - unfold embed_gps_in_jpeg. by rewrite Hex.
Qed.

Lemma embed_gps_rejects_non_finite_witness :
  embed_gps_in_jpeg (Fixtures.piexif_writing (Ok empty_exif)) "frame_00042.jpg"
    {| latitude := 0x1.966a4a8c154cap+5; longitude := 0x1.9d05532617c1cp+3;
       altitude := infinity; accuracy := None |} []
  = (Ok false, []).
Proof.
  apply (embed_gps_rejects_non_finite (Fixtures.piexif_writing (Ok empty_exif))).
  right. right. left. reflexivity.
Defined.

End ExifFacts.

(** ** The diagnostic script *)

Module CheckLibzimgFacts.
Import Py Host CheckLibzimg.

Lemma split_nonempty (sep : ascii) (s : string) : split sep s ≠ [].
Proof.
  induction s as [|c s IH]; simpl; [done|].
  destruct (Ascii.eqb c sep); [done|]. by destruct (split sep s).
Qed.

(** Runs the calls of [print] of a goal, and gathers what they added. *)
Ltac prints :=
  unfold mbind, io_bind, mret, io_ret, pure, print; simpl;
  rewrite <- ?(assoc_L (++)%list).

Lemma check_version_spec (env : Env) (con : Console) (out : printed) :
  ∃ ret more,
    check_version env con out = (Ok ret, (out ++ more)%list) ∧
    (ret = None ∨ ret = Some false) ∧
    (ret = None ↔ version_ok env).
Proof.
  unfold check_version, try_clauses, version_ok.
  unfold mbind at 1, io_bind at 1, pure at 1.
  destruct (subprocess_run env _ 10) as [r|e].
  - destruct (returncode r =? 0) eqn:Hrc.
    + pose proof (split_nonempty "010" (stdout r)) as Hne.
      destruct (split "010" (stdout r)) as [|line rest]; [done|].
      prints. eexists _, _. split; [reflexivity|]. split; [by left|].
      split; [|done]. intros _. exists r. split; [done|]. by apply Z.eqb_eq.
    + prints. eexists _, _. split; [reflexivity|].
      split; [by right|]. split; [done|].
      intros (r' & [= <-] & Hr). apply Z.eqb_neq in Hrc. done.
  - destruct e; prints; eexists _, _; (split; [reflexivity|]);
      (split; [by right|]); (split; [done|]); by intros (r' & ? & _).
Qed.

Lemma check_filters_spec (env : Env) (con : Console) (out : printed) :
  ∃ b more,
    check_filters env con out = (Ok b, (out ++ more)%list) ∧
    (b = true ↔ filters_name_zscale env).
Proof.
  unfold check_filters, try_clauses, filters_name_zscale.
  unfold mbind at 1, io_bind at 1, pure at 1.
  destruct (subprocess_run env _ 10) as [r|e].
  - destruct (contains "zscale" (stdout r)) eqn:Hz.
    + prints. eexists _, _. split; [reflexivity|]. split; [|done]. eauto.
    + prints. eexists _, _. split; [reflexivity|]. split; [done|].
      intros (r' & [= <-] & Hr). congruence.
  - destruct e; prints; eexists _, _; (split; [reflexivity|]);
      (split; [done|]); by intros (r' & ? & _).
Qed.

(** [check_ffmpeg_zscale] returns, having printed some more, and says
    [True] exactly when both commands did well. *)
Lemma check_ffmpeg_zscale_spec (env : Env) (con : Console) (out : printed) :
  ∃ b more,
    check_ffmpeg_zscale env con out = (Ok b, (out ++ more)%list) ∧
    (b = true ↔ version_ok env ∧ filters_name_zscale env).
Proof.
  unfold check_ffmpeg_zscale.
  unfold mbind, io_bind, print.
  match goal with
  | |- context [check_version env con ?o] =>
      destruct (check_version_spec env con o) as (ret & m1 & -> & Hret & Hv)
  end.
  destruct Hret as [-> | ->].
  - match goal with
    | |- context [check_filters env con ?o] =>
        destruct (check_filters_spec env con o) as (b & m2 & -> & Hb)
    end.
    exists b. rewrite <- ?(assoc_L (++)%list). eexists. split; [reflexivity|].
    rewrite Hb. tauto.
  - exists false. unfold mret, io_ret. rewrite <- ?(assoc_L (++)%list).
    eexists. split; [reflexivity|].
    split; [done|]. intros [Hok _]. apply Hv in Hok. done.
Qed.

(** The answer of the library's own check, [check_zscale_available], in
    terms of the same command. *)
Lemma check_zscale_available_iff (env : Env) (c : bool) :
  Colorspace.check_zscale_available env = Ok c →
  (c = true ↔ filters_name_zscale env).
Proof.
  unfold Colorspace.check_zscale_available, filters_name_zscale,
    ffmpeg_executable.
  destruct (subprocess_run env _ 10) as [r|e]; simpl.
  - intros [= <-]. split; [eauto|]. by intros (r' & [= <-] & ?).
  - destruct e; simpl; intros [= <-]; (split; [done|]);
      by intros (r' & ? & _).
Qed.

(** X17. [check_ffmpeg_zscale] never raises and only adds to what was
    printed. It returns [True] exactly when [ffmpeg -version] ran with exit
    status 0 and [ffmpeg -filters] ran and its output names zscale. Its
    verdict fits the check the library makes: when the script says [True],
    [check_zscale_available] returns [True]; and when [ffmpeg -version]
    did well, the script returns whatever [check_zscale_available]
    returns. *)
Theorem check_ffmpeg_zscale_verdict (env : Env) (con : Console)
    (out : printed) :
  ∃ b more,
    check_ffmpeg_zscale env con out = (Ok b, (out ++ more)%list) ∧
    (b = true ↔ version_ok env ∧ filters_name_zscale env) ∧
    (b = true → Colorspace.check_zscale_available env = Ok true) ∧
    (version_ok env →
     ∀ c, Colorspace.check_zscale_available env = Ok c → c = b).
Proof.
  destruct (check_ffmpeg_zscale_spec env con out) as (b & more & Hrun & Hb).
  exists b, more. split_and!; [done..| |].
  - intros ->. destruct Hb as [Hb _].
    destruct (Hb eq_refl) as [_ (r & Hr & Hz)].
    unfold Colorspace.check_zscale_available.
    unfold ffmpeg_executable in Hr. rewrite Hr. simpl. by rewrite Hz.
  - intros Hv c Hc. apply check_zscale_available_iff in Hc.
    destruct b, c; try done.
    + destruct Hb as [Hb _]. destruct (Hb eq_refl) as [_ Hf].
      by apply Hc in Hf.
    + destruct Hc as [Hc _]. specialize (Hc eq_refl).
      destruct Hb as [_ Hb]. symmetry. by apply Hb.
Qed.

(** The script disagrees with the library's check when [ffmpeg -version]
    fails although [ffmpeg -filters] names zscale; the library's check does
    not look at the exit status. *)
Example script_stricter_than_probe :
  let env := Fixtures.host (Ok {| returncode := 1; stdout := "zscale" |}) [] in
  (check_ffmpeg_zscale env Fixtures.console []).1 = Ok false ∧
  Colorspace.check_zscale_available env = Ok true.
Proof. split; vm_compute; reflexivity. Qed.

Lemma print_options_spec (opts : list string) (out : printed) :
  print_options opts out
  = (Ok (), (out ++ ((λ opt, "    " +:+ opt) <$> opts))%list).
Proof.
  revert out. induction opts as [|opt opts IH]; intros out; simpl.
  - by rewrite (right_id_L [] (++)%list).
  - unfold mbind, io_bind, print. rewrite IH.
    by rewrite <- (assoc_L (++)%list).
Qed.

(** X18. [check_build_configuration] never raises. It prints at most three
    lines of its own and then at most ten build options, each indented by
    four blanks. Every option listed is a word of the output of
    [ffmpeg -buildconf] that mentions color, scale, zimg or hdr, in any
    case of the letters; and options are listed only when the output does
    not have [--enable-libzimg]. *)
Theorem build_configuration_report (env : Env) (con : Console)
    (out : printed) :
  ∃ head opts,
    check_build_configuration env con out
    = (Ok (), (out ++ head ++ ((λ opt, "    " +:+ opt) <$> opts))%list) ∧
    (length head ≤ 3)%nat ∧ (length opts ≤ 10)%nat ∧
    ∀ opt, opt ∈ opts →
      mentions_any ["color"; "scale"; "zimg"; "hdr"] opt = true ∧
      ∃ r, subprocess_run env [ffmpeg_executable env; "-buildconf"] 10 = Ok r ∧
           opt ∈ split_whitespace (stdout r) ∧
           contains "--enable-libzimg" (stdout r) = false.
Proof.
  unfold check_build_configuration, try_clauses.
  unfold mbind at 1, io_bind at 1, pure at 1.
  destruct (subprocess_run env _ 10) as [r|e].
  - unfold mbind, io_bind, print.
    destruct (contains "--enable-libzimg" (stdout r)) eqn:Hz; simpl.
    + eexists [_; _], []. rewrite <- ?(assoc_L (++)%list).
      split; [reflexivity|]. split_and!; [simpl; lia..|].
      by intros opt ?%elem_of_nil.
    + destruct (contains "--enable-" (stdout r)).
      * destruct (List.filter _ _) as [|o os] eqn:Hf.
        -- eexists [_; _], []. rewrite <- ?(assoc_L (++)%list).
           split; [reflexivity|]. split_and!; [simpl; lia..|].
           by intros opt ?%elem_of_nil.
        -- rewrite print_options_spec.
           eexists [_; _; _], (take 10 (o :: os)).
           rewrite <- ?(assoc_L (++)%list).
           split; [reflexivity|]. split_and!; [simpl; lia| |].
           ++ rewrite length_take. lia.
           ++ intros opt Hin. apply subseteq_take in Hin. rewrite <- Hf in Hin.
              apply list_elem_of_In, filter_In in Hin as [Hin Hm].
              split; [done|]. exists r. split_and!; [done| |done].
              by apply list_elem_of_In.
      * eexists [_; _], []. rewrite <- ?(assoc_L (++)%list).
        split; [reflexivity|]. split_and!; [simpl; lia..|].
        by intros opt ?%elem_of_nil.
  - destruct e; unfold dispatch, isinstance, print; simpl;
      eexists [_], []; (split; [reflexivity|]);
      (split_and!; [simpl; lia..|]); by intros opt ?%elem_of_nil.
Qed.

Example build_configuration_lists_ten :
  let env :=
    Fixtures.host
      (Ok {| returncode := 0;
             stdout := "--enable-gpl --enable-swscale --enable-COLORx " +:+
                       "--enable-hdr1 --enable-hdr2 --enable-hdr3 " +:+
                       "--enable-hdr4 --enable-hdr5 --enable-hdr6 " +:+
                       "--enable-hdr7 --enable-hdr8 --enable-hdr9" |}) [] in
  check_build_configuration env Fixtures.console []
  = (Ok (),
     [nl +:+ "Build Configuration:"; "  --enable-libzimg:  NO";
      nl +:+ "  Relevant build options found:";
      "    --enable-swscale"; "    --enable-COLORx"; "    --enable-hdr1";
      "    --enable-hdr2"; "    --enable-hdr3"; "    --enable-hdr4";
      "    --enable-hdr5"; "    --enable-hdr6"; "    --enable-hdr7";
      "    --enable-hdr8"]).
Proof. vm_compute. reflexivity. Qed.

(** [check_build_configuration] returns, having printed some more. *)
Lemma check_build_configuration_returns (env : Env) (con : Console)
    (out : printed) :
  ∃ more, check_build_configuration env con out = (Ok (), (out ++ more)%list).
Proof.
  unfold check_build_configuration, try_clauses.
  unfold mbind at 1, io_bind at 1, pure at 1.
  destruct (subprocess_run env _ 10) as [r|e].
  - unfold mbind, io_bind, print.
    destruct (negb _ && _); [|prints; eexists; reflexivity].
    destruct (List.filter _ _) as [|o os]; [prints; eexists; reflexivity|].
    rewrite print_options_spec, <- ?(assoc_L (++)%list).
    eexists. reflexivity.
  - destruct e; prints; eexists; reflexivity.
Qed.

(** X19. Run as a program, the script never ends in an uncaught exception:
    it reaches [sys.exit] with status 0 or 1, and the status is 0 exactly
    when [ffmpeg -version] ran with exit status 0 and the output of
    [ffmpeg -filters] names zscale. What [check_build_configuration] finds
    does not enter the status. *)
Theorem main_exit_status (env : Env) (con : Console) (out : printed) :
  ∃ code more,
    main env con out = (Ok code, (out ++ more)%list) ∧
    (code = 0 ∨ code = 1) ∧
    (code = 0 ↔ version_ok env ∧ filters_name_zscale env).
Proof.
  unfold main. unfold mbind, io_bind, print.
  match goal with
  | |- context [check_ffmpeg_zscale env con ?o] =>
      destruct (check_ffmpeg_zscale_spec env con o) as (b & m1 & -> & Hb)
  end.
  match goal with
  | |- context [check_build_configuration env con ?o] =>
      destruct (check_build_configuration_returns env con o) as (m2 & ->)
  end.
  unfold mret, io_ret. rewrite <- ?(assoc_L (++)%list).
  eexists _, _. split; [reflexivity|].
  rewrite <- Hb. destruct b; split; auto; split; done.
Qed.

Example main_on_a_full_build :
  (main Fixtures.ffmpeg_with_zscale Fixtures.console []).1 = Ok 0 ∧
  (main (Fixtures.host (Raise FileNotFoundError) []) Fixtures.console []).1
  = Ok 1.
Proof. split; vm_compute; reflexivity. Qed.

End CheckLibzimgFacts.

(** ** The frame selector *)

Module SelectorFacts.
Import FrameSelector.

(** *** The windows *)

Lemma chunks_length {A} (sizes : list nat) (l : list A) :
  length (chunks sizes l) = length sizes.
Proof.
  revert l. induction sizes as [|n sizes IH]; intros l; simpl; [done|].
  by rewrite IH.
Qed.

(** The pieces, put together again, are the start of the sequence; they are
    the whole sequence when the sizes add up to its length. *)
Lemma chunks_concat {A} (sizes : list nat) (l : list A) :
  concat (chunks sizes l) = take (sum_list sizes) l.
Proof.
  revert l. induction sizes as [|n sizes IH]; intros l; simpl.
  - by rewrite take_0.
  - rewrite IH. apply take_take_drop.
Qed.

Lemma sum_below (r k : nat) :
  sum_list ((λ i, if (i <? r)%nat then 1 else 0)%nat <$> seq 0 k) = (r `min` k)%nat.
Proof.
  induction k as [|k IH]; [simpl; lia|].
  rewrite seq_S, fmap_app, sum_list_with_app, IH. simpl.
  destruct (Nat.ltb_spec k r); lia.
Qed.

Lemma sum_window_sizes (n k : nat) : (0 < k)%nat → sum_list (window_sizes n k) = n.
Proof.
  intros Hk. unfold window_sizes.
  assert (H : ∀ m, sum_list ((λ i, n / k + (if (i <? n mod k)%nat then 1 else 0))%nat
                        <$> seq 0 m)
              = (m * (n / k)
                 + sum_list ((λ i, if (i <? n mod k)%nat then 1 else 0)%nat
                               <$> seq 0 m))%nat).
  { induction m as [|m IH]; [done|].
    rewrite seq_S, !fmap_app, !sum_list_with_app, IH. simpl. lia. }
  rewrite H, sum_below.
  pose proof (Nat.mod_upper_bound n k ltac:(lia)).
  pose proof (Nat.div_mod_eq n k). lia.
Qed.

(** Step 1: [k] windows, contiguous, which together are the whole sequence,
    and whose sizes differ by one at most. *)
Lemma windows_partition (cands : list Candidate) (k : nat) :
  (0 < k)%nat →
  length (windows cands k) = k ∧
  concat (windows cands k) = cands ∧
  Forall (λ w, length w = (length cands / k)%nat ∨
               length w = S (length cands / k)) (windows cands k).
Proof.
  intros Hk. unfold windows. split_and!.
  - rewrite chunks_length. unfold window_sizes. by rewrite length_fmap, length_seq.
  - rewrite chunks_concat, sum_window_sizes by done. by apply take_ge.
  - assert (Hsum := sum_window_sizes (length cands) k Hk).
    assert (Hsz : Forall (λ n, n = (length cands / k)%nat ∨
                             n = S (length cands / k))
                    (window_sizes (length cands) k)).
    { unfold window_sizes. apply Forall_fmap, Forall_forall. intros i _. simpl.
      destruct (i <? _)%nat; lia. }
    revert Hsum Hsz. generalize (window_sizes (length cands) k) as sizes.
    generalize (length cands / k)%nat as q.
    intros q sizes. revert cands.
    induction sizes as [|n sizes IH]; intros cands Hsum Hsz; simpl; [constructor|].
    apply Forall_cons in Hsz as [Hn Hsz]. simpl in Hsum.
    constructor.
    + rewrite length_take. lia.
    + apply IH; [|assumption]. rewrite length_drop. lia.
Qed.

(** *** The selection in a window *)

Lemma usable_count_app (l1 l2 : list Candidate) :
  usable_count (l1 ++ l2) = (usable_count l1 + usable_count l2)%nat.
Proof. unfold usable_count. by rewrite filter_app, length_app. Qed.

Lemma usable_count_cons (c : Candidate) (l : list Candidate) :
  usable_count (c :: l)
  = ((if usable c then 1 else 0) + usable_count l)%nat.
Proof.
  unfold usable_count. rewrite filter_cons.
  destruct (usable c); case_decide; simpl; congruence.
Qed.

(** Steps 2 and 3: the selection of a window is one of its Usable
    candidates, and a window selects nothing only when it has none. *)
Lemma best_from_spec (w : list Candidate) (acc : option Candidate) :
  match best_from acc w with
  | Some c => acc = Some c ∨ (c ∈ w ∧ usable c = true)
  | None => acc = None ∧ usable_count w = 0%nat
  end.
Proof.
  revert acc. induction w as [|x w IH]; intros acc; simpl.
  - destruct acc; auto.
  - specialize (IH (if usable x then
                      match acc with
                      | Some b => if better x b then Some x else Some b
                      | None => Some x
                      end
                    else acc)).
    rewrite usable_count_cons.
    destruct (best_from _ w) as [c|].
    + destruct IH as [Hacc | [Hin Hu]]; [|right; split; [by right|done]].
      destruct (usable x) eqn:Hx; [|by left].
      destruct acc as [b|].
      * destruct (better x b); injection Hacc as <-;
          [right; split; [by left|done] | by left].
      * injection Hacc as <-. right. split; [by left|done].
    + destruct IH as [Hacc Hw].
      destruct (usable x); [by destruct acc as [b|]; [destruct (better x b)|]|].
      split; [done | lia].
Qed.

Lemma best_in_window_usable (w : list Candidate) :
  match best_in_window w with
  | Some c => c ∈ w ∧ usable c = true
  | None => usable_count w = 0%nat
  end.
Proof.
  unfold best_in_window. pose proof (best_from_spec w None) as H.
  destruct (best_from None w); [by destruct H | by destruct H].
Qed.

(** One selection per window at most, each paid for by a Usable candidate
    of its own window. *)
Lemma picks_bound (ws : list (list Candidate)) :
  (length (omap id (best_in_window <$> ws)) ≤ length ws)%nat ∧
  (length (omap id (best_in_window <$> ws)) ≤ usable_count (concat ws))%nat.
Proof.
  induction ws as [|w ws [IH1 IH2]]; csimpl; [unfold usable_count; simpl; lia|].
  rewrite usable_count_app.
  pose proof (best_in_window_usable w) as Hw.
  destruct (best_in_window w) as [c|]; csimpl.
  - destruct Hw as [Hin Hu].
    assert (1 ≤ usable_count w)%nat.
    { apply list_elem_of_split in Hin as (l1 & l2 & ->).
      rewrite usable_count_app, usable_count_cons, Hu. lia. }
    lia.
  - lia.
Qed.

(** *** The pass against near-duplicates *)

(** Step 4 never adds a selection. *)
Lemma avoid_duplicates_length (min_gap : float) (picks : list (option Candidate))
    (prev : option Candidate) (kept dropped : list Candidate) :
  (length (avoid_duplicates min_gap prev kept dropped picks).1
   ≤ length kept + length (option_list prev) + length (omap id picks))%nat.
Proof.
  revert prev kept dropped.
  induction picks as [|[c|] picks IH]; intros prev kept dropped; csimpl.
  - rewrite length_rev. destruct prev; simpl; lia.
  - destruct prev as [b|].
    + destruct (within_gap min_gap b c); [destruct (score_lt c b);
        [|destruct (score_lt b c)]|];
        (etrans; [apply IH|]); simpl; lia.
    + etrans; [apply IH|]. simpl. lia.
  - etrans; [apply IH|]. destruct prev; simpl; lia.
Qed.

Lemma final_picks_length (min_gap : option float)
    (picks : list (option Candidate)) :
  (length (final_picks min_gap picks).1 ≤ length (omap id picks))%nat.
Proof.
  destruct min_gap as [g|]; simpl; [|done].
  etrans; [apply avoid_duplicates_length|]. simpl. lia.
Qed.

Lemma size_list_to_set_le (l : list nat) :
  (size (list_to_set l : gset nat) ≤ length l)%nat.
Proof.
  induction l as [|x l IH]; csimpl.
  { change (size (∅ : gset nat) ≤ 0)%nat. by rewrite size_empty. }
  rewrite size_union_alt, size_singleton.
  assert (size (list_to_set l ∖ {[x]} : gset nat)
          ≤ size (list_to_set l : gset nat))%nat
    by (apply subseteq_size, subseteq_difference_l; reflexivity).
  lia.
Qed.

(** *** The size of the selection *)

Lemma usable_count_elem (c : Candidate) (w : list Candidate) :
  c ∈ w → usable c = true → (0 < usable_count w)%nat.
Proof.
  intros Hin Hu. apply list_elem_of_split in Hin as (l1 & l2 & ->).
  rewrite usable_count_app, usable_count_cons, Hu. lia.
Qed.

Lemma picks_length (ws : list (list Candidate)) :
  length (omap id (best_in_window <$> ws))
  = length (filter (λ w, (0 < usable_count w)%nat) ws).
Proof.
  induction ws as [|w ws IH]; csimpl; [done|].
  rewrite filter_cons.
  pose proof (best_in_window_usable w) as Hw.
  destruct (best_in_window w) as [c|]; csimpl.
  - destruct Hw as [Hin Hu]. pose proof (usable_count_elem c w Hin Hu).
    case_decide; [|lia]. simpl. by rewrite IH.
  - case_decide; [lia|]. done.
Qed.

Lemma picks_sublist (ws : list (list Candidate)) :
  omap id (best_in_window <$> ws) `sublist_of` concat ws.
Proof.
  induction ws as [|w ws IH]; csimpl; [done|].
  pose proof (best_in_window_usable w) as Hw.
  destruct (best_in_window w) as [c|]; csimpl.
  - destruct Hw as [Hin _]. apply list_elem_of_split in Hin as (l1 & l2 & ->).
    rewrite <- (assoc_L (++)). apply sublist_inserts_l. simpl.
    apply sublist_skip. by apply sublist_inserts_l.
  - by apply sublist_inserts_l.
Qed.

Lemma usable_count_all (w : list Candidate) :
  Forall (λ c, usable c = true) w → usable_count w = length w.
Proof.
  induction 1 as [|c w Hc _ IH]; [done|].
  rewrite usable_count_cons, Hc, IH. done.
Qed.

Lemma Forall_concat_inv {A} (P : A → Prop) (ls : list (list A)) :
  Forall P (concat ls) → Forall (Forall P) ls.
Proof.
  induction ls as [|l ls IH]; simpl; [constructor|].
  intros [Hl Hls]%Forall_app. constructor; auto.
Qed.

Lemma all_windows_contribute (cands : list Candidate) (k : nat) :
  (0 < k)%nat → (k ≤ length cands)%nat →
  Forall (λ c, usable c = true) cands →
  contributing_windows cands k = k.
Proof.
  intros Hk Hn Hall. unfold contributing_windows.
  destruct (windows_partition cands k Hk) as (Hlen & Hcat & Hsz).
  assert (Hq : (1 ≤ length cands / k)%nat).
  { apply Nat.div_le_lower_bound; lia. }
  assert (Hws : Forall (λ w, (0 < usable_count w)%nat) (windows cands k)).
  { rewrite <- Hcat in Hall. apply Forall_concat_inv in Hall.
    apply Forall_forall. intros w Hw.
    rewrite Forall_forall in Hsz, Hall. specialize (Hsz w Hw).
    rewrite usable_count_all by auto. lia. }
  rewrite <- Hlen at 2. clear Hlen Hcat Hsz.
  induction Hws as [|w ws Hw _ IH]; [done|].
  rewrite filter_cons. case_decide; [|lia]. simpl. by rewrite IH.
Qed.

Lemma avoid_duplicates_subset (min_gap : float)
    (picks : list (option Candidate)) (prev : option Candidate)
    (kept dropped : list Candidate) (c : Candidate) :
  c ∈ (avoid_duplicates min_gap prev kept dropped picks).1 →
  c ∈ kept ∨ prev = Some c ∨ Some c ∈ picks.
Proof.
  revert prev kept dropped.
  induction picks as [|[x|] picks IH]; intros prev kept dropped; simpl.
  - rewrite list_elem_of_In, <- in_rev, <- list_elem_of_In.
    destruct prev as [b|]; [|auto].
    intros [->|?]%elem_of_cons; auto.
  - destruct prev as [b|];
      [destruct (within_gap min_gap b x); [destruct (score_lt x b);
         [|destruct (score_lt b x)]|]|];
      intros H; apply IH in H;
      destruct H as [H | [H | H]]; try discriminate;
      try (injection H as ->);
      first [ apply elem_of_cons in H as [-> | H]; by auto
            | by auto
            | right; right; apply elem_of_cons; by auto ].
  - intros H; apply IH in H.
    destruct H as [H | [H | H]]; try discriminate.
    + destruct prev as [b|]; [|auto].
      apply elem_of_cons in H as [-> | H]; auto.
    + right. right. apply elem_of_cons. auto.
Qed.

Lemma final_picks_subset (min_gap : option float)
    (picks : list (option Candidate)) (c : Candidate) :
  c ∈ (final_picks min_gap picks).1 → Some c ∈ picks.
Proof.
  destruct min_gap as [g|]; simpl.
  - intros [H | [H | H]]%avoid_duplicates_subset; [|discriminate|done].
    by apply elem_of_nil in H.
  - rewrite list_elem_of_omap. intros (x & Hx & Hc). simpl in Hc. by subst.
Qed.

Lemma selected_are_usable (cands : list Candidate) (k : nat)
    (min_gap : option float) (c : Candidate) :
  (0 < k)%nat →
  c ∈ (final_picks min_gap (best_in_window <$> windows cands k)).1 →
  c ∈ cands ∧ usable c = true.
Proof.
  intros Hk Hc. apply final_picks_subset in Hc.
  apply list_elem_of_fmap in Hc as (w & Hbest & Hw).
  pose proof (best_in_window_usable w) as Hspec. rewrite <- Hbest in Hspec.
  destruct Hspec as [Hin Hu]. split; [|done].
  destruct (windows_partition cands k Hk) as (_ & Hcat & _).
  rewrite <- Hcat. apply list_elem_of_In, in_concat. exists w.
  split; by apply list_elem_of_In.
Qed.

(** The pass keeps the order of the selections, and it keeps the
    selection it holds back. *)
Lemma avoid_duplicates_sublist (min_gap : float)
    (picks : list (option Candidate)) (prev : option Candidate)
    (kept dropped : list Candidate) :
  (avoid_duplicates min_gap prev kept dropped picks).1
  `sublist_of` (rev kept ++ option_list prev ++ omap id picks)%list.
Proof.
  revert prev kept dropped.
  induction picks as [|[c|] picks IH]; intros prev kept dropped; csimpl.
  - destruct prev as [b|]; simpl; by rewrite ?(right_id_L [] (++)%list).
  - destruct prev as [b|]; simpl.
    + destruct (within_gap min_gap b c); [destruct (score_lt c b);
        [|destruct (score_lt b c)]|];
        (etrans; [apply IH|]); simpl; rewrite <- ?(assoc_L (++)%list); simpl;
        apply sublist_app; try done.
      * apply sublist_skip. by apply sublist_cons.
      * by apply sublist_cons.
    + etrans; [apply IH|]. done.
  - etrans; [apply IH|]. destruct prev as [b|]; simpl;
      by rewrite <- ?(assoc_L (++)%list).
Qed.

Lemma avoid_duplicates_keeps_one (min_gap : float)
    (picks : list (option Candidate)) (prev : option Candidate)
    (kept dropped : list Candidate) :
  (length kept + length (option_list prev)
   ≤ length (avoid_duplicates min_gap prev kept dropped picks).1)%nat ∧
  (prev = None → (0 < length (omap id picks))%nat →
   (length kept + 1
    ≤ length (avoid_duplicates min_gap prev kept dropped picks).1)%nat).
Proof.
  revert prev kept dropped.
  induction picks as [|[c|] picks IH]; intros prev kept dropped; csimpl.
  - rewrite length_rev. split; [destruct prev; simpl; lia | lia].
  - destruct prev as [b|]; simpl.
    + split; [|done].
      destruct (within_gap min_gap b c); [destruct (score_lt c b);
        [|destruct (score_lt b c)]|];
        (etrans; [|apply (proj1 (IH _ _ _))]); simpl; lia.
    + split; [etrans; [|apply (proj1 (IH _ _ _))]; simpl; lia|].
      intros _ _. etrans; [|apply (proj1 (IH _ _ _))]. simpl. lia.
  - split.
    + etrans; [|apply (proj1 (IH _ _ _))]. destruct prev; simpl; lia.
    + intros -> Hp. simpl. by apply (proj2 (IH _ _ _)).
Qed.

Lemma final_picks_sublist (min_gap : option float)
    (picks : list (option Candidate)) :
  (final_picks min_gap picks).1 `sublist_of` omap id picks.
Proof.
  destruct min_gap as [g|]; simpl; [|done].
  apply (avoid_duplicates_sublist g picks None [] []).
Qed.

Lemma final_picks_keeps_one (min_gap : option float)
    (picks : list (option Candidate)) :
  (0 < length (omap id picks))%nat →
  (0 < length (final_picks min_gap picks).1)%nat.
Proof.
  intros Hp. destruct min_gap as [g|]; simpl; [|done].
  pose proof (proj2 (avoid_duplicates_keeps_one g picks None [] [])
                eq_refl Hp) as H.
  simpl in H. lia.
Qed.

(** C1, as the selector of the design document has it. For every candidate
    sequence with distinct sequence indices, every target count [K > 0] and
    with or without a minimum gap, the selector returns a Selection Result.
    Without a minimum gap its size is exactly the number of windows that
    hold a Usable candidate; with one it is at most that number, and not
    zero unless that number is. That number is at most
    [min(K, number of Usable candidates)], so the size is at most [K]; and
    it is [K] when every candidate is Usable and [K] is at most the number
    of candidates. Every selected index is the index of a Usable
    candidate. *)
Theorem selection_size (cands : list Candidate) (K : Z)
    (min_gap : option float) :
  0 < K →
  NoDup (sequence_index <$> cands) →
  ∃ r, select cands K min_gap = Selected r ∧
       let size := Z.of_nat (size (selected_indices r)) in
       let contributing :=
         Z.of_nat (contributing_windows cands (Z.to_nat K)) in
       (min_gap = None → size = contributing) ∧
       size ≤ contributing ∧
       (0 < contributing → 0 < size) ∧
       contributing ≤ Z.min K (Z.of_nat (usable_count cands)) ∧
       (K ≤ Z.of_nat (length cands) → Forall (λ c, usable c = true) cands →
        contributing = K) ∧
       (∀ i, i ∈ selected_indices r →
          ∃ c, c ∈ cands ∧ usable c = true ∧ sequence_index c = i).
Proof.
  intros HK Hnd. unfold select.
  destruct (Z.leb_spec K 0) as [?|_]; [lia|].
  destruct (final_picks min_gap _) as [selected dropped] eqn:Hfp.
  eexists. split; [reflexivity|]. simpl.
  assert (Hsel : ∀ c, c ∈ selected → c ∈ cands ∧ usable c = true).
  { intros c Hc. apply (selected_are_usable cands (Z.to_nat K) min_gap);
      [lia|]. by rewrite Hfp. }
  set (ws := windows cands (Z.to_nat K)) in *.
  destruct (windows_partition cands (Z.to_nat K) ltac:(lia)) as (Hlen & Hcat & _).
  fold ws in Hlen, Hcat.
  pose proof (picks_length ws) as Hpl.
  unfold contributing_windows. fold ws.
  pose proof (final_picks_sublist min_gap (best_in_window <$> ws)) as Hsub.
  pose proof (final_picks_length min_gap (best_in_window <$> ws)) as Hfinal.
  pose proof (final_picks_keeps_one min_gap (best_in_window <$> ws)) as Hone.
  rewrite Hfp in Hsub, Hfinal, Hone. simpl in Hsub, Hfinal, Hone.
  assert (Hsize : size (list_to_set (sequence_index <$> selected) : gset nat)
                  = length selected).
  { rewrite size_list_to_set, length_fmap; [done|].
    eapply sublist_NoDup; [exact Hnd|].
    apply fmap_sublist. rewrite <- Hcat.
    etrans; [exact Hsub | apply picks_sublist]. }
  rewrite Hsize.
  destruct (picks_bound ws) as [Hk Hu].
  rewrite Hlen in Hk. rewrite Hcat in Hu.
  split_and!.
  - intros ->. simpl in Hfp. injection Hfp as <- _. lia.
  - lia.
  - lia.
  - lia.
  - intros Hn Hall.
    pose proof (all_windows_contribute cands (Z.to_nat K)) as Hall'.
    unfold contributing_windows in Hall'. fold ws in Hall'.
    rewrite Hall'; [lia|lia|lia|done].
  - intros i Hi. apply elem_of_list_to_set, list_elem_of_fmap in Hi
      as (c & -> & Hc).
    destruct (Hsel c Hc). eauto.
Qed.

Lemma selection_size_witness :
  ∃ r, select Fixtures.scenario_b 10 None = Selected r ∧
       let size := Z.of_nat (size (selected_indices r)) in
       let contributing :=
         Z.of_nat (contributing_windows Fixtures.scenario_b (Z.to_nat 10)) in
       (@None float = None → size = contributing) ∧
       size ≤ contributing ∧
       (0 < contributing → 0 < size) ∧
       contributing ≤ Z.min 10 (Z.of_nat (usable_count Fixtures.scenario_b)) ∧
       (10 ≤ Z.of_nat (length Fixtures.scenario_b) →
        Forall (λ c, usable c = true) Fixtures.scenario_b →
        contributing = 10) ∧
       (∀ i, i ∈ selected_indices r →
          ∃ c, c ∈ Fixtures.scenario_b ∧ usable c = true ∧
               sequence_index c = i).
Proof.
  apply (selection_size Fixtures.scenario_b 10 None).
  - lia.
  - apply (bool_decide_unpack _). vm_compute. exact I.
Defined.

(** With every candidate Usable the selection has [K] elements (scenario A
    of the design document: 100 candidates, [K = 5]). *)
Example selection_size_all_usable :
  ∃ r, select Fixtures.scenario_a 5 None = Selected r ∧
       size (selected_indices r) = 5%nat ∧
       contributing_windows Fixtures.scenario_a 5 = 5%nat.
Proof. eexists. split; [reflexivity|]. split; vm_compute; reflexivity. Qed.

(** With a minimum gap the pass of step 4 can take away a selection also
    when every candidate is Usable: two candidates one second apart, [K = 2]
    and a gap of five seconds leave one selection, the sharper one. *)
Example selection_with_gap :
  ∃ r, select [Fixtures.frame 0 3 Scored; Fixtures.frame 1 4 Scored] 2
         (Some 5%float) = Selected r ∧
       selected_indices r = {[ 1%nat ]} ∧
       reason_discarded r = {[ 0%nat := NearDuplicate ]}.
Proof. eexists. split; [reflexivity|]. split; vm_compute; reflexivity. Qed.

(** C1, as stated, fails: of four candidates the first two are Unusable; with
    [K = 2] the first window selects nothing, and the result has one index
    although [min(K, number of Usable candidates)] is two. *)
Lemma selection_smaller_than_min :
  ∃ r, select Fixtures.defective_start 2 None = Selected r ∧
       selected_indices r = {[ 3%nat ]} ∧
       size (selected_indices r) = 1%nat ∧
       usable_count Fixtures.defective_start = 2%nat.
Proof.
  eexists. split; [reflexivity|]. split_and!; vm_compute; reflexivity.
Qed.

(** A target count that is not positive is refused. *)
Lemma select_invalid_target (cands : list Candidate) (K : Z)
    (min_gap : option float) :
  K ≤ 0 → select cands K min_gap = InvalidTargetCount.
Proof.
  intros HK. unfold select. by destruct (Z.leb_spec K 0) as [_|?]; [|lia].
Qed.

(** Scenario A: the windows are [0..19], ..., [80..99], and each selects its
    last candidate. *)
Example scenario_a_selection :
  ∃ r, select Fixtures.scenario_a 5 None = Selected r ∧
       selected_indices r = {[ 19; 39; 59; 79; 99 ]}%nat.
Proof. eexists. split; [reflexivity|]. vm_compute. reflexivity. Qed.

(** Scenario B: one window per candidate, eight selections, and the two
    Unusable candidates in the audit trail. *)
Example scenario_b_selection :
  ∃ r, select Fixtures.scenario_b 10 None = Selected r ∧
       size (selected_indices r) = 8%nat ∧
       reason_discarded r
       = {[ 3%nat := CandidateUnusable; 7%nat := CandidateUnusable ]}.
Proof. eexists. split; [reflexivity|]. split; vm_compute; reflexivity. Qed.

End SelectorFacts.
